(** * dmpsbm: dynamic multiplex stochastic block model

    A shallow embedding of [lib/dmprdpg/dmpsbm.py] (class [dmpsbm]).

    Conventions of the embedding.
    - Python values that reach the constructor are terms of [pyval]; the
      [isinstance] tests of [__init__] become tests on the constructor.
    - numpy arrays are two-dimensional arrays of scalars, [ndarray];
      float64 arithmetic is idealised as exact arithmetic on canonical
      rationals ([Qc]): rounding and overflow are outside the model, and
      NaN only appears as the variance of an empty run of rows.
    - A method is a computation in a state-and-exception monad over the
      instance ([self]) and the outside world (random generator, printed
      and plotted output).  An exception keeps the state reached when it
      was raised, as in Python.
    - Collaborators that are not part of the class (the random block
      sampler and the spectral embedding of [helpers.py], scipy's
      [orthogonal_procrustes], the iteration order of a Python [set]) are
      variables of a section.
    - The methods embedded are [__init__], [sample],
      [get_centroids_theo], [get_rotation], [rotate], [calculate_error],
      [calculate_variance] and [get_centroids].  [plot] and [qq_plot]
      are left out: they store nothing, and what they do is decided
      inside matplotlib and statsmodels. *)

From Stdlib Require Import String DecimalString.
From Stdlib Require Import ZArith QArith Qcanon List Bool Lia Eqdep_dec.
Import ListNotations.
Local Open Scope Z_scope.

Set Implicit Arguments.

(** ** Python values seen by the constructor *)

#[warnings="-register-all"]
Inductive pyval : Type :=
| PyNone
| PyBool (b : bool)
| PyInt (z : Z)
| PyFloat (q : Qc)
| PyStr (s : string)
| PyList (l : list pyval)
| PyTuple (l : list pyval)
| PyDict (items : list (pyval * pyval)).

(** [isinstance(v, int)]: [bool] is a subclass of [int]. *)
Definition isinstance_int (v : pyval) : bool :=
  match v with
  | PyInt _ | PyBool _ => true
  | _ => false
  end.

Definition isinstance_list (v : pyval) : bool :=
  match v with PyList _ => true | _ => false end.

Definition isinstance_tuple (v : pyval) : bool :=
  match v with PyTuple _ => true | _ => false end.

(** The integer an [int] instance denotes ([True] is 1, [False] is 0). *)
Definition int_value (v : pyval) : Z :=
  match v with
  | PyInt z => z
  | PyBool true => 1
  | _ => 0
  end.

(** [len(key)] for a key already known to be a tuple. *)
Definition tuple_len (v : pyval) : nat :=
  match v with PyTuple l => length l | _ => O end.

Definition Qc_of_Z (z : Z) : Qc := Q2Qc (inject_Z z).

(** The value of a Python number, for [==] between numbers. *)
Definition num_value (v : pyval) : option Qc :=
  match v with
  | PyInt z => Some (Qc_of_Z z)
  | PyBool true => Some (Q2Qc 1)
  | PyBool false => Some (Q2Qc 0)
  | PyFloat q => Some q
  | _ => None
  end.

Definition num_eqb (v : pyval) (z : Z) : bool :=
  match num_value v with
  | Some q => if Qc_eq_dec q (Qc_of_Z z) then true else false
  | None => false
  end.

(** [key == (i, j)] for a dictionary key [key] and integers [i], [j]. *)
Definition key_matches (i j : Z) (key : pyval) : bool :=
  match key with
  | PyTuple [a; b] => num_eqb a i && num_eqb b j
  | _ => false
  end.

(** ** Exceptions *)

Inductive exn : Type :=
| ValueError (msg : string)
| TypeError
| KeyError (i j : Z)
| IndexError.

(** ** numpy arrays *)

Definition rectb (c : nat) (M : list (list Qc)) : bool :=
  forallb (fun r => Nat.eqb (length r) c) M.

(** A two-dimensional array of shape [(length rows, ncols)]. *)
Record ndarray : Type := Nd {
  ncols : nat;
  rows : list (list Qc);
  nd_wf : rectb ncols rows = true
}.

Definition nrows (a : ndarray) : nat := length (rows a).

Definition mk_nd (c : nat) (M : list (list Qc)) : ndarray :=
  match rectb c M as b return (rectb c M = b -> ndarray) with
  | true => fun pf => Nd c M pf
  | false => fun _ => Nd c [] eq_refl
  end eq_refl.

Definition entry (a : ndarray) (i j : nat) : Qc :=
  nth j (nth i (rows a) []) (Q2Qc 0).

(** ** The model instance *)

Record model : Type := Model {
  layers : Z;
  timesteps : Z;
  groups : list Z;
  prob_dict : list (pyval * pyval);
  A : option ndarray;
  left_embedding : option ndarray;
  right_embedding : option ndarray;
  left_centroids : option (list (list (list Qc)));
  right_centroids : option (list (list (list Qc)));
  left_embedding_theo : option ndarray;
  right_embedding_theo : option ndarray;
  rotation_left : option ndarray;
  rotation_right : option ndarray;
  error : Qc
}.

(** ** [dmpsbm.__init__] *)

Definition msg_layers : string :=
  "The number of layers must be a positive integer".
Definition msg_timesteps : string :=
  "The number of timesteps must be a positive integer".
Definition msg_groups : string :=
  "The groups must be a non-empty list of integers".
Definition msg_prob_dict : string :=
  "The probability dictionary must be a dictionary with keys as tuples and values as lists".

Definition prob_item_ok (kv : pyval * pyval) : bool :=
  isinstance_tuple (fst kv) && Nat.eqb (tuple_len (fst kv)) 2
  && isinstance_list (snd kv).

(** The constructor either raises (left) or returns the fresh instance.
    An [int] instance is stored as the integer it denotes. *)
Definition init (layers0 timesteps0 groups0 prob_dict0 : pyval) : exn + model :=
  if negb (isinstance_int layers0) || (int_value layers0 <=? 0)
  then inl (ValueError msg_layers)
  else if negb (isinstance_int timesteps0) || (int_value timesteps0 <=? 0)
  then inl (ValueError msg_timesteps)
  else match groups0 with
  | PyList g =>
    if Nat.eqb (length g) 0 || negb (forallb isinstance_int g)
    then inl (ValueError msg_groups)
    else match prob_dict0 with
    | PyDict items =>
      if negb (forallb prob_item_ok items)
      then inl (ValueError msg_prob_dict)
      else inr {| layers := int_value layers0;
                  timesteps := int_value timesteps0;
                  groups := map int_value g;
                  prob_dict := items;
                  A := None;
                  left_embedding := None;
                  right_embedding := None;
                  left_centroids := None;
                  right_centroids := None;
                  left_embedding_theo := None;
                  right_embedding_theo := None;
                  rotation_left := None;
                  rotation_right := None;
                  error := Q2Qc 0 |}
    | _ => inl (ValueError msg_prob_dict)
    end
  | _ => inl (ValueError msg_groups)
  end.

(** ** Python builtins on lists *)

(** [range(n)] *)
Definition py_range (n : Z) : list Z :=
  map Z.of_nat (seq 0 (Z.to_nat n)).

(** [sum(l)] for a list of integers. *)
Definition py_sum_int (l : list Z) : Z := fold_left Z.add l 0.

(** A slice bound [i] on a sequence of length [n]: negative bounds count
    from the end, and every bound is clipped to [0 .. n]. *)
Definition slice_bound (n : nat) (i : Z) : nat :=
  if i <? 0 then Z.to_nat (Z.max 0 (i + Z.of_nat n))
  else Nat.min (Z.to_nat i) n.

(** [l[a:b]] *)
Definition py_slice {X : Type} (a b : Z) (l : list X) : list X :=
  let lo := slice_bound (length l) a in
  let hi := slice_bound (length l) b in
  firstn (hi - lo) (skipn lo l).

(** [str(z)] for an integer. *)
Definition py_str_int (z : Z) : string :=
  NilZero.string_of_int (Z.to_int z).

(** ** numpy operations *)

Definition vec_add (u v : list Qc) : list Qc :=
  map (fun p => (fst p + snd p)%Qc) (combine u v).

Definition vec_sub (u v : list Qc) : list Qc :=
  map (fun p => (fst p - snd p)%Qc) (combine u v).

(** Builtin [sum] over scalars: [0 + x0 + x1 + ...]. *)
Definition py_sum (v : list Qc) : Qc := fold_left Qcplus v (Q2Qc 0).

Definition of_nat_Qc (n : nat) : Qc := Qc_of_Z (Z.of_nat n).

(** [np.mean] of a one-dimensional array.  It is only applied to
    non-empty arrays here (an empty one would give NaN in numpy). *)
Definition np_mean (v : list Qc) : Qc :=
  (py_sum v / of_nat_Qc (length v))%Qc.

(** [np.concatenate(arrs, axis=0)] on two-dimensional arrays. *)
Definition np_concatenate0 (arrs : list ndarray) : exn + ndarray :=
  match arrs with
  | [] => inl (ValueError "need at least one array to concatenate")
  | a :: rest =>
    if forallb (fun b => Nat.eqb (ncols b) (ncols a)) rest
    then inr (mk_nd (ncols a) (concat (map rows arrs)))
    else inl (ValueError "all the input array dimensions except for the concatenation axis must match exactly")
  end.

Definition hcat (a b : ndarray) : ndarray :=
  mk_nd (ncols a + ncols b)
        (map (fun p => fst p ++ snd p) (combine (rows a) (rows b))).

(** [np.concatenate(arrs, axis=1)] on two-dimensional arrays. *)
Definition np_concatenate1 (arrs : list ndarray) : exn + ndarray :=
  match arrs with
  | [] => inl (ValueError "need at least one array to concatenate")
  | a :: rest =>
    if forallb (fun b => Nat.eqb (nrows b) (nrows a)) rest
    then inr (fold_left hcat rest a)
    else inl (ValueError "all the input array dimensions except for the concatenation axis must match exactly")
  end.

(** [arr[a:b, :]] *)
Definition row_slice (arr : ndarray) (a b : Z) : ndarray :=
  mk_nd (ncols arr) (py_slice a b (rows arr)).

(** The elements of [l] at the positions where [mask] is true. *)
Definition masked {X : Type} (mask : list bool) (l : list X) : list X :=
  map snd (filter fst (combine mask l)).

(** [arr[mask]] for a one-dimensional boolean [mask]. *)
Definition mask_select (arr : ndarray) (mask : list bool) : exn + ndarray :=
  if Nat.eqb (length mask) (nrows arr)
  then inr (mk_nd (ncols arr) (masked mask (rows arr)))
  else inl IndexError.

(** [arr[:, j]] *)
Definition column (arr : ndarray) (j : nat) : exn + list Qc :=
  if Nat.ltb j (ncols arr)
  then inr (map (fun r => nth j r (Q2Qc 0)) (rows arr))
  else inl IndexError.

Definition columns (a : ndarray) : list (list Qc) :=
  map (fun j => map (fun r => nth j r (Q2Qc 0)) (rows a)) (seq 0 (ncols a)).

Definition dot (u v : list Qc) : Qc :=
  py_sum (map (fun p => (fst p * snd p)%Qc) (combine u v)).

(** [a @ b] *)
Definition matmul (a b : ndarray) : exn + ndarray :=
  if Nat.eqb (ncols a) (nrows b)
  then inr (mk_nd (ncols b) (map (fun r => map (dot r) (columns b)) (rows a)))
  else inl (ValueError "matmul: mismatch in its core dimension").

Definition transpose (a : ndarray) : ndarray :=
  mk_nd (nrows a) (columns a).

Definition identity (d : nat) : ndarray :=
  mk_nd d (map (fun i => map (fun j => if Nat.eqb i j then Q2Qc 1 else Q2Qc 0)
                             (seq 0 d)) (seq 0 d)).

(** Broadcasting of one dimension. *)
Definition bcast_dim (n1 n2 : nat) : option nat :=
  if Nat.eqb n1 n2 then Some n1
  else if Nat.eqb n1 1 then Some n2
  else if Nat.eqb n2 1 then Some n1
  else None.

(** Stretch a dimension of length 1 to length [n]. *)
Definition stretch {X : Type} (n : nat) (l : list X) : list X :=
  match l with
  | [x] => repeat x n
  | _ => l
  end.

(** [a - b], with numpy's broadcasting. *)
Definition np_sub (a b : ndarray) : exn + ndarray :=
  match bcast_dim (nrows a) (nrows b), bcast_dim (ncols a) (ncols b) with
  | Some n, Some c =>
    inr (mk_nd c (map (fun p => vec_sub (stretch c (fst p)) (stretch c (snd p)))
                      (combine (stretch n (rows a)) (stretch n (rows b)))))
  | _, _ => inl (ValueError "operands could not be broadcast together")
  end.

(** [a ** 2] *)
Definition np_square (a : ndarray) : ndarray :=
  mk_nd (ncols a) (map (map (fun x => (x * x)%Qc)) (rows a)).

(** [sum(sum(x))] with the builtin [sum]: the inner call adds the rows
    (starting from the integer 0, broadcast), the outer one adds the
    entries of the resulting vector.  On an array without rows the inner
    call returns the integer 0, which the outer call cannot iterate. *)
Definition py_sum_sum (x : ndarray) : exn + Qc :=
  match rows x with
  | [] => inl TypeError
  | _ => inr (py_sum (fold_left vec_add (rows x) (repeat (Q2Qc 0) (ncols x))))
  end.

(** The result of [np.concatenate(centroids, axis=0)] on a list of lists
    of rows: a two-dimensional array, or the empty one-dimensional array
    when every list is empty. *)
Inductive stacked : Type :=
| Stacked1_empty
| Stacked2 (a : ndarray).

(** [np.asarray] on one list of rows; [None] stands for the empty
    one-dimensional array.  Ragged rows are rejected. *)
Definition asarray_rows (block : list (list Qc)) : exn + option ndarray :=
  match block with
  | [] => inr None
  | r :: _ =>
    if rectb (length r) block then inr (Some (mk_nd (length r) block))
    else inl (ValueError "setting an array element with a sequence")
  end.

Fixpoint asarray_all (blocks : list (list (list Qc)))
  : exn + list (option ndarray) :=
  match blocks with
  | [] => inr []
  | b :: bs =>
    match asarray_rows b with
    | inl e => inl e
    | inr a =>
      match asarray_all bs with
      | inl e => inl e
      | inr l => inr (a :: l)
      end
    end
  end.

Fixpoint all_some {X : Type} (l : list (option X)) : option (list X) :=
  match l with
  | [] => Some []
  | Some x :: l' =>
    match all_some l' with Some r => Some (x :: r) | None => None end
  | None :: _ => None
  end.

Definition is_none {X : Type} (o : option X) : bool :=
  match o with None => true | Some _ => false end.

Definition concatenate_centroids (centroids : option (list (list (list Qc))))
  : exn + stacked :=
  match centroids with
  | None => inl TypeError
  | Some blocks =>
    match asarray_all blocks with
    | inl e => inl e
    | inr [] => inl (ValueError "need at least one array to concatenate")
    | inr arrs =>
      match all_some arrs with
      | Some arrs2 =>
        match np_concatenate0 arrs2 with
        | inl e => inl e
        | inr a => inr (Stacked2 a)
        end
      | None =>
        if forallb is_none arrs then inr Stacked1_empty
        else inl (ValueError "all the input arrays must have same number of dimensions")
      end
    end
  end.

(** [a - s] where [s] is a stacked centroid array. *)
Definition np_sub_stacked (a : ndarray) (s : stacked) : exn + ndarray :=
  match s with
  | Stacked2 b => np_sub a b
  | Stacked1_empty =>
    if Nat.leb (ncols a) 1 then inr (mk_nd 0 (map (fun _ => []) (rows a)))
    else inl (ValueError "operands could not be broadcast together")
  end.

(** Population variance of one column, as [np.var]; [None] is NaN (the
    column is empty). *)
Definition np_var (v : list Qc) : option Qc :=
  match v with
  | [] => None
  | _ => Some (np_mean (map (fun x => ((x - np_mean v) * (x - np_mean v))%Qc) v))
  end.

(** Builtin [sum] over values that may be NaN. *)
Definition py_sum_nan (v : list (option Qc)) : option Qc :=
  fold_left (fun acc x =>
               match acc, x with
               | Some a, Some b => Some (a + b)%Qc
               | _, _ => None
               end) v (Some (Q2Qc 0)).

(** [sum(np.var(arr, axis=0))] *)
Definition sum_var_axis0 (arr : ndarray) : option Qc :=
  py_sum_nan (map np_var (columns arr)).

(** ** Helpers of the package *)

Fixpoint labels_from (k : Z) (len_groups : list Z) : list Z :=
  match len_groups with
  | [] => []
  | size :: rest => repeat k (Z.to_nat size) ++ labels_from (k + 1) rest
  end.

(** Modelled from the spec: [generate_group_labels] of [helpers.py], whose
    source is not available.  Community [k] (counted from 0, in the order
    of [len_groups]) occupies a contiguous run of [len_groups[k]] node
    indices; its nodes are labelled [k]. *)
Definition generate_group_labels (len_groups : list Z) : list Z :=
  labels_from 0 len_groups.

(** ** Steps that only return or raise *)

Definition bind_err {X Y : Type} (r : exn + X) (k : X -> exn + Y) : exn + Y :=
  match r with
  | inl e => inl e
  | inr x => k x
  end.

(** [f] on every element of [l], in order, up to the first exception. *)
Fixpoint map_err {X Y : Type} (f : X -> exn + Y) (l : list X) : exn + list Y :=
  match l with
  | [] => inr []
  | x :: l' =>
    match f x with
    | inl e => inl e
    | inr y =>
      match map_err f l' with
      | inl e => inl e
      | inr ys => inr (y :: ys)
      end
    end
  end.

(** ** Arrays from nested lists *)

Fixpoint numbers (l : list pyval) : option (list Qc) :=
  match l with
  | [] => Some []
  | v :: l' =>
    match num_value v, numbers l' with
    | Some q, Some qs => Some (q :: qs)
    | _, _ => None
    end
  end.

(** A list or tuple of numbers, as a row. *)
Definition row_numbers (v : pyval) : option (list Qc) :=
  match v with
  | PyList l | PyTuple l => numbers l
  | _ => None
  end.

Fixpoint rows_numbers (l : list pyval) : option (list (list Qc)) :=
  match l with
  | [] => Some []
  | v :: l' =>
    match row_numbers v, rows_numbers l' with
    | Some q, Some qs => Some (q :: qs)
    | _, _ => None
    end
  end.

Definition msg_not_a_matrix : string :=
  "the operand is not a two-dimensional array of numbers".

(** [np.asarray(v)] for an operand of [np.concatenate(..., axis=1)].  A
    non-empty list (or tuple) of rows of numbers, all of one length, is a
    two-dimensional array.  Every other value is rejected with a
    [ValueError]: numpy raises one for operands of fewer than two
    dimensions (an [AxisError]) and for ragged rows; rows that hold
    something else than numbers, or lists nested deeper, are not among
    the numeric two-dimensional arrays of this model and are rejected in
    the same way. *)
Definition asarray_matrix (v : pyval) : exn + ndarray :=
  match v with
  | PyList (r :: rs) | PyTuple (r :: rs) =>
    match rows_numbers (r :: rs) with
    | Some (q :: qs) =>
      if rectb (length q) (q :: qs) then inr (mk_nd (length q) (q :: qs))
      else inl (ValueError msg_not_a_matrix)
    | _ => inl (ValueError msg_not_a_matrix)
    end
  | _ => inl (ValueError msg_not_a_matrix)
  end.

(** [np.concatenate(values, axis=1)] on a list of nested lists. *)
Definition concatenate1_values (values : list pyval) : exn + ndarray :=
  bind_err (map_err asarray_matrix values) np_concatenate1.

(** ** State and exceptions *)

Inductive result (X : Type) : Type :=
| Ok (x : X)
| Raise (e : exn).

Arguments Ok {X} x.
Arguments Raise {X} e.

(** A computation over a state [S]: it returns or raises, and in both
    cases leaves a state behind. *)
Definition M (S X : Type) : Type := S -> result X * S.

Definition ret {S X : Type} (x : X) : M S X := fun s => (Ok x, s).

Definition bind {S X Y : Type} (c : M S X) (k : X -> M S Y) : M S Y :=
  fun s =>
    match c s with
    | (Ok x, s') => k x s'
    | (Raise e, s') => (Raise e, s')
    end.

Definition lift {S X : Type} (r : exn + X) : M S X :=
  fun s =>
    match r with
    | inl e => (Raise e, s)
    | inr x => (Ok x, s)
    end.

Definition get {S : Type} : M S S := fun s => (Ok s, s).

Definition modify {S : Type} (f : S -> S) : M S unit := fun s => (Ok tt, f s).

Declare Scope method_scope.
Delimit Scope method_scope with method.
Notation "x <- c ;; k" := (bind c (fun x => k))
  (at level 61, c at next level, right associativity) : method_scope.
Notation "c ;; k" := (bind c (fun _ => k))
  (at level 61, right associativity) : method_scope.

Local Open Scope method_scope.

(** A [for] loop over [xs] that threads the loop's local variables. *)
Fixpoint for_each {S X Acc : Type} (xs : list X) (body : X -> Acc -> M S Acc)
         (acc : Acc) : M S Acc :=
  match xs with
  | [] => ret acc
  | x :: xs' => acc' <- body x acc ;; for_each xs' body acc'
  end.

(** ** Field updates on the instance *)

Definition set_A (v : option ndarray) (m : model) : model :=
  Model (layers m) (timesteps m) (groups m) (prob_dict m) v
        (left_embedding m) (right_embedding m) (left_centroids m)
        (right_centroids m) (left_embedding_theo m) (right_embedding_theo m)
        (rotation_left m) (rotation_right m) (error m).

Definition set_left_embedding (v : option ndarray) (m : model) : model :=
  Model (layers m) (timesteps m) (groups m) (prob_dict m) (A m)
        v (right_embedding m) (left_centroids m)
        (right_centroids m) (left_embedding_theo m) (right_embedding_theo m)
        (rotation_left m) (rotation_right m) (error m).

Definition set_right_embedding (v : option ndarray) (m : model) : model :=
  Model (layers m) (timesteps m) (groups m) (prob_dict m) (A m)
        (left_embedding m) v (left_centroids m)
        (right_centroids m) (left_embedding_theo m) (right_embedding_theo m)
        (rotation_left m) (rotation_right m) (error m).

Definition set_left_centroids (v : option (list (list (list Qc)))) (m : model)
  : model :=
  Model (layers m) (timesteps m) (groups m) (prob_dict m) (A m)
        (left_embedding m) (right_embedding m) v
        (right_centroids m) (left_embedding_theo m) (right_embedding_theo m)
        (rotation_left m) (rotation_right m) (error m).

Definition set_right_centroids (v : option (list (list (list Qc)))) (m : model)
  : model :=
  Model (layers m) (timesteps m) (groups m) (prob_dict m) (A m)
        (left_embedding m) (right_embedding m) (left_centroids m)
        v (left_embedding_theo m) (right_embedding_theo m)
        (rotation_left m) (rotation_right m) (error m).

Definition set_left_embedding_theo (v : option ndarray) (m : model) : model :=
  Model (layers m) (timesteps m) (groups m) (prob_dict m) (A m)
        (left_embedding m) (right_embedding m) (left_centroids m)
        (right_centroids m) v (right_embedding_theo m)
        (rotation_left m) (rotation_right m) (error m).

Definition set_right_embedding_theo (v : option ndarray) (m : model) : model :=
  Model (layers m) (timesteps m) (groups m) (prob_dict m) (A m)
        (left_embedding m) (right_embedding m) (left_centroids m)
        (right_centroids m) (left_embedding_theo m) v
        (rotation_left m) (rotation_right m) (error m).

Definition set_rotation_left (v : option ndarray) (m : model) : model :=
  Model (layers m) (timesteps m) (groups m) (prob_dict m) (A m)
        (left_embedding m) (right_embedding m) (left_centroids m)
        (right_centroids m) (left_embedding_theo m) (right_embedding_theo m)
        v (rotation_right m) (error m).

Definition set_rotation_right (v : option ndarray) (m : model) : model :=
  Model (layers m) (timesteps m) (groups m) (prob_dict m) (A m)
        (left_embedding m) (right_embedding m) (left_centroids m)
        (right_centroids m) (left_embedding_theo m) (right_embedding_theo m)
        (rotation_left m) v (error m).

Definition set_error (v : Qc) (m : model) : model :=
  Model (layers m) (timesteps m) (groups m) (prob_dict m) (A m)
        (left_embedding m) (right_embedding m) (left_centroids m)
        (right_centroids m) (left_embedding_theo m) (right_embedding_theo m)
        (rotation_left m) (rotation_right m) v.

(** ** Pure steps of the methods *)

(** [prob_dict[(i, j)]] *)
Definition lookup_prob (d : list (pyval * pyval)) (i j : Z) : exn + pyval :=
  match find (fun kv => key_matches i j (fst kv)) d with
  | Some kv => inr (snd kv)
  | None => inl (KeyError i j)
  end.

(** [emb[a:b, :]] on an attribute that may still be [None]. *)
Definition subscript_rows (emb : option ndarray) (a b : Z) : exn + ndarray :=
  match emb with
  | None => inl TypeError
  | Some e => inr (row_slice e a b)
  end.

(** [a @ b] on attributes that may still be [None]. *)
Definition py_matmul (a b : option ndarray) : exn + ndarray :=
  match a, b with
  | Some a', Some b' => matmul a' b'
  | _, _ => inl (ValueError "matmul: Input operand does not have enough dimensions")
  end.

(** [sum(sum((theo - stacked)**2))].  When [theo] is [None] the
    subtraction is an object array: it raises [TypeError] on its first
    entry, and has no entry to fail on when [stacked] is empty. *)
Definition squared_error (theo : option ndarray) (s : stacked) : exn + Qc :=
  match theo with
  | Some t =>
    match np_sub_stacked t s with
    | inl e => inl e
    | inr d => py_sum_sum (np_square d)
    end
  | None =>
    match s with
    | Stacked2 b =>
      if Nat.eqb (ncols b) 0 && negb (Nat.eqb (nrows b) 0) then inr (Q2Qc 0)
      else inl TypeError
    | Stacked1_empty => inl TypeError
    end
  end.

(** Side selector of the embedding routine. *)
Inductive side : Type := Left | Right.

(** What the pipeline prints and plots. *)
Inductive event : Type :=
| Print_total_error (e : Qc)
| Bar_chart (title : string) (x : list Z) (height : list (option Qc)).

(** ** Collaborators used to run the model on examples *)

(** A block sampler that draws every edge (all block probabilities 1). *)
Definition ones_sampler (len_groups : list Z) (probabilities : pyval) (g : unit)
  : (exn + ndarray) * unit :=
  let n := Z.to_nat (py_sum_int len_groups) in
  (inr (mk_nd n (repeat (repeat (Q2Qc 1) n) n)), g).

(** An embedding of fixed width 4: the first four coordinates of each row
    (left) or column (right), padded with zeros. *)
Definition pad4 (r : list Qc) : list Qc := firstn 4 (r ++ repeat (Q2Qc 0) 4).

Definition pad_embedding (a : ndarray) (s : side) : exn + ndarray :=
  match s with
  | Left => inr (mk_nd 4 (map pad4 (rows a)))
  | Right => inr (mk_nd 4 (map pad4 (columns a)))
  end.

(** A Procrustes solver that checks shapes as scipy does and answers with
    the identity rotation. *)
Definition identity_procrustes (a b : ndarray) : exn + ndarray :=
  if Nat.eqb (nrows a) (nrows b) && Nat.eqb (ncols a) (ncols b)
  then inr (identity (ncols a))
  else inl (ValueError "the shapes of A and B differ").

Fixpoint insert_sorted (x : Z) (l : list Z) : list Z :=
  match l with
  | [] => [x]
  | y :: l' =>
    if x <? y then x :: l
    else if x =? y then l
    else y :: insert_sorted x l'
  end.

(** A set that iterates its elements in increasing order. *)
Definition sorted_set (l : list Z) : list Z := fold_right insert_sorted [] l.

(** Strictly increasing lists. *)
Inductive increasing : list Z -> Prop :=
| increasing_nil : increasing []
| increasing_cons (x : Z) (l : list Z) :
    (forall y, In y l -> x < y) -> increasing l -> increasing (x :: l).

(** [dmpsbm(1, 1, [2, 2], {(0, 0): [[1, 1], [1, 1]]})], freshly built. *)
Definition example_model : model :=
  {| layers := 1;
     timesteps := 1;
     groups := [2; 2];
     prob_dict := [(PyTuple [PyInt 0; PyInt 0],
                    PyList [PyList [PyInt 1; PyInt 1];
                            PyList [PyInt 1; PyInt 1]])];
     A := None;
     left_embedding := None;
     right_embedding := None;
     left_centroids := None;
     right_centroids := None;
     left_embedding_theo := None;
     right_embedding_theo := None;
     rotation_left := None;
     rotation_right := None;
     error := Q2Qc 0 |}.

(** An embedding of the four nodes of [example_model]. *)
Definition example_embedding : ndarray :=
  mk_nd 4 (map (map Qc_of_Z)
               [[1; 0; 0; 0]; [3; 0; 0; 0]; [0; 2; 0; 0]; [0; 4; 0; 0]]).

(** [example_model] once its embeddings are populated. *)
Definition example_embedded : model :=
  set_right_embedding (Some example_embedding)
    (set_left_embedding (Some example_embedding) example_model).

(** The centroids of the two communities of [example_embedding]. *)
Definition example_centroids : list (list (list Qc)) :=
  [map (map Qc_of_Z) [[2; 0; 0; 0]; [0; 3; 0; 0]]].

(** A theoretical embedding of the two communities. *)
Definition example_theo : ndarray :=
  mk_nd 4 (map (map Qc_of_Z) [[1; 0; 0; 0]; [0; 1; 0; 0]]).

(** [example_embedded] with centroids and theoretical embeddings. *)
Definition example_centroided : model :=
  set_right_embedding_theo (Some example_theo)
    (set_left_embedding_theo (Some example_theo)
       (set_right_centroids (Some example_centroids)
          (set_left_centroids (Some example_centroids) example_embedded))).

(** ** The methods of [dmpsbm] *)

Section Methods.

(** State of numpy's random generator. *)
Variable Rng : Type.

(** [helpers.generate_adjacency_matrix(len_groups, probabilities)] *)
Variable generate_adjacency_matrix :
  list Z -> pyval -> Rng -> (exn + ndarray) * Rng.

(** [helpers.get_embedding(matrix, type)] *)
Variable get_embedding : ndarray -> side -> exn + ndarray.

(** [scipy.linalg.orthogonal_procrustes(A, B)[0]] *)
Variable orthogonal_procrustes : ndarray -> ndarray -> exn + ndarray.

(** The order in which [set(l)] is iterated. *)
Variable py_set : list Z -> list Z.

Record world : Type := World {
  rng : Rng;
  output : list event
}.

Definition state : Type := (model * world)%type.

Definition self : M state model := fun s => (Ok (fst s), s).

Definition update (f : model -> model) : M state unit :=
  modify (fun s : state => (f (fst s), snd s)).

Definition emit (e : event) : M state unit :=
  modify (fun s : state =>
            (fst s, World (rng (snd s)) (output (snd s) ++ [e]))).

Definition call_generate_adjacency_matrix (len_groups : list Z)
           (probabilities : pyval) : M state ndarray :=
  fun s =>
    match generate_adjacency_matrix len_groups probabilities (rng (snd s)) with
    | (inr a, g) => (Ok a, (fst s, World g (output (snd s))))
    | (inl e, g) => (Raise e, (fst s, World g (output (snd s))))
    end.

(** [orthogonal_procrustes] validates its arguments before use, the
    first one first: [None] is refused with [TypeError], a stacked array
    that is not two-dimensional with [ValueError]. *)
Definition call_orthogonal_procrustes (a : option ndarray) (b : stacked)
  : exn + ndarray :=
  match a, b with
  | Some a', Stacked2 b' => orthogonal_procrustes a' b'
  | None, _ => inl TypeError
  | Some _, Stacked1_empty =>
    inl (ValueError "expected a two-dimensional array")
  end.

(** *** [sample] *)
Definition sample : M state unit :=
  m <- self ;;
  list_longs <-
    for_each (py_range (layers m)) (fun i list_longs =>
      m <- self ;;
      curr_long <-
        for_each (py_range (timesteps m)) (fun j curr_long =>
          m <- self ;;
          probabilities <- lift (lookup_prob (prob_dict m) i j) ;;
          curr_A <- call_generate_adjacency_matrix (groups m) probabilities ;;
          ret (curr_long ++ [curr_A])) [] ;;
      final_long <- lift (np_concatenate1 curr_long) ;;
      ret (list_longs ++ [final_long])) [] ;;
  final_embedding <- lift (np_concatenate0 list_longs) ;;
  update (set_A (Some final_embedding)) ;;
  left_embedding <- lift (get_embedding final_embedding Left) ;;
  update (set_left_embedding (Some left_embedding)) ;;
  right_embedding <- lift (get_embedding final_embedding Right) ;;
  update (set_right_embedding (Some right_embedding)).

(** *** [get_rotation] *)
Definition get_rotation : M state unit :=
  m <- self ;;
  left_stacked <- lift (concatenate_centroids (left_centroids m)) ;;
  rotation <- lift (call_orthogonal_procrustes (left_embedding_theo m)
                                               left_stacked) ;;
  update (set_rotation_left (Some rotation)) ;;
  m <- self ;;
  right_stacked <- lift (concatenate_centroids (right_centroids m)) ;;
  rotation <- lift (call_orthogonal_procrustes (right_embedding_theo m)
                                               right_stacked) ;;
  update (set_rotation_right (Some rotation)).

(** *** [calculate_variance] *)
Definition community_variances (current : ndarray) (len_groups : list Z)
  : M state (Z * list (option Qc)) :=
  for_each len_groups (fun size (loc : Z * list (option Qc)) =>
    let (start, variances) := loc in
    ret (start + size,
         variances ++ [sum_var_axis0 (row_slice current start (start + size))]))
    (0, []).

Definition calculate_variance : M state unit :=
  m <- self ;;
  let num_nodes := py_sum_int (groups m) in
  for_each (py_range (layers m)) (fun layer (_ : unit) =>
    m <- self ;;
    current_layer <- lift (subscript_rows (left_embedding m)
                             (num_nodes * layer) (num_nodes * (layer + 1))) ;;
    loc <- community_variances current_layer (groups m) ;;
    emit (Bar_chart ("Community Variances Layer " ++ py_str_int (layer + 1))
                    (py_range (Z.of_nat (length (groups m)))) (snd loc))) tt ;;
  m <- self ;;
  for_each (py_range (timesteps m)) (fun time (_ : unit) =>
    m <- self ;;
    current_time <- lift (subscript_rows (right_embedding m)
                            (num_nodes * time) (num_nodes * (time + 1))) ;;
    loc <- community_variances current_time (groups m) ;;
    emit (Bar_chart ("Community Variances Time " ++ py_str_int (time + 1))
                    (py_range (Z.of_nat (length (groups m)))) (snd loc))) tt.

(** *** [calculate_error] *)
Definition calculate_error : M state unit :=
  m <- self ;;
  left_stacked <- lift (concatenate_centroids (left_centroids m)) ;;
  right_stacked <- lift (concatenate_centroids (right_centroids m)) ;;
  left_error <- lift (squared_error (left_embedding_theo m) left_stacked) ;;
  right_error <- lift (squared_error (right_embedding_theo m) right_stacked) ;;
  update (set_error (left_error + right_error)%Qc) ;;
  calculate_variance.

(** *** [rotate] *)
Definition rotate : M state unit :=
  get_rotation ;;
  m <- self ;;
  rotated <- lift (py_matmul (left_embedding_theo m) (rotation_left m)) ;;
  update (set_left_embedding_theo (Some rotated)) ;;
  m <- self ;;
  rotated <- lift (py_matmul (right_embedding_theo m) (rotation_right m)) ;;
  update (set_right_embedding_theo (Some rotated)) ;;
  calculate_error ;;
  m <- self ;;
  emit (Print_total_error (error m)).

(** *** [get_centroids] *)
Definition community_centroids (current : ndarray) (len_groups : list Z)
  : M state (list (list Qc)) :=
  for_each (py_set (generate_group_labels len_groups))
    (fun label current_embeddings =>
      let labels := generate_group_labels len_groups in
      community <- lift (mask_select current
                                     (map (fun l => l =? label) labels)) ;;
      c0 <- lift (column community 0) ;;
      c1 <- lift (column community 1) ;;
      c2 <- lift (column community 2) ;;
      c3 <- lift (column community 3) ;;
      ret (current_embeddings
             ++ [[np_mean c0; np_mean c1; np_mean c2; np_mean c3]])) [].

Definition get_centroids : M state unit :=
  m <- self ;;
  let total_nodes := py_sum_int (groups m) in
  left_centroids <-
    for_each (py_range (layers m)) (fun layer left_centroids =>
      m <- self ;;
      current_layer <- lift (subscript_rows (left_embedding m)
                               (total_nodes * layer)
                               (total_nodes * (layer + 1))) ;;
      current_embeddings <- community_centroids current_layer (groups m) ;;
      ret (left_centroids ++ [current_embeddings])) [] ;;
  update (set_left_centroids (Some left_centroids)) ;;
  m <- self ;;
  right_centroids <-
    for_each (py_range (timesteps m)) (fun time right_centroids =>
      m <- self ;;
      current_time <- lift (subscript_rows (right_embedding m)
                              (total_nodes * time)
                              (total_nodes * (time + 1))) ;;
      current_embeddings <- community_centroids current_time (groups m) ;;
      ret (right_centroids ++ [current_embeddings])) [] ;;
  update (set_right_centroids (Some right_centroids)).


(** *** [get_centroids_theo] *)
Definition get_centroids_theo : M state unit :=
  m <- self ;;
  list_longs <-
    for_each (py_range (layers m)) (fun i list_longs =>
      m <- self ;;
      curr_long <-
        for_each (py_range (timesteps m)) (fun j curr_long =>
          m <- self ;;
          curr_B <- lift (lookup_prob (prob_dict m) i j) ;;
          ret (curr_long ++ [curr_B])) [] ;;
      final_long <- lift (concatenate1_values curr_long) ;;
      ret (list_longs ++ [final_long])) [] ;;
  final_embedding <- lift (np_concatenate0 list_longs) ;;
  embedding <- lift (get_embedding final_embedding Left) ;;
  update (set_left_embedding_theo (Some embedding)) ;;
  embedding <- lift (get_embedding final_embedding Right) ;;
  update (set_right_embedding_theo (Some embedding)) ;;
  rotate.

(** ** Vocabulary of the specification *)

(** Construction inputs the specification calls invalid. *)
Definition invalid_construction (layers0 timesteps0 groups0 prob_dict0 : pyval)
  : Prop :=
  isinstance_int layers0 = false \/ int_value layers0 <= 0 \/
  isinstance_int timesteps0 = false \/ int_value timesteps0 <= 0 \/
  groups0 = PyList [] \/
  exists items key value,
    prob_dict0 = PyDict items /\ In (key, value) items /\
    isinstance_tuple key = false.

(** The constructor raised [ValueError] with one of its four messages. *)
Definition validation_error (r : exn + model) : Prop :=
  exists msg,
    r = inl (ValueError msg) /\
    In msg [msg_layers; msg_timesteps; msg_groups; msg_prob_dict].

(** What the constructor does check. *)
Definition accepted_construction (layers0 timesteps0 groups0 prob_dict0 : pyval)
  : Prop :=
  isinstance_int layers0 = true /\ 0 < int_value layers0 /\
  isinstance_int timesteps0 = true /\ 0 < int_value timesteps0 /\
  (exists g, groups0 = PyList g /\ g <> [] /\
             Forall (fun x => isinstance_int x = true) g) /\
  (exists items, prob_dict0 = PyDict items /\
                 Forall (fun kv => exists a b v,
                             kv = (PyTuple [a; b], PyList v)) items).

(** Every field but [error] is the same in [m'] as in [m]. *)
Definition same_but_error (m m' : model) : Prop :=
  m' = set_error (error m') m.

(** Every field but [A], [left_embedding] and [right_embedding] is the
    same in [m'] as in [m]. *)
Definition same_but_sampled (m m' : model) : Prop :=
  m' = set_right_embedding (right_embedding m')
         (set_left_embedding (left_embedding m') (set_A (A m') m)).

(** Every field but [A] is the same in [m'] as in [m]. *)
Definition same_but_A (m m' : model) : Prop :=
  m' = set_A (A m') m.

(** The sum of [f i] over [i < n]. *)
Fixpoint sum_upto (n : nat) (f : nat -> Qc) : Qc :=
  match n with
  | O => Q2Qc 0
  | S k => (sum_upto k f + f k)%Qc
  end.

(** The sum, over all entries, of the squared difference between [x] and
    [y], two arrays of the same shape. *)
Definition squared_difference_sum (x y : ndarray) : Qc :=
  sum_upto (nrows x) (fun i =>
    sum_upto (ncols x) (fun j =>
      ((entry x i j - entry y i j) * (entry x i j - entry y i j))%Qc)).

(** [c] is the matrix product of [a] and [b]: the shapes fit, and entry
    [(i, j)] of [c] is the sum over [k] of [a[i, k] * b[k, j]]. *)
Definition matrix_product (a b c : ndarray) : Prop :=
  ncols a = nrows b /\ nrows c = nrows a /\ ncols c = ncols b /\
  forall i j, (i < nrows a)%nat -> (j < ncols b)%nat ->
    entry c i j =
    sum_upto (ncols a) (fun k => (entry a i k * entry b k j)%Qc).

(** What scipy documents about [orthogonal_procrustes(A, B)]: it raises
    unless [A] and [B] have the same shape, and its first result is a
    square matrix of the width of [A]. *)
Definition procrustes_contract
           (solver : ndarray -> ndarray -> exn + ndarray) : Prop :=
  forall a b r,
    solver a b = inr r ->
    nrows a = nrows b /\ ncols a = ncols b /\
    nrows r = ncols a /\ ncols r = ncols a.

(** [a] is the row-stacking of the centroids [lc] of all slices. *)
Definition row_stacked (lc : list (list (list Qc))) (a : ndarray) : Prop :=
  rows a = concat lc.

Definition is_bit (x : Qc) : Prop := x = Q2Qc 0 \/ x = Q2Qc 1.

(** An [n] by [n] array of zeros and ones. *)
Definition binary_block (n : nat) (b : ndarray) : Prop :=
  nrows b = n /\ ncols b = n /\ Forall (Forall is_bit) (rows b).

(** [prob_dict] has an entry for every (layer, timestep) pair. *)
Definition all_keys_present (m : model) : Prop :=
  forall i j, 0 <= i < layers m -> 0 <= j < timesteps m ->
              exists p, lookup_prob (prob_dict m) i j = inr p.

(** The block sampler returns an [n] by [n] array of zeros and ones for
    the matrix of every pair. *)
Definition sampler_returns_blocks (m : model) (n : nat) : Prop :=
  forall i j p g,
    lookup_prob (prob_dict m) i j = inr p ->
    exists b g1,
      generate_adjacency_matrix (groups m) p g = (inr b, g1) /\
      binary_block n b.

(** [b] is a block the sampler returned for the pair [(i, j)]. *)
Definition sampled_block (m : model) (i j : Z) (b : ndarray) : Prop :=
  exists p g g1,
    lookup_prob (prob_dict m) i j = inr p /\
    generate_adjacency_matrix (groups m) p g = (inr b, g1).

(** CPython iterates a set holding exactly the integers [0 .. n-1] in
    increasing order (each hashes to itself and the table has more than
    [n] slots). *)
Definition set_iterates_in_order : Prop :=
  forall (l : list Z) (n : nat),
    (forall k, In k l <-> 0 <= k < Z.of_nat n) ->
    py_set l = py_range (Z.of_nat n).

(** Index, in the embedding, of the first row of community [k] in slice
    [i]: slice [i] starts at [i * sum(groups)], and inside it community
    [k] comes after the communities declared before it. *)
Definition community_start (len_groups : list Z) (i : Z) (k : nat) : Z :=
  i * py_sum_int len_groups + py_sum_int (firstn k len_groups).

(** The rows of community [k] in slice [i]: the contiguous run of
    [len_groups[k]] rows from [community_start]. *)
Definition community_rows (emb : ndarray) (len_groups : list Z) (i : Z)
           (k : nat) : list (list Qc) :=
  firstn (Z.to_nat (nth k len_groups 0))
         (skipn (Z.to_nat (community_start len_groups i k)) (rows emb)).

(** The mean of each of the first four coordinates of the rows [rs]. *)
Definition mean_vector (rs : list (list Qc)) : list Qc :=
  map (fun c => np_mean (map (fun r => nth c r (Q2Qc 0)) rs)) (seq 0 4).

(** [cs] holds, for each of the [count] slices of [emb] and each
    community in the order of [len_groups], the mean vector of the rows
    of that community. *)
Definition mean_vectors_of (emb : ndarray) (len_groups : list Z) (count : Z)
           (cs : list (list (list Qc))) : Prop :=
  length cs = Z.to_nat count /\
  forall i, (i < Z.to_nat count)%nat ->
    length (nth i cs []) = length len_groups /\
    forall k, (k < length len_groups)%nat ->
      length (nth k (nth i cs []) []) = 4%nat /\
      nth k (nth i cs []) [] =
      mean_vector (community_rows emb len_groups (Z.of_nat i) k).

(** The mean of column [c] of [emb] over the [n] rows that start at row
    [start]: the entries added up, divided by their number. *)
Definition coordinate_mean (emb : ndarray) (start n c : nat) : Qc :=
  (sum_upto n (fun r => entry emb (start + r) c) / Qc_of_Z (Z.of_nat n))%Qc.

(** [cs] holds one list per slice of [emb] and, in it, one 4-vector per
    community in the order of [len_groups]; coordinate [c] of the vector
    of community [k] in slice [i] is the mean of column [c] over the
    [len_groups[k]] rows from [community_start]. *)
Definition centroids_of (emb : ndarray) (len_groups : list Z) (count : Z)
           (cs : list (list (list Qc))) : Prop :=
  length cs = Z.to_nat count /\
  forall i, (i < Z.to_nat count)%nat ->
    length (nth i cs []) = length len_groups /\
    forall k, (k < length len_groups)%nat ->
      length (nth k (nth i cs []) []) = 4%nat /\
      forall c, (c < 4)%nat ->
        nth c (nth k (nth i cs []) []) (Q2Qc 0) =
        coordinate_mean emb
          (Z.to_nat (community_start len_groups (Z.of_nat i) k))
          (Z.to_nat (nth k len_groups 0)) c.

(** [emb] has one row per node of each of the [count] slices and at
    least the four columns the centroids read. *)
Definition embedding_shape (emb : ndarray) (len_groups : list Z) (count : Z)
  : Prop :=
  Z.of_nat (nrows emb) = count * py_sum_int len_groups /\
  (4 <= ncols emb)%nat.

(** *** Pure readings of the loops *)

(** Row [i] of the theoretical supermatrix: the matrices of
    [(i, 0), (i, 1), ...] side by side. *)
Definition theoretical_row (m : model) (i : Z) : exn + ndarray :=
  bind_err (map_err (lookup_prob (prob_dict m) i) (py_range (timesteps m)))
           concatenate1_values.

(** The theoretical supermatrix: the rows of all layers, stacked. *)
Definition theoretical_matrix (m : model) : exn + ndarray :=
  bind_err (map_err (theoretical_row m) (py_range (layers m)))
           np_concatenate0.

(** The centroid of the rows of [current] labelled [label]. *)
Definition community_centroid (current : ndarray) (len_groups : list Z)
           (label : Z) : exn + list Qc :=
  bind_err (mask_select current
              (map (fun l => l =? label) (generate_group_labels len_groups)))
    (fun community =>
       bind_err (column community 0) (fun c0 =>
       bind_err (column community 1) (fun c1 =>
       bind_err (column community 2) (fun c2 =>
       bind_err (column community 3) (fun c3 =>
       inr [np_mean c0; np_mean c1; np_mean c2; np_mean c3]))))).

(** The centroids of slice [idx] of [emb]. *)
Definition slice_centroids (emb : option ndarray) (len_groups : list Z)
           (idx : Z) : exn + list (list Qc) :=
  bind_err (subscript_rows emb (py_sum_int len_groups * idx)
                           (py_sum_int len_groups * (idx + 1)))
    (fun current =>
       map_err (community_centroid current len_groups)
               (py_set (generate_group_labels len_groups))).

(** The centroids of the [count] slices of [emb]. *)
Definition all_centroids (emb : option ndarray) (len_groups : list Z)
           (count : Z) : exn + list (list (list Qc)) :=
  map_err (slice_centroids emb len_groups) (py_range count).

(** The variances of the communities of [current], one per group. *)
Definition variances_of (current : ndarray) (len_groups : list Z)
  : list (option Qc) :=
  snd (fold_left
         (fun (loc : Z * list (option Qc)) size =>
            (fst loc + size,
             snd loc ++ [sum_var_axis0
                           (row_slice current (fst loc) (fst loc + size))]))
         len_groups (0, [])).

(** The bar chart of slice [idx] of [emb]. *)
Definition variance_chart (title : string) (emb : option ndarray)
           (len_groups : list Z) (idx : Z) : exn + event :=
  bind_err (subscript_rows emb (py_sum_int len_groups * idx)
                           (py_sum_int len_groups * (idx + 1)))
    (fun current =>
       inr (Bar_chart (title ++ py_str_int (idx + 1))
                      (py_range (Z.of_nat (length len_groups)))
                      (variances_of current len_groups))).

(** What a loop that plots [f x] for each [x] shows before it stops, and
    the exception that stops it, if any. *)
Fixpoint emitted {X : Type} (f : X -> exn + event) (xs : list X)
  : list event * option exn :=
  match xs with
  | [] => ([], None)
  | x :: xs' =>
    match f x with
    | inl e => ([], Some e)
    | inr ev => (ev :: fst (emitted f xs'), snd (emitted f xs'))
    end
  end.

(** The result a computation ends with when it is stopped by [r]. *)
Definition stopped (r : option exn) : result unit :=
  match r with
  | None => Ok tt
  | Some e => Raise e
  end.

(** The rotation solved from one theoretical embedding and the centroids
    it is aligned to. *)
Definition rotation_of (theo : option ndarray)
           (centroids : option (list (list (list Qc)))) : exn + ndarray :=
  bind_err (concatenate_centroids centroids)
           (call_orthogonal_procrustes theo).

(** The chart of layer (or timestep) [idx] of the embedding [emb]. *)
Definition chart_of (title : string) (emb : ndarray) (len_groups : list Z)
           (idx : Z) : event :=
  Bar_chart (title ++ py_str_int (idx + 1))
            (py_range (Z.of_nat (length len_groups)))
            (variances_of (row_slice emb (py_sum_int len_groups * idx)
                                     (py_sum_int len_groups * (idx + 1)))
                          len_groups).

(** What [calculate_variance] plots for populated embeddings [l] and
    [r]: the charts of the layers, then those of the timesteps. *)
Definition variance_charts (m : model) (l r : ndarray) : list event :=
  map (chart_of "Community Variances Layer " l (groups m))
      (py_range (layers m)) ++
  map (chart_of "Community Variances Time " r (groups m))
      (py_range (timesteps m)).

(** The value [calculate_error] stores: the squared errors of the two
    sides, added. *)
Definition total_error (m : model) : exn + Qc :=
  bind_err (concatenate_centroids (left_centroids m)) (fun left_stacked =>
  bind_err (concatenate_centroids (right_centroids m)) (fun right_stacked =>
  bind_err (squared_error (left_embedding_theo m) left_stacked) (fun le =>
  bind_err (squared_error (right_embedding_theo m) right_stacked) (fun re =>
  inr (le + re)%Qc)))).

(** Every field but the rotations, the theoretical embeddings and
    [error] is the same in [m'] as in [m]. *)
Definition same_but_aligned (m m' : model) : Prop :=
  m' = set_error (error m')
         (set_right_embedding_theo (right_embedding_theo m')
            (set_left_embedding_theo (left_embedding_theo m')
               (set_rotation_right (rotation_right m')
                  (set_rotation_left (rotation_left m') m)))).

(** Every field but the two rotations is the same in [m'] as in [m]. *)
Definition same_but_rotations (m m' : model) : Prop :=
  m' = set_rotation_right (rotation_right m')
         (set_rotation_left (rotation_left m') m).

(** No key of [prob_dict] equals [(i, j)]. *)
Definition key_missing (m : model) (i j : Z) : Prop :=
  forall kv, In kv (prob_dict m) -> key_matches i j (fst kv) = false.

(** The matrix stored for every (layer, timestep) pair is a [g] by [g]
    array of numbers. *)
Definition square_matrices (m : model) (g : nat) : Prop :=
  forall i j, 0 <= i < layers m -> 0 <= j < timesteps m ->
    exists v b, lookup_prob (prob_dict m) i j = inr v /\
                asarray_matrix v = inr b /\ nrows b = g /\ ncols b = g.

(** *** What each test of the constructor asks of its argument *)

(** An [int] instance (or a [bool]) that is positive. *)
Definition positive_int (v : pyval) : Prop :=
  isinstance_int v = true /\ 0 < int_value v.

(** A non-empty list whose elements are all [int] instances. *)
Definition list_of_ints (v : pyval) : Prop :=
  exists g, v = PyList g /\ g <> [] /\
            Forall (fun x => isinstance_int x = true) g.

(** A dict whose keys are 2-tuples and whose values are lists. *)
Definition dict_of_lists (v : pyval) : Prop :=
  exists items, v = PyDict items /\
                Forall (fun kv => exists a b l,
                            kv = (PyTuple [a; b], PyList l)) items.

(** No field that a method computes has been set. *)
Definition nothing_computed (m : model) : Prop :=
  A m = None /\ left_embedding m = None /\ right_embedding m = None /\
  left_centroids m = None /\ right_centroids m = None /\
  left_embedding_theo m = None /\ right_embedding_theo m = None /\
  rotation_left m = None /\ rotation_right m = None /\ error m = Q2Qc 0.

(** [c] prints and plots nothing, whether it returns or raises. *)
Definition keeps_output {X : Type} (c : M state X) : Prop :=
  forall s : state, output (snd (snd (c s))) = output (snd s).

(** ** Properties of the monad *)

(** [c] relates the instance before and after it by [R], whether it
    returns or raises. *)
Definition preserves {X : Type} (R : model -> model -> Prop)
           (c : M state X) : Prop :=
  forall s : state, R (fst s) (fst (snd (c s))).

Section Frame.

Variable R : model -> model -> Prop.
Hypothesis R_refl : forall m, R m m.
Hypothesis R_trans : forall m1 m2 m3, R m1 m2 -> R m2 m3 -> R m1 m3.

Lemma preserves_ret (X : Type) (x : X) : preserves R (ret x).
Proof. intros s. apply R_refl. Qed.

Lemma preserves_lift (X : Type) (r : exn + X) : preserves R (lift r).
Proof. intros s. unfold lift. destruct r; apply R_refl. Qed.

Lemma preserves_self : preserves R self.
Proof. intros s. apply R_refl. Qed.

Lemma preserves_emit (e : event) : preserves R (emit e).
Proof. intros s. apply R_refl. Qed.

Lemma preserves_sampler (g : list Z) (p : pyval) :
  preserves R (call_generate_adjacency_matrix g p).
Proof.
  intros s. unfold call_generate_adjacency_matrix.
  destruct (generate_adjacency_matrix g p (rng (snd s))) as [[e | a] r];
    apply R_refl.
Qed.

Lemma preserves_update (f : model -> model) :
  (forall m, R m (f m)) -> preserves R (update f).
Proof. intros Hf s. apply Hf. Qed.

Lemma preserves_bind (X Y : Type) (c : M state X) (k : X -> M state Y) :
  preserves R c -> (forall x, preserves R (k x)) -> preserves R (bind c k).
Proof.
  intros Hc Hk s. unfold bind.
  specialize (Hc s). destruct (c s) as [[x | e] s1]; simpl in *.
  - eapply R_trans; [exact Hc | apply Hk].
  - exact Hc.
Qed.

Lemma preserves_for_each (X Acc : Type) (xs : list X)
      (body : X -> Acc -> M state Acc) :
  (forall x acc, preserves R (body x acc)) ->
  forall acc, preserves R (for_each xs body acc).
Proof.
  intros Hbody. induction xs as [| x xs IH]; intros acc; simpl.
  - apply preserves_ret.
  - apply preserves_bind; [apply Hbody | intros acc'; apply IH].
Qed.

End Frame.

Lemma bind_ok (S X Y : Type) (c : M S X) (k : X -> M S Y) (s s' : S) (x : X) :
  c s = (Ok x, s') -> bind c k s = k x s'.
Proof. intros H. unfold bind. rewrite H. reflexivity. Qed.


(** ** The constructor *)

Lemma prob_item_ok_shape (kv : pyval * pyval) :
  prob_item_ok kv = true <->
  exists a b v, kv = (PyTuple [a; b], PyList v).
Proof.
  destruct kv as [k v]. unfold prob_item_ok. simpl. split.
  - intros H. apply andb_prop in H. destruct H as [H Hv].
    apply andb_prop in H. destruct H as [Hk Hlen].
    destruct k; try discriminate. destruct v; try discriminate.
    destruct l as [| a [| b [| c l]]]; try discriminate.
    exists a, b, l0. reflexivity.
  - intros (a & b & v' & E). inversion E. reflexivity.
Qed.

Ltac raised_with_message :=
  split; [reflexivity | unfold In; auto 6].

(** C7: every invalid construction input (layers or timesteps that is not
    an int or is not positive, the empty groups list, a prob_dict with a
    key that is not a tuple) makes the constructor raise ValueError with
    one of its messages; no instance is returned. *)
Theorem init_rejects_invalid (layers0 timesteps0 groups0 prob_dict0 : pyval) :
  invalid_construction layers0 timesteps0 groups0 prob_dict0 ->
  validation_error (init layers0 timesteps0 groups0 prob_dict0).
Proof.
  intros H. unfold validation_error, init.
  destruct (negb (isinstance_int layers0) || (int_value layers0 <=? 0)) eqn:El.
  { exists msg_layers. raised_with_message. }
  destruct (negb (isinstance_int timesteps0) || (int_value timesteps0 <=? 0))
    eqn:Et.
  { exists msg_timesteps. raised_with_message. }
  apply orb_false_elim in El. destruct El as [El1 El2].
  apply orb_false_elim in Et. destruct Et as [Et1 Et2].
  apply negb_false_iff in El1. apply negb_false_iff in Et1.
  apply Z.leb_gt in El2. apply Z.leb_gt in Et2.
  destruct H as [H | [H | [H | [H | [H | H]]]]];
    try congruence; try lia.
  - subst groups0. simpl. exists msg_groups. raised_with_message.
  - destruct H as (items & key & value & Ep & Hin & Hkey). subst prob_dict0.
    destruct groups0; try (exists msg_groups; raised_with_message).
    destruct (Nat.eqb (length l) 0 || negb (forallb isinstance_int l)).
    { exists msg_groups. raised_with_message. }
    assert (Hall : forallb prob_item_ok items = false).
    { destruct (forallb prob_item_ok items) eqn:E; [| reflexivity].
      rewrite forallb_forall in E. specialize (E _ Hin).
      unfold prob_item_ok in E. simpl in E. rewrite Hkey in E. discriminate. }
    rewrite Hall. simpl. exists msg_prob_dict. raised_with_message.
Qed.

(** C2 (as amended): the constructor returns an instance exactly when
    layers and timesteps are positive ints, groups is a non-empty list of
    ints and prob_dict is a dict whose keys are 2-tuples and whose values
    are lists; otherwise it raises.  The sign of the group sizes and the
    content of the matrices play no part. *)
Theorem init_accepts_iff (layers0 timesteps0 groups0 prob_dict0 : pyval) :
  (exists m, init layers0 timesteps0 groups0 prob_dict0 = inr m) <->
  accepted_construction layers0 timesteps0 groups0 prob_dict0.
Proof.
  unfold accepted_construction, init. split.
  - intros [m H].
    destruct (negb (isinstance_int layers0) || (int_value layers0 <=? 0))
      eqn:El; [discriminate |].
    destruct (negb (isinstance_int timesteps0) || (int_value timesteps0 <=? 0))
      eqn:Et; [discriminate |].
    apply orb_false_elim in El. destruct El as [El1 El2].
    apply orb_false_elim in Et. destruct Et as [Et1 Et2].
    apply negb_false_iff in El1. apply negb_false_iff in Et1.
    apply Z.leb_gt in El2. apply Z.leb_gt in Et2.
    destruct groups0 as [| | | | | g | |]; try discriminate.
    destruct (Nat.eqb (length g) 0 || negb (forallb isinstance_int g)) eqn:Eg;
      [discriminate |].
    apply orb_false_elim in Eg. destruct Eg as [Eg1 Eg2].
    apply negb_false_iff in Eg2.
    destruct prob_dict0 as [| | | | | | | items]; try discriminate.
    destruct (negb (forallb prob_item_ok items)) eqn:Ep; [discriminate |].
    apply negb_false_iff in Ep.
    repeat split; try assumption.
    + exists g. repeat split.
      * intros ->. discriminate.
      * apply Forall_forall. rewrite forallb_forall in Eg2. exact Eg2.
    + exists items. split; [reflexivity |].
      apply Forall_forall. intros kv Hin. rewrite forallb_forall in Ep.
      apply prob_item_ok_shape. auto.
  - intros (Hl1 & Hl2 & Ht1 & Ht2 & (g & Eg & Hne & Hg) & (items & Ep & Hi)).
    subst groups0 prob_dict0. rewrite Hl1, Ht1. simpl.
    destruct (Z.leb_spec (int_value layers0) 0); [lia |].
    destruct (Z.leb_spec (int_value timesteps0) 0); [lia |].
    assert (E1 : Nat.eqb (length g) 0 = false).
    { destruct g; [congruence | reflexivity]. }
    assert (E2 : forallb isinstance_int g = true).
    { apply forallb_forall. rewrite Forall_forall in Hg. exact Hg. }
    assert (E3 : forallb prob_item_ok items = true).
    { apply forallb_forall. rewrite Forall_forall in Hi. intros kv Hin.
      apply prob_item_ok_shape. auto. }
    rewrite E1, E2, E3. simpl. eexists. reflexivity.
Qed.

(** ** Frame properties *)

Lemma same_but_error_refl (m : model) : same_but_error m m.
Proof. destruct m. reflexivity. Qed.

Lemma same_but_error_trans (m1 m2 m3 : model) :
  same_but_error m1 m2 -> same_but_error m2 m3 -> same_but_error m1 m3.
Proof.
  unfold same_but_error. intros H12 H23. rewrite H23 at 1. rewrite H12.
  reflexivity.
Qed.

Lemma same_but_sampled_refl (m : model) : same_but_sampled m m.
Proof. destruct m. reflexivity. Qed.

Lemma same_but_sampled_trans (m1 m2 m3 : model) :
  same_but_sampled m1 m2 -> same_but_sampled m2 m3 -> same_but_sampled m1 m3.
Proof.
  unfold same_but_sampled. intros H12 H23. rewrite H23 at 1. rewrite H12.
  reflexivity.
Qed.

Ltac frame_step refl trans :=
  first
    [ eapply preserves_bind; [exact trans | | intros ]
    | eapply preserves_for_each; [exact refl | exact trans | intros ]
    | eapply preserves_self; exact refl
    | eapply preserves_lift; exact refl
    | eapply preserves_ret; exact refl
    | eapply preserves_emit; exact refl
    | eapply preserves_sampler; exact refl ].

Lemma calculate_variance_keeps_model :
  preserves eq calculate_variance.
Proof.
  assert (Hloop : forall cur g loc,
             preserves eq (for_each g (fun size (loc : Z * list (option Qc)) =>
               let (start, variances) := loc in
               ret (start + size,
                    variances ++ [sum_var_axis0
                                    (row_slice cur start (start + size))]))
               loc)).
  { intros cur g loc.
    eapply preserves_for_each;
      [exact (@eq_refl model) | exact (@eq_trans model) |].
    intros size [start variances]. apply preserves_ret. reflexivity. }
  unfold calculate_variance, community_variances.
  repeat first [ apply Hloop
               | frame_step (@eq_refl model) (@eq_trans model) ].
Qed.

Lemma calculate_error_keeps_but_error :
  preserves same_but_error calculate_error.
Proof.
  assert (Hv : preserves same_but_error calculate_variance).
  { intros s. rewrite <- calculate_variance_keeps_model.
    apply same_but_error_refl. }
  unfold calculate_error.
  repeat first
    [ exact Hv
    | apply preserves_update; intros m0; reflexivity
    | frame_step same_but_error_refl same_but_error_trans ].
Qed.

(** C10: whether it returns or raises, [calculate_error] changes no
    stored field of the instance other than [error]; the variance
    computation it invokes changes no field at all. *)
Theorem calculate_error_frame (s : state) :
  same_but_error (fst s) (fst (snd (calculate_error s))) /\
  fst (snd (calculate_variance s)) = fst s.
Proof.
  split.
  - apply calculate_error_keeps_but_error.
  - symmetry. apply calculate_variance_keeps_model.
Qed.

Lemma sample_keeps_but_sampled :
  preserves same_but_sampled sample.
Proof.
  unfold sample.
  repeat first
    [ frame_step same_but_sampled_refl same_but_sampled_trans
    | apply preserves_update; intros m0; reflexivity ].
Qed.

(** C4 (as amended): whether it returns or raises, [sample] changes no
    stored field of the instance other than [A], [left_embedding] and
    [right_embedding]. *)
Theorem sample_frame (s : state) :
  same_but_sampled (fst s) (fst (snd (sample s))).
Proof. apply sample_keeps_but_sampled. Qed.

(** ** [get_rotation] *)

Lemma get_rotation_returns (s s1 : state) :
  get_rotation s = (Ok tt, s1) ->
  exists ls rs rl rr,
    concatenate_centroids (left_centroids (fst s)) = inr ls /\
    call_orthogonal_procrustes (left_embedding_theo (fst s)) ls = inr rl /\
    concatenate_centroids (right_centroids (fst s)) = inr rs /\
    call_orthogonal_procrustes (right_embedding_theo (fst s)) rs = inr rr /\
    s1 = (set_rotation_right (Some rr) (set_rotation_left (Some rl) (fst s)),
          snd s).
Proof.
  unfold get_rotation, bind, self, lift, update, modify. simpl.
  destruct (concatenate_centroids (left_centroids (fst s))) as [e | ls] eqn:E1;
    [discriminate |].
  destruct (call_orthogonal_procrustes (left_embedding_theo (fst s)) ls)
    as [e | rl] eqn:E2; [discriminate |].
  simpl.
  destruct (concatenate_centroids (right_centroids (fst s))) as [e | rs] eqn:E3;
    [discriminate |].
  destruct (call_orthogonal_procrustes (right_embedding_theo (fst s)) rs)
    as [e | rr] eqn:E4; [discriminate |].
  intros H. inversion H. exists ls, rs, rl, rr. repeat split; assumption.
Qed.

Lemma get_rotation_run (s : state) (ls rs : stacked) (rl rr : ndarray) :
  concatenate_centroids (left_centroids (fst s)) = inr ls ->
  call_orthogonal_procrustes (left_embedding_theo (fst s)) ls = inr rl ->
  concatenate_centroids (right_centroids (fst s)) = inr rs ->
  call_orthogonal_procrustes (right_embedding_theo (fst s)) rs = inr rr ->
  get_rotation s =
  (Ok tt, (set_rotation_right (Some rr) (set_rotation_left (Some rl) (fst s)),
           snd s)).
Proof.
  intros H1 H2 H3 H4.
  unfold get_rotation, bind, self, lift, update, modify. simpl.
  rewrite H1, H2. simpl. rewrite H3, H4. reflexivity.
Qed.

(** C8: on an instance whose centroids are still [None], [get_rotation]
    raises (a [TypeError], at the first use of [left_centroids]) and
    stores no rotation: the state is the one it started from. *)
Theorem get_rotation_before_centroids (s : state) :
  left_centroids (fst s) = None ->
  right_centroids (fst s) = None ->
  get_rotation s = (Raise TypeError, s).
Proof.
  intros Hl Hr.
  unfold get_rotation, bind, self, lift. simpl. rewrite Hl. reflexivity.
Qed.

(** C9: after a call of [get_rotation] that returned, the centroids and
    the theoretical embeddings are what they were, and a second call
    returns as well and stores the same [rotation_left] and
    [rotation_right]. *)
Theorem get_rotation_twice (s s1 : state) :
  get_rotation s = (Ok tt, s1) ->
  left_centroids (fst s1) = left_centroids (fst s) /\
  right_centroids (fst s1) = right_centroids (fst s) /\
  left_embedding_theo (fst s1) = left_embedding_theo (fst s) /\
  right_embedding_theo (fst s1) = right_embedding_theo (fst s) /\
  exists s2,
    get_rotation s1 = (Ok tt, s2) /\
    rotation_left (fst s2) = rotation_left (fst s1) /\
    rotation_right (fst s2) = rotation_right (fst s1).
Proof.
  intros H. apply get_rotation_returns in H.
  destruct H as (ls & rs & rl & rr & H1 & H2 & H3 & H4 & ->).
  simpl. repeat split.
  eexists. split.
  - apply get_rotation_run with (ls := ls) (rs := rs); simpl; eassumption.
  - simpl. split; reflexivity.
Qed.

(** ** Arrays *)

Lemma mk_nd_ncols (c : nat) (rs : list (list Qc)) : ncols (mk_nd c rs) = c.
Proof.
  unfold mk_nd. generalize (eq_refl (rectb c rs)).
  generalize (rectb c rs) at 2 3. intros [] e; reflexivity.
Qed.

Lemma mk_nd_rows (c : nat) (rs : list (list Qc)) :
  rectb c rs = true -> rows (mk_nd c rs) = rs.
Proof.
  unfold mk_nd. generalize (eq_refl (rectb c rs)).
  generalize (rectb c rs) at 2 3 4. intros [] e H;
    [reflexivity | discriminate].
Qed.

Lemma rectb_Forall (c : nat) (rs : list (list Qc)) :
  rectb c rs = true <-> Forall (fun r => length r = c) rs.
Proof.
  unfold rectb. rewrite forallb_forall, Forall_forall.
  split; intros H r Hr; apply Nat.eqb_eq; auto.
Qed.

Lemma nd_rect (a : ndarray) : Forall (fun r => length r = ncols a) (rows a).
Proof. apply rectb_Forall. apply nd_wf. Qed.

Lemma nd_ext (a b : ndarray) : ncols a = ncols b -> rows a = rows b -> a = b.
Proof.
  destruct a as [ca ra wa], b as [cb rb wb]. simpl. intros -> ->.
  f_equal. apply UIP_dec. apply bool_dec.
Qed.

Lemma mk_nd_eta (a : ndarray) : mk_nd (ncols a) (rows a) = a.
Proof.
  apply nd_ext; [apply mk_nd_ncols | apply mk_nd_rows, nd_wf].
Qed.

Lemma nth_row_length (a : ndarray) (i : nat) :
  (i < nrows a)%nat -> length (nth i (rows a) []) = ncols a.
Proof.
  intros Hi. pose proof (nd_rect a) as H. rewrite Forall_forall in H.
  apply H. apply nth_In. exact Hi.
Qed.

(** ** Sums *)

Local Open Scope Qc_scope.

Lemma fold_left_Qcplus (l : list Qc) (a : Qc) :
  fold_left Qcplus l a = a + py_sum l.
Proof.
  unfold py_sum. revert a. induction l as [| x l IH]; intros a; simpl.
  - ring.
  - rewrite IH. rewrite (IH (0 + x)). ring.
Qed.

Lemma py_sum_cons (x : Qc) (l : list Qc) : py_sum (x :: l) = x + py_sum l.
Proof.
  unfold py_sum at 1. simpl. rewrite fold_left_Qcplus. ring.
Qed.

Lemma py_sum_snoc (l : list Qc) (x : Qc) : py_sum (l ++ [x]) = py_sum l + x.
Proof.
  unfold py_sum at 1. rewrite fold_left_app. simpl. reflexivity.
Qed.

Lemma py_sum_repeat_0 (n : nat) : py_sum (repeat 0 n) = 0.
Proof.
  induction n as [| n IH]; [reflexivity |].
  simpl. rewrite py_sum_cons, IH. ring.
Qed.

Lemma vec_add_length (u v : list Qc) :
  length (vec_add u v) = Nat.min (length u) (length v).
Proof. unfold vec_add. rewrite length_map, length_combine. reflexivity. Qed.

Lemma py_sum_vec_add (u v : list Qc) :
  length u = length v -> py_sum (vec_add u v) = py_sum u + py_sum v.
Proof.
  revert v. induction u as [| x u IH]; intros [| y v] H; try discriminate.
  - reflexivity.
  - unfold vec_add in *. simpl. rewrite !py_sum_cons. rewrite IH.
    + ring.
    + simpl in H. congruence.
Qed.

(** Adding the rows first and the entries of the result next gives the
    sum of the sums of the rows. *)
Lemma py_sum_fold_vec_add (c : nat) (rs : list (list Qc)) (acc : list Qc) :
  Forall (fun r => length r = c) rs -> length acc = c ->
  py_sum (fold_left vec_add rs acc) = py_sum acc + py_sum (map py_sum rs).
Proof.
  intros Hrs. revert acc. induction Hrs as [| r rs Hr Hrs IH]; intros acc Hacc.
  - simpl. change (py_sum []) with 0. ring.
  - simpl. rewrite IH.
    + rewrite py_sum_vec_add by congruence. rewrite py_sum_cons. ring.
    + rewrite vec_add_length, Hacc, Hr. apply Nat.min_id.
Qed.

Lemma sum_upto_ext (n : nat) (f g : nat -> Qc) :
  (forall i, (i < n)%nat -> f i = g i) -> sum_upto n f = sum_upto n g.
Proof.
  induction n as [| n IH]; intros H; simpl; [reflexivity |].
  rewrite IH by (intros i Hi; apply H; lia). rewrite H by lia. reflexivity.
Qed.

Lemma py_sum_nth (l : list Qc) :
  py_sum l = sum_upto (length l) (fun j => nth j l 0).
Proof.
  induction l as [| x l IH] using rev_ind; [reflexivity |].
  rewrite py_sum_snoc, length_app, Nat.add_1_r. simpl.
  rewrite app_nth2, Nat.sub_diag by lia. simpl. f_equal.
  rewrite IH. apply sum_upto_ext. intros i Hi. rewrite app_nth1 by lia.
  reflexivity.
Qed.

Lemma py_sum_map_nth (X : Type) (f : X -> Qc) (l : list X) (d : X) :
  py_sum (map f l) = sum_upto (length l) (fun i => f (nth i l d)).
Proof.
  rewrite py_sum_nth, length_map. apply sum_upto_ext. intros i Hi.
  rewrite (nth_indep _ 0 (f d)) by (rewrite length_map; exact Hi).
  apply map_nth.
Qed.

(** The builtin [sum(sum(x))] is the sum of all entries of [x]. *)
Lemma py_sum_sum_entries (x : ndarray) (v : Qc) :
  py_sum_sum x = inr v ->
  v = sum_upto (nrows x) (fun i => sum_upto (ncols x) (fun j => entry x i j)).
Proof.
  assert (G : py_sum (fold_left vec_add (rows x) (repeat 0 (ncols x))) =
              sum_upto (nrows x)
                (fun i => sum_upto (ncols x) (fun j => entry x i j))).
  { rewrite (py_sum_fold_vec_add (c := ncols x)).
    - rewrite py_sum_repeat_0, (py_sum_map_nth _ _ []).
      rewrite Qcplus_0_l. apply sum_upto_ext. intros i Hi.
      rewrite py_sum_nth, nth_row_length by exact Hi. reflexivity.
    - apply nd_rect.
    - apply repeat_length. }
  unfold py_sum_sum. destruct (rows x) as [| r rs] eqn:E; [discriminate |].
  intros H. injection H as <-. exact G.
Qed.

Lemma Qc_square_nonneg (x : Qc) : 0 <= x * x.
Proof.
  destruct (Qclt_le_dec x 0) as [Hneg | Hpos].
  - replace (x * x) with ((- x) * (- x)) by ring.
    assert (H : 0 <= - x).
    { apply Qclt_le_weak in Hneg. apply Qcopp_le_compat in Hneg.
      replace (- 0) with 0 in Hneg by ring. exact Hneg. }
    replace 0 with (0 * - x) at 1 by ring.
    apply Qcmult_le_compat_r; assumption.
  - replace 0 with (0 * x) at 1 by ring.
    apply Qcmult_le_compat_r; assumption.
Qed.

Lemma sum_upto_nonneg (n : nat) (f : nat -> Qc) :
  (forall i, (i < n)%nat -> 0 <= f i) -> 0 <= sum_upto n f.
Proof.
  induction n as [| n IH]; intros H; simpl.
  - apply Qcle_refl.
  - replace 0 with (0 + 0) by ring.
    apply Qcplus_le_compat; [apply IH; intros; apply H; lia | apply H; lia].
Qed.

Lemma squared_difference_sum_nonneg (x y : ndarray) :
  0 <= squared_difference_sum x y.
Proof.
  unfold squared_difference_sum.
  apply sum_upto_nonneg. intros i _. apply sum_upto_nonneg. intros j _.
  apply Qc_square_nonneg.
Qed.

Local Close Scope Qc_scope.

(** ** Array operations *)

Lemma nth_map_lt (X Y : Type) (f : X -> Y) (l : list X) (i : nat) (d : X)
      (d' : Y) :
  (i < length l)%nat -> nth i (map f l) d' = f (nth i l d).
Proof.
  intros Hi. rewrite (nth_indep _ d' (f d)) by (rewrite length_map; exact Hi).
  apply map_nth.
Qed.

Lemma stretch_id (X : Type) (n : nat) (l : list X) :
  length l = n -> stretch n l = l.
Proof.
  destruct l as [| x [| y l]]; intros H; simpl; try reflexivity.
  simpl in H. subst n. reflexivity.
Qed.

Lemma columns_length (a : ndarray) : length (columns a) = ncols a.
Proof. unfold columns. rewrite length_map, length_seq. reflexivity. Qed.

Lemma matmul_shape (a b r : ndarray) :
  matmul a b = inr r ->
  ncols a = nrows b /\ nrows r = nrows a /\ ncols r = ncols b.
Proof.
  unfold matmul. destruct (Nat.eqb_spec (ncols a) (nrows b)) as [E | E];
    [| discriminate].
  intros H. injection H as <-. split; [exact E |]. split.
  - unfold nrows. rewrite mk_nd_rows; [apply length_map |].
    apply rectb_Forall, Forall_forall. intros row Hrow.
    apply in_map_iff in Hrow. destruct Hrow as (r0 & <- & _).
    rewrite length_map. apply columns_length.
  - apply mk_nd_ncols.
Qed.

Lemma matmul_defined (a b : ndarray) :
  ncols a = nrows b -> exists r, matmul a b = inr r.
Proof.
  intros E. unfold matmul. rewrite (proj2 (Nat.eqb_eq _ _) E).
  eexists. reflexivity.
Qed.

Lemma dot_nth (u v : list Qc) :
  length u = length v ->
  dot u v =
  sum_upto (length u) (fun k => (nth k u (Q2Qc 0) * nth k v (Q2Qc 0))%Qc).
Proof.
  intros H. unfold dot.
  rewrite (py_sum_map_nth _ _ (Q2Qc 0, Q2Qc 0)).
  rewrite length_combine, <- H, Nat.min_id. apply sum_upto_ext. intros k Hk.
  rewrite combine_nth by exact H. reflexivity.
Qed.

(** [a @ b] is the matrix product, entry by entry. *)
Lemma matmul_product (a b r : ndarray) :
  matmul a b = inr r -> matrix_product a b r.
Proof.
  intros H. destruct (matmul_shape _ _ H) as (E & Hr & Hc).
  split; [exact E |]. split; [exact Hr |]. split; [exact Hc |].
  intros i j Hi Hj. unfold matmul in H.
  rewrite (proj2 (Nat.eqb_eq _ _) E) in H. injection H as <-.
  unfold entry. rewrite mk_nd_rows.
  - rewrite nth_map_lt with (d := []) by exact Hi.
    rewrite nth_map_lt with (d := []) by (rewrite columns_length; exact Hj).
    unfold columns.
    rewrite nth_map_lt with (d := 0%nat) by (rewrite length_seq; exact Hj).
    rewrite seq_nth by exact Hj. rewrite Nat.add_0_l.
    rewrite dot_nth.
    + rewrite nth_row_length by exact Hi. apply sum_upto_ext. intros k Hk.
      f_equal. rewrite nth_map_lt with (d := [])
        by (unfold nrows in E; lia). reflexivity.
    + rewrite nth_row_length by exact Hi. rewrite length_map. exact E.
  - apply rectb_Forall, Forall_forall. intros row Hrow.
    apply in_map_iff in Hrow. destruct Hrow as (r0 & <- & _).
    rewrite length_map. apply columns_length.
Qed.

Lemma vec_sub_length (u v : list Qc) :
  length (vec_sub u v) = Nat.min (length u) (length v).
Proof. unfold vec_sub. rewrite length_map, length_combine. reflexivity. Qed.

Lemma bcast_dim_same (n : nat) : bcast_dim n n = Some n.
Proof. unfold bcast_dim. rewrite Nat.eqb_refl. reflexivity. Qed.

(** Subtraction of arrays of the same shape is entrywise. *)
Lemma np_sub_same_shape (a b : ndarray) :
  nrows a = nrows b -> ncols a = ncols b ->
  exists d,
    np_sub a b = inr d /\ nrows d = nrows a /\ ncols d = ncols a /\
    forall i j, (i < nrows a)%nat -> (j < ncols a)%nat ->
                entry d i j = (entry a i j - entry b i j)%Qc.
Proof.
  intros Hr Hc. unfold np_sub. rewrite <- Hr, <- Hc, !bcast_dim_same.
  set (rs := map (fun p => vec_sub (stretch (ncols a) (fst p))
                                   (stretch (ncols a) (snd p)))
                 (combine (stretch (nrows a) (rows a))
                          (stretch (nrows a) (rows b)))).
  assert (Ers : rs = map (fun p => vec_sub (fst p) (snd p))
                         (combine (rows a) (rows b))).
  { unfold rs. rewrite !stretch_id by (unfold nrows in *; congruence).
    apply map_ext_in. intros [u v] Hin.
    pose proof (in_combine_l _ _ _ _ Hin) as Hu.
    pose proof (in_combine_r _ _ _ _ Hin) as Hv.
    pose proof (nd_rect a) as Ha. pose proof (nd_rect b) as Hb.
    rewrite Forall_forall in Ha, Hb. simpl.
    rewrite !stretch_id; [reflexivity | |].
    - rewrite Hc. apply Hb. exact Hv.
    - apply Ha. exact Hu. }
  assert (Hrect : rectb (ncols a) rs = true).
  { apply rectb_Forall, Forall_forall. rewrite Ers. intros row Hrow.
    apply in_map_iff in Hrow. destruct Hrow as ([u v] & <- & Hin).
    pose proof (in_combine_l _ _ _ _ Hin) as Hu.
    pose proof (in_combine_r _ _ _ _ Hin) as Hv.
    pose proof (nd_rect a) as Ha. pose proof (nd_rect b) as Hb.
    rewrite Forall_forall in Ha, Hb. simpl.
    rewrite vec_sub_length, (Ha _ Hu), (Hb _ Hv), <- Hc. apply Nat.min_id. }
  exists (mk_nd (ncols a) rs). split; [reflexivity |].
  assert (Hlen : length rs = nrows a).
  { rewrite Ers, length_map, length_combine. unfold nrows in *.
    rewrite <- Hr. apply Nat.min_id. }
  split; [unfold nrows at 1; rewrite mk_nd_rows; assumption |].
  split; [apply mk_nd_ncols |].
  intros i j Hi Hj. unfold entry. rewrite mk_nd_rows by exact Hrect.
  rewrite Ers.
  rewrite (nth_map_lt _ _ ([], []))
    by (rewrite length_combine; unfold nrows in *; rewrite <- Hr; lia).
  rewrite combine_nth by (unfold nrows in *; congruence). simpl.
  unfold vec_sub.
  rewrite (nth_map_lt _ _ (Q2Qc 0, Q2Qc 0)).
  - rewrite combine_nth; [reflexivity |].
    rewrite !nth_row_length; [exact Hc | rewrite <- Hr; exact Hi | exact Hi].
  - rewrite length_combine, !nth_row_length;
      [rewrite <- Hc; lia | rewrite <- Hr; exact Hi | exact Hi].
Qed.

Lemma np_square_shape (a : ndarray) :
  nrows (np_square a) = nrows a /\ ncols (np_square a) = ncols a /\
  forall i j, (i < nrows a)%nat -> (j < ncols a)%nat ->
              entry (np_square a) i j = (entry a i j * entry a i j)%Qc.
Proof.
  assert (Hrect : rectb (ncols a)
                        (map (map (fun x => (x * x)%Qc)) (rows a)) = true).
  { apply rectb_Forall, Forall_forall. intros row Hrow.
    apply in_map_iff in Hrow. destruct Hrow as (r0 & <- & Hin).
    rewrite length_map. pose proof (nd_rect a) as Ha.
    rewrite Forall_forall in Ha. auto. }
  unfold np_square, nrows, entry. rewrite mk_nd_rows by exact Hrect.
  split; [apply length_map |]. split; [apply mk_nd_ncols |].
  intros i j Hi Hj.
  rewrite (nth_map_lt _ _ []) by exact Hi.
  rewrite (nth_map_lt (fun x => (x * x)%Qc) _ (Q2Qc 0)); [reflexivity |].
  fold (nrows a) in Hi. rewrite nth_row_length by exact Hi. exact Hj.
Qed.

(** On arrays of the same shape, [sum(sum((a - b)**2))] is the sum over
    all entries of the squared differences. *)
Lemma squared_error_same_shape (a b : ndarray) (v : Qc) :
  nrows a = nrows b -> ncols a = ncols b ->
  squared_error (Some a) (Stacked2 b) = inr v ->
  v = squared_difference_sum a b.
Proof.
  intros Hr Hc. unfold squared_error, np_sub_stacked.
  destruct (np_sub_same_shape a b Hr Hc) as (d & -> & Hdr & Hdc & Hd).
  intros H. apply py_sum_sum_entries in H. subst v.
  destruct (np_square_shape d) as (Hsr & Hsc & Hs).
  rewrite Hsr, Hsc, Hdr, Hdc. unfold squared_difference_sum.
  apply sum_upto_ext. intros i Hi. apply sum_upto_ext. intros j Hj.
  rewrite Hs, Hd by congruence. reflexivity.
Qed.

Lemma squared_error_defined (a b : ndarray) :
  nrows a = nrows b -> ncols a = ncols b -> (0 < nrows a)%nat ->
  exists v, squared_error (Some a) (Stacked2 b) = inr v.
Proof.
  intros Hr Hc Hpos. unfold squared_error, np_sub_stacked.
  destruct (np_sub_same_shape a b Hr Hc) as (d & -> & Hdr & Hdc & Hd).
  destruct (np_square_shape d) as (Hsr & _).
  unfold py_sum_sum. unfold nrows in Hsr, Hdr, Hpos.
  destruct (rows (np_square d)) as [| r rs].
  - simpl in Hsr. lia.
  - eexists. reflexivity.
Qed.

(** ** Stacked centroids *)

Lemma asarray_all_rows (blocks : list (list (list Qc)))
      (arrs : list (option ndarray)) (arrs2 : list ndarray) :
  asarray_all blocks = inr arrs -> all_some arrs = Some arrs2 ->
  map rows arrs2 = blocks.
Proof.
  revert arrs arrs2. induction blocks as [| b bs IH]; intros arrs arrs2; simpl.
  - intros H. injection H as <-. simpl. intros H. injection H as <-.
    reflexivity.
  - destruct (asarray_rows b) as [e | o] eqn:Eb; [discriminate |].
    destruct (asarray_all bs) as [e | l] eqn:Ebs; [discriminate |].
    intros H. injection H as <-. simpl.
    destruct o as [a |]; [| discriminate].
    destruct (all_some l) as [r |] eqn:El; [| discriminate].
    intros H. injection H as <-. simpl. f_equal.
    + unfold asarray_rows in Eb. destruct b as [| r0 b0]; [discriminate |].
      destruct (rectb (length r0) (r0 :: b0)) eqn:Erect; [| discriminate].
      injection Eb as <-. apply mk_nd_rows. exact Erect.
    + eapply IH; [reflexivity | exact El].
Qed.

Lemma np_concatenate0_rows (arrs : list ndarray) (a : ndarray) :
  np_concatenate0 arrs = inr a -> rows a = concat (map rows arrs).
Proof.
  unfold np_concatenate0. destruct arrs as [| a0 rest]; [discriminate |].
  destruct (forallb (fun b => Nat.eqb (ncols b) (ncols a0)) rest) eqn:E;
    [| discriminate].
  intros H. injection H as <-. apply mk_nd_rows.
  apply rectb_Forall, Forall_forall. intros row Hrow.
  apply in_concat in Hrow. destruct Hrow as (rs & Hrs & Hin).
  apply in_map_iff in Hrs. destruct Hrs as (b & <- & Hb).
  pose proof (nd_rect b) as Hrect. rewrite Forall_forall in Hrect.
  rewrite (Hrect _ Hin). destruct Hb as [<- | Hb]; [reflexivity |].
  rewrite forallb_forall in E. apply Nat.eqb_eq. apply E. exact Hb.
Qed.

(** The two-dimensional result of stacking the centroids has the
    centroids of all slices, in order, as its rows. *)
Lemma concatenate_centroids_rows (lc : list (list (list Qc))) (a : ndarray) :
  concatenate_centroids (Some lc) = inr (Stacked2 a) -> rows a = concat lc.
Proof.
  unfold concatenate_centroids.
  destruct (asarray_all lc) as [e | arrs] eqn:Ea; [discriminate |].
  destruct arrs as [| o arrs]; [discriminate |].
  destruct (all_some (o :: arrs)) as [arrs2 |] eqn:Es.
  - destruct (np_concatenate0 arrs2) as [e | a'] eqn:Ec; [discriminate |].
    intros H. injection H as <-.
    rewrite (np_concatenate0_rows _ Ec).
    rewrite (asarray_all_rows _ Ea Es). reflexivity.
  - destruct (forallb is_none (o :: arrs)); discriminate.
Qed.

(** ** [calculate_error] and [rotate] *)

Lemma calculate_error_returns (s s' : state) :
  calculate_error s = (Ok tt, s') ->
  exists ls rs le re,
    concatenate_centroids (left_centroids (fst s)) = inr ls /\
    concatenate_centroids (right_centroids (fst s)) = inr rs /\
    squared_error (left_embedding_theo (fst s)) ls = inr le /\
    squared_error (right_embedding_theo (fst s)) rs = inr re /\
    fst s' = set_error (le + re)%Qc (fst s).
Proof.
  unfold calculate_error, bind, self, lift, update, modify. simpl.
  destruct (concatenate_centroids (left_centroids (fst s))) as [e | ls] eqn:E1;
    [discriminate |].
  destruct (concatenate_centroids (right_centroids (fst s))) as [e | rs] eqn:E2;
    [discriminate |].
  destruct (squared_error (left_embedding_theo (fst s)) ls) as [e | le] eqn:E3;
    [discriminate |].
  destruct (squared_error (right_embedding_theo (fst s)) rs) as [e | re] eqn:E4;
    [discriminate |].
  intros H. exists ls, rs, le, re. repeat split; try assumption.
  pose proof (calculate_variance_keeps_model
                (set_error (le + re)%Qc (fst s), snd s)) as Hv.
  rewrite H in Hv. simpl in Hv. symmetry. exact Hv.
Qed.

Lemma procrustes_call_returns (theo : option ndarray) (st : stacked)
      (r : ndarray) :
  call_orthogonal_procrustes theo st = inr r ->
  exists a b, theo = Some a /\ st = Stacked2 b /\
              orthogonal_procrustes a b = inr r.
Proof.
  unfold call_orthogonal_procrustes.
  destruct theo as [a |]; [| discriminate].
  destruct st as [| b]; [discriminate |].
  intros H. exists a, b. auto.
Qed.

Lemma stacked_centroids_returns (c : option (list (list (list Qc))))
      (a : ndarray) :
  concatenate_centroids c = inr (Stacked2 a) ->
  exists lc, c = Some lc /\ row_stacked lc a.
Proof.
  destruct c as [lc |]; [| discriminate].
  intros H. exists lc. split; [reflexivity |].
  apply concatenate_centroids_rows. exact H.
Qed.

Lemma for_each_returns (S X Acc : Type) (Inv : S -> Prop) (xs : list X)
      (body : X -> Acc -> M S Acc) :
  (forall x acc s, Inv s ->
                   exists acc' s', body x acc s = (Ok acc', s') /\ Inv s') ->
  forall acc s, Inv s ->
                exists acc' s', for_each xs body acc s = (Ok acc', s') /\ Inv s'.
Proof.
  intros Hbody. induction xs as [| x xs IH]; intros acc s Hs; simpl.
  - exists acc, s. split; [reflexivity | exact Hs].
  - destruct (Hbody x acc s Hs) as (acc1 & s1 & H1 & Hs1).
    destruct (IH acc1 s1 Hs1) as (acc2 & s2 & H2 & Hs2).
    exists acc2, s2. split; [| exact Hs2].
    erewrite bind_ok by exact H1. exact H2.
Qed.

(** Once both embeddings are populated, [calculate_variance] returns; it
    only plots. *)
Lemma calculate_variance_returns (m : model) (w : world) (l r : ndarray) :
  left_embedding m = Some l -> right_embedding m = Some r ->
  exists w', calculate_variance (m, w) = (Ok tt, (m, w')).
Proof.
  intros Hl Hr.
  assert (Hinner : forall cur g (s : state),
             exists loc, community_variances cur g s = (Ok loc, s)).
  { intros cur g s. unfold community_variances.
    match goal with
    | |- exists loc, for_each g ?body (0, []) s = _ =>
      assert (Hb : forall x acc s0, s0 = s ->
                     exists acc' s1, body x acc s0 = (Ok acc', s1) /\ s1 = s)
        by (intros x [start variances] s0 ->;
            eexists; eexists; split; reflexivity);
      destruct (@for_each_returns _ _ _ (fun s0 => s0 = s) g body Hb
                                  (0, []) s eq_refl) as (loc & s' & H & ->)
    end.
    exists loc. exact H. }
  assert (Hloop : forall (field : model -> option ndarray) emb title count
                         (s : state),
             fst s = m -> field m = Some emb ->
             exists s', for_each (py_range count) (fun idx (_ : unit) =>
               m0 <- self ;;
               current <- lift (subscript_rows (field m0)
                                  (py_sum_int (groups m) * idx)
                                  (py_sum_int (groups m) * (idx + 1))) ;;
               loc <- community_variances current (groups m0) ;;
               emit (Bar_chart (title ++ py_str_int (idx + 1))
                               (py_range (Z.of_nat (length (groups m0))))
                               (snd loc))) tt s = (Ok tt, s') /\ fst s' = m).
  { intros field emb title count s Hs Hfield.
    match goal with
    | |- exists s', for_each _ ?body tt s = _ /\ _ =>
      assert (Hb : forall idx (acc : unit) s0, fst s0 = m ->
                     exists (acc' : unit) s1,
                       body idx acc s0 = (Ok acc', s1) /\ fst s1 = m)
    end.
    { intros idx [] s0 Hs0.
      erewrite bind_ok by reflexivity. rewrite Hs0, Hfield. simpl.
      erewrite bind_ok by reflexivity.
      destruct (Hinner (row_slice emb (py_sum_int (groups m) * idx)
                                  (py_sum_int (groups m) * (idx + 1)))
                       (groups m) s0) as (loc & Hloc).
      erewrite bind_ok by exact Hloc.
      eexists. eexists. split; [reflexivity |]. simpl. exact Hs0. }
    destruct (@for_each_returns _ _ _ (fun s0 : state => fst s0 = m)
                                (py_range count) _ Hb tt s Hs)
      as ([] & s' & H & Hs').
    exists s'. split; assumption. }
  unfold calculate_variance.
  erewrite bind_ok by reflexivity. cbv beta. change (fst (m, w)) with m.
  destruct (Hloop left_embedding l "Community Variances Layer "%string
                  (layers m) (m, w) eq_refl Hl) as (s1 & H1 & Hs1).
  erewrite bind_ok by exact H1.
  erewrite bind_ok by reflexivity. cbv beta. rewrite Hs1.
  destruct (Hloop right_embedding r "Community Variances Time "%string
                  (timesteps m) s1 Hs1 Hr) as (s2 & H2 & Hs2).
  rewrite H2. destruct s2 as [m2 w2]. simpl in Hs2. subst m2.
  exists w2. reflexivity.
Qed.

Lemma asarray_rows_nonempty (b : list (list Qc)) (a : ndarray) :
  asarray_rows b = inr (Some a) -> b <> [].
Proof. destruct b; [discriminate | discriminate]. Qed.

(** A two-dimensional stack of centroids has at least one row. *)
Lemma stacked_centroids_nonempty (c : option (list (list (list Qc))))
      (a : ndarray) :
  concatenate_centroids c = inr (Stacked2 a) -> (0 < nrows a)%nat.
Proof.
  intros H. destruct c as [lc |]; [| discriminate].
  pose proof (concatenate_centroids_rows _ H) as Hrows.
  unfold concatenate_centroids in H.
  destruct (asarray_all lc) as [e | arrs] eqn:Ea; [discriminate |].
  destruct lc as [| b bs].
  { simpl in Ea. injection Ea as <-. discriminate. }
  simpl in Ea. destruct (asarray_rows b) as [e | o] eqn:Eb; [discriminate |].
  destruct (asarray_all bs) as [e | l0]; [discriminate |].
  injection Ea as <-. destruct o as [a0 |].
  - apply asarray_rows_nonempty in Eb. unfold nrows. rewrite Hrows. simpl.
    rewrite length_app. destruct b; [congruence | simpl; lia].
  - simpl in H. destruct (forallb is_none l0); discriminate.
Qed.

(** [rotate] returns as soon as the centroids stack into two-dimensional
    arrays, the solver accepts them and both embeddings are populated. *)
Lemma rotate_returns (s : state) (l r L R SL SR RL RR : ndarray) :
  procrustes_contract orthogonal_procrustes ->
  left_embedding (fst s) = Some l -> right_embedding (fst s) = Some r ->
  concatenate_centroids (left_centroids (fst s)) = inr (Stacked2 SL) ->
  concatenate_centroids (right_centroids (fst s)) = inr (Stacked2 SR) ->
  left_embedding_theo (fst s) = Some L ->
  right_embedding_theo (fst s) = Some R ->
  orthogonal_procrustes L SL = inr RL ->
  orthogonal_procrustes R SR = inr RR ->
  exists s', rotate s = (Ok tt, s').
Proof.
  intros Hsolver Hl Hr HSL HSR HL HR HRL HRR. destruct s as [m w].
  simpl in *.
  destruct (Hsolver _ _ _ HRL) as (HLr & HLc & HRLr & HRLc).
  destruct (Hsolver _ _ _ HRR) as (HRr & HRc & HRRr & HRRc).
  destruct (@matmul_defined L RL) as (L' & EL); [congruence |].
  destruct (@matmul_defined R RR) as (R' & ER); [congruence |].
  destruct (matmul_shape _ _ EL) as (_ & HL'r & HL'c).
  destruct (matmul_shape _ _ ER) as (_ & HR'r & HR'c).
  pose proof (stacked_centroids_nonempty _ HSL) as HposL.
  pose proof (stacked_centroids_nonempty _ HSR) as HposR.
  destruct (@squared_error_defined L' SL) as (le & Ele);
    [congruence | congruence | rewrite HL'r, HLr; exact HposL |].
  destruct (@squared_error_defined R' SR) as (re & Ere);
    [congruence | congruence | rewrite HR'r, HRr; exact HposR |].
  unfold rotate.
  erewrite bind_ok
    by (apply get_rotation_run with (ls := Stacked2 SL) (rs := Stacked2 SR)
                                    (rl := RL) (rr := RR);
        simpl; try assumption; [rewrite HL | rewrite HR]; assumption).
  erewrite bind_ok by reflexivity. simpl. rewrite HL. simpl.
  erewrite bind_ok by (unfold lift; rewrite EL; reflexivity).
  erewrite bind_ok by reflexivity.
  erewrite bind_ok by reflexivity. simpl. rewrite HR. simpl.
  erewrite bind_ok by (unfold lift; rewrite ER; reflexivity).
  erewrite bind_ok by reflexivity.
  simpl fst. simpl snd.
  match goal with
  | |- exists s', bind calculate_error _ ?st = _ =>
    assert (Herr : exists w', calculate_error st
                              = (Ok tt, (set_error (le + re)%Qc (fst st), w')))
  end.
  { unfold calculate_error.
    erewrite bind_ok by reflexivity.
    cbn [fst snd left_centroids right_centroids left_embedding_theo
         right_embedding_theo set_right_embedding_theo
         set_left_embedding_theo set_rotation_right set_rotation_left].
    rewrite HSL. erewrite bind_ok by reflexivity.
    rewrite HSR. erewrite bind_ok by reflexivity.
    rewrite Ele. erewrite bind_ok by reflexivity.
    rewrite Ere. erewrite bind_ok by reflexivity.
    erewrite bind_ok by reflexivity.
    eapply calculate_variance_returns; simpl; eassumption. }
  destruct Herr as (w' & Herr).
  erewrite bind_ok by exact Herr.
  erewrite bind_ok by reflexivity.
  eexists. reflexivity.
Qed.

(** C1: when [rotate] returns, [left_embedding_theo] is the matrix
    product of its value before the call and the stored [rotation_left]
    (entry [(i, j)] is the sum over [k] of [L[i, k] * RL[k, j]]),
    [right_embedding_theo] the product of its value before the call and
    [rotation_right], and [error] is the sum over all entries of the
    squared differences between the rotated [left_embedding_theo] and
    the row-stacked [left_centroids], plus the same sum for the right
    side; [error] is not negative. *)
Theorem rotate_spec (s s' : state) :
  procrustes_contract orthogonal_procrustes ->
  rotate s = (Ok tt, s') ->
  exists (L R SL SR RL RR L' R' : ndarray) (lc rc : list (list (list Qc))),
    left_embedding_theo (fst s) = Some L /\
    right_embedding_theo (fst s) = Some R /\
    left_centroids (fst s) = Some lc /\ row_stacked lc SL /\
    right_centroids (fst s) = Some rc /\ row_stacked rc SR /\
    (nrows SL = nrows L /\ ncols SL = ncols L) /\
    (nrows SR = nrows R /\ ncols SR = ncols R) /\
    rotation_left (fst s') = Some RL /\ rotation_right (fst s') = Some RR /\
    matmul L RL = inr L' /\ matmul R RR = inr R' /\
    matrix_product L RL L' /\ matrix_product R RR R' /\
    left_embedding_theo (fst s') = Some L' /\
    right_embedding_theo (fst s') = Some R' /\
    error (fst s') =
      (squared_difference_sum L' SL + squared_difference_sum R' SR)%Qc /\
    (0 <= error (fst s'))%Qc.
Proof.
  intros Hsolver. unfold rotate. unfold bind at 1.
  destruct (get_rotation s) as [[[] | e] s1] eqn:Hrot; [| discriminate].
  apply get_rotation_returns in Hrot.
  destruct Hrot as (ls & rs & RL & RR & Hls & Hpl & Hrs & Hpr & ->).
  apply procrustes_call_returns in Hpl. destruct Hpl as (L & SL & HL & -> & Hpl).
  apply procrustes_call_returns in Hpr. destruct Hpr as (R & SR & HR & -> & Hpr).
  destruct (Hsolver _ _ _ Hpl) as (HLr & HLc & HRLr & HRLc).
  destruct (Hsolver _ _ _ Hpr) as (HRr & HRc & HRRr & HRRc).
  apply stacked_centroids_returns in Hls as Hlc. destruct Hlc as (lc & Hlc & Hsl).
  apply stacked_centroids_returns in Hrs as Hrc. destruct Hrc as (rc & Hrc & Hsr).
  unfold bind, self, lift, update, modify. simpl. rewrite HL, HR. simpl.
  destruct (matmul L RL) as [e | L'] eqn:EL; simpl; [discriminate |].
  rewrite HR. simpl.
  destruct (matmul R RR) as [e | R'] eqn:ER; simpl; [discriminate |].
  match goal with
  | |- context [calculate_error ?st] =>
    destruct (calculate_error st) as [[[] | e] s4] eqn:Herr; [| discriminate]
  end.
  apply calculate_error_returns in Herr.
  destruct Herr as (ls' & rs' & le & re & H1 & H2 & H3 & H4 & H5).
  simpl in H1, H2, H3, H4, H5.
  rewrite Hls in H1. injection H1 as <-.
  rewrite Hrs in H2. injection H2 as <-.
  destruct (matmul_shape _ _ EL) as (_ & HL'r & HL'c).
  destruct (matmul_shape _ _ ER) as (_ & HR'r & HR'c).
  apply squared_error_same_shape in H3; [| congruence | congruence].
  apply squared_error_same_shape in H4; [| congruence | congruence].
  intros H. injection H as <-. simpl. rewrite H5. simpl.
  pose proof (matmul_product _ _ EL) as PL.
  pose proof (matmul_product _ _ ER) as PR.
  exists L, R, SL, SR, RL, RR, L', R', lc, rc.
  repeat match goal with |- _ /\ _ => split end;
    try assumption; try congruence.
  replace (Q2Qc 0) with (0 + 0)%Qc by ring.
  apply Qcplus_le_compat; subst; apply squared_difference_sum_nonneg.
Qed.

(** ** Concatenation *)

Lemma concat_uniform_length (X : Type) (n : nat) (ls : list (list X)) :
  Forall (fun l => length l = n) ls ->
  length (concat ls) = (length ls * n)%nat.
Proof.
  induction 1 as [| l ls Hl Hls IH]; simpl; [reflexivity |].
  rewrite length_app, IH, Hl. reflexivity.
Qed.

Lemma nth_concat_uniform (X : Type) (n : nat) (ls : list (list X))
      (i u : nat) (d : X) :
  Forall (fun l => length l = n) ls ->
  (i < length ls)%nat -> (u < n)%nat ->
  nth (i * n + u) (concat ls) d = nth u (nth i ls []) d.
Proof.
  intros Hls. revert i. induction Hls as [| l ls Hl Hls IH]; intros i Hi Hu.
  - simpl in Hi. lia.
  - destruct i as [| i]; simpl.
    + apply app_nth1. lia.
    + rewrite app_nth2 by lia. rewrite Hl.
      replace (n + i * n + u - n)%nat with (i * n + u)%nat by lia.
      apply IH; [simpl in Hi; lia | exact Hu].
Qed.

Lemma hcat_rows (a b : ndarray) :
  rows (hcat a b) = map (fun p => fst p ++ snd p) (combine (rows a) (rows b)).
Proof.
  unfold hcat. apply mk_nd_rows. apply rectb_Forall, Forall_forall.
  intros row Hrow. apply in_map_iff in Hrow.
  destruct Hrow as ([u v] & <- & Hin).
  pose proof (nd_rect a) as Ha. pose proof (nd_rect b) as Hb.
  rewrite Forall_forall in Ha, Hb. simpl. rewrite length_app.
  rewrite (Ha u), (Hb v); [reflexivity | |].
  - eapply in_combine_r. exact Hin.
  - eapply in_combine_l. exact Hin.
Qed.

Lemma hcat_shape (a b : ndarray) (n : nat) :
  nrows a = n -> nrows b = n ->
  nrows (hcat a b) = n /\ ncols (hcat a b) = (ncols a + ncols b)%nat /\
  forall u, (u < n)%nat ->
            nth u (rows (hcat a b)) [] = nth u (rows a) [] ++ nth u (rows b) [].
Proof.
  intros Ha Hb. unfold nrows in *. rewrite hcat_rows. split.
  - rewrite length_map, length_combine, Ha, Hb. apply Nat.min_id.
  - split; [apply mk_nd_ncols |]. intros u Hu.
    rewrite (nth_map_lt _ _ ([], []))
      by (rewrite length_combine, Ha, Hb; lia).
    rewrite combine_nth by congruence. reflexivity.
Qed.

Lemma hcat_bits (a b : ndarray) :
  Forall (Forall is_bit) (rows a) -> Forall (Forall is_bit) (rows b) ->
  Forall (Forall is_bit) (rows (hcat a b)).
Proof.
  intros Ha Hb. rewrite hcat_rows. apply Forall_forall. intros row Hrow.
  apply in_map_iff in Hrow. destruct Hrow as ([u v] & <- & Hin).
  rewrite Forall_forall in Ha, Hb. simpl. apply Forall_app. split.
  - apply Ha. eapply in_combine_l. exact Hin.
  - apply Hb. eapply in_combine_r. exact Hin.
Qed.

(** Horizontal concatenation of blocks of [n] rows: row [u] of the result
    is the concatenation of the rows [u] of the blocks. *)
Lemma fold_hcat_shape (n : nat) (rest : list ndarray) (a : ndarray) :
  nrows a = n -> Forall (fun b => nrows b = n) rest ->
  nrows (fold_left hcat rest a) = n /\
  ncols (fold_left hcat rest a) = (ncols a + list_sum (map ncols rest))%nat /\
  forall u, (u < n)%nat ->
            nth u (rows (fold_left hcat rest a)) [] =
            nth u (rows a) [] ++ concat (map (fun b => nth u (rows b) []) rest).
Proof.
  intros Ha Hrest. revert a Ha.
  induction Hrest as [| b rest Hb Hrest IH]; intros a Ha; simpl.
  - split; [exact Ha |]. split; [lia |]. intros u _.
    rewrite app_nil_r. reflexivity.
  - destruct (hcat_shape a b Ha Hb) as (H1 & H2 & H3).
    destruct (IH _ H1) as (I1 & I2 & I3).
    split; [exact I1 |]. split; [rewrite I2, H2; lia |].
    intros u Hu. rewrite I3, H3 by exact Hu. rewrite <- app_assoc.
    reflexivity.
Qed.

Lemma fold_hcat_bits (rest : list ndarray) (a : ndarray) :
  Forall (Forall is_bit) (rows a) ->
  Forall (fun b => Forall (Forall is_bit) (rows b)) rest ->
  Forall (Forall is_bit) (rows (fold_left hcat rest a)).
Proof.
  intros Ha Hrest. revert a Ha.
  induction Hrest as [| b rest Hb Hrest IH]; intros a Ha; simpl.
  - exact Ha.
  - apply IH. apply hcat_bits; assumption.
Qed.

Lemma list_sum_uniform (n : nat) (l : list nat) :
  Forall (fun x => x = n) l -> list_sum l = (length l * n)%nat.
Proof.
  induction 1 as [| x l Hx Hl IH]; simpl; [reflexivity |].
  rewrite IH, Hx. reflexivity.
Qed.

(** [np.concatenate(blocks, axis=1)] on a non-empty list of [n] by [n]
    blocks of zeros and ones. *)
Lemma np_concatenate1_blocks (n : nat) (blocks : list ndarray) :
  blocks <> [] -> Forall (binary_block n) blocks ->
  exists long,
    np_concatenate1 blocks = inr long /\
    nrows long = n /\ ncols long = (length blocks * n)%nat /\
    Forall (Forall is_bit) (rows long) /\
    forall j u v d, (j < length blocks)%nat -> (u < n)%nat -> (v < n)%nat ->
                    entry long u (j * n + v) = entry (nth j blocks d) u v.
Proof.
  intros Hne Hblocks. destruct blocks as [| a rest]; [congruence |].
  pose proof Hblocks as Hall. inversion Hblocks as [| ? ? Ha Hrest]. subst.
  assert (Hrows : Forall (fun b => nrows b = n) rest).
  { eapply Forall_impl; [| exact Hrest]. intros b Hb. apply Hb. }
  unfold np_concatenate1.
  assert (E : forallb (fun b => Nat.eqb (nrows b) (nrows a)) rest = true).
  { apply forallb_forall. intros b Hb. apply Nat.eqb_eq.
    rewrite Forall_forall in Hrows. rewrite (Hrows _ Hb).
    symmetry. apply Ha. }
  rewrite E. eexists. split; [reflexivity |].
  destruct Ha as (Har & Hac & Hab).
  destruct (fold_hcat_shape a Har Hrows) as (H1 & H2 & H3).
  split; [exact H1 |]. split.
  - rewrite H2, Hac. rewrite (list_sum_uniform (n := n)).
    + rewrite length_map. simpl. lia.
    + apply Forall_map. eapply Forall_impl; [| exact Hrest].
      intros b Hb. apply Hb.
  - split.
    + apply fold_hcat_bits; [exact Hab |].
      eapply Forall_impl; [| exact Hrest]. intros b Hb. apply Hb.
    + intros j u v d Hj Hu Hv. unfold entry. rewrite H3 by exact Hu.
      change (nth u (rows a) [] ++
              concat (map (fun b => nth u (rows b) []) rest))
        with (concat (map (fun b => nth u (rows b) []) (a :: rest))).
      rewrite (nth_concat_uniform (n := n)).
      * rewrite (nth_map_lt _ _ d) by exact Hj. reflexivity.
      * apply Forall_map. eapply Forall_impl; [| exact Hall].
        intros b (Hbr & Hbc & _). rewrite <- Hbc. apply nth_row_length.
        rewrite Hbr. exact Hu.
      * rewrite length_map. exact Hj.
      * exact Hv.
Qed.

Lemma Forall2_nth (X Y : Type) (P : X -> Y -> Prop) (l : list X)
      (l' : list Y) (i : nat) (d : X) (d' : Y) :
  Forall2 P l l' -> (i < length l)%nat -> P (nth i l d) (nth i l' d').
Proof.
  intros H. revert i. induction H as [| x y l l' Hxy H IH]; intros i Hi.
  - simpl in Hi. lia.
  - destruct i as [| i]; simpl; [exact Hxy |].
    apply IH. simpl in Hi. lia.
Qed.

(** [np.concatenate(longs, axis=0)] on a non-empty list of arrays of [n]
    rows and [c] columns. *)
Lemma np_concatenate0_uniform (n c : nat) (longs : list ndarray) :
  longs <> [] ->
  Forall (fun a => nrows a = n /\ ncols a = c) longs ->
  exists a0,
    np_concatenate0 longs = inr a0 /\
    nrows a0 = (length longs * n)%nat /\ ncols a0 = c /\
    rows a0 = concat (map rows longs) /\
    forall i u k d, (i < length longs)%nat -> (u < n)%nat ->
                    entry a0 (i * n + u) k = entry (nth i longs d) u k.
Proof.
  intros Hne Hall.
  assert (Hdef : exists a0, np_concatenate0 longs = inr a0 /\ ncols a0 = c).
  { unfold np_concatenate0. destruct longs as [| a rest]; [congruence |].
    inversion Hall as [| ? ? Ha Hrest]. subst.
    assert (E : forallb (fun b => Nat.eqb (ncols b) (ncols a)) rest = true).
    { apply forallb_forall. intros b Hb. apply Nat.eqb_eq.
      rewrite Forall_forall in Hrest. destruct (Hrest _ Hb) as [_ ->].
      symmetry. apply Ha. }
    rewrite E. eexists. split; [reflexivity |].
    rewrite mk_nd_ncols. apply Ha. }
  destruct Hdef as (a0 & Hcat & Hc). exists a0.
  pose proof (np_concatenate0_rows _ Hcat) as Hrows.
  assert (Hlen : Forall (fun l : list (list Qc) => length l = n)
                        (map rows longs)).
  { apply Forall_map. eapply Forall_impl; [| exact Hall].
    intros a Ha. apply Ha. }
  split; [exact Hcat |]. split.
  - unfold nrows. rewrite Hrows, (concat_uniform_length Hlen), length_map.
    reflexivity.
  - split; [exact Hc |]. split; [exact Hrows |].
    intros i u k d Hi Hu. unfold entry. rewrite Hrows.
    rewrite (@nth_concat_uniform _ n (map rows longs) i u [] Hlen)
      by (try rewrite length_map; assumption).
    rewrite (nth_map_lt _ _ d) by exact Hi. reflexivity.
Qed.

(** ** [sample] *)

(** The loop over the timesteps of layer [i], started with [acc]: it
    appends one sampled block per timestep and only advances the random
    generator. *)
Lemma sample_inner_loop (m : model) (n : nat) (i : Z) (js : list Z) :
  sampler_returns_blocks m n ->
  (forall j, In j js -> exists p, lookup_prob (prob_dict m) i j = inr p) ->
  forall (acc : list ndarray) (w : world),
  exists (blocks : list ndarray) (w' : world),
    for_each js (fun j curr_long =>
      m <- self ;;
      probabilities <- lift (lookup_prob (prob_dict m) i j) ;;
      curr_A <- call_generate_adjacency_matrix (groups m) probabilities ;;
      ret (curr_long ++ [curr_A])) acc (m, w)
    = (Ok (acc ++ blocks), (m, w')) /\
    Forall (binary_block n) blocks /\
    Forall2 (sampled_block m i) js blocks.
Proof.
  intros Hsampler. induction js as [| j js IH]; intros Hkeys acc w.
  - exists [], w. simpl. rewrite app_nil_r. repeat split; constructor.
  - destruct (Hkeys j (or_introl eq_refl)) as (p & Hp).
    destruct (Hsampler i j p (rng w) Hp) as (b & g1 & Hg & Hb).
    destruct (IH (fun j' H => Hkeys j' (or_intror H)) (acc ++ [b])
                 (World g1 (output w))) as (blocks & w' & Hrun & Hbl & Hsm).
    exists (b :: blocks), w'. split; [| split].
    + simpl. erewrite bind_ok.
      * rewrite Hrun, <- app_assoc. reflexivity.
      * unfold bind, self, lift, call_generate_adjacency_matrix, ret. simpl.
        rewrite Hp. simpl. rewrite Hg. reflexivity.
    + constructor; assumption.
    + constructor; [| exact Hsm]. exists p, (rng w), g1. auto.
Qed.

(** The loop over the layers, started with [acc]: it appends one
    horizontal concatenation per layer. *)
Lemma sample_outer_loop (m : model) (n : nat) (idx : list Z) :
  sampler_returns_blocks m n ->
  (0 < timesteps m) ->
  (forall i j, In i idx -> In j (py_range (timesteps m)) ->
               exists p, lookup_prob (prob_dict m) i j = inr p) ->
  forall (acc : list ndarray) (w : world),
  exists (grid : list (list ndarray)) (longs : list ndarray) (w' : world),
    for_each idx (fun i list_longs =>
      m <- self ;;
      curr_long <-
        for_each (py_range (timesteps m)) (fun j curr_long =>
          m <- self ;;
          probabilities <- lift (lookup_prob (prob_dict m) i j) ;;
          curr_A <- call_generate_adjacency_matrix (groups m) probabilities ;;
          ret (curr_long ++ [curr_A])) [] ;;
      final_long <- lift (np_concatenate1 curr_long) ;;
      ret (list_longs ++ [final_long])) acc (m, w)
    = (Ok (acc ++ longs), (m, w')) /\
    Forall2 (fun i blocks =>
               Forall (binary_block n) blocks /\
               Forall2 (sampled_block m i) (py_range (timesteps m)) blocks)
            idx grid /\
    Forall2 (fun blocks long =>
               length blocks = Z.to_nat (timesteps m) /\
               Forall (binary_block n) blocks /\
               np_concatenate1 blocks = inr long) grid longs.
Proof.
  intros Hsampler Ht. induction idx as [| i idx IH]; intros Hkeys acc w.
  - exists [], [], w. simpl. rewrite app_nil_r. repeat split; constructor.
  - destruct (sample_inner_loop i (py_range (timesteps m)) Hsampler
                (fun j H => Hkeys i j (or_introl eq_refl) H) [] w)
      as (blocks & w1 & Hrun & Hbl & Hsm).
    assert (Hlen : length blocks = Z.to_nat (timesteps m)).
    { apply Forall2_length in Hsm. unfold py_range in Hsm.
      rewrite length_map, length_seq in Hsm. congruence. }
    assert (Hne : blocks <> []).
    { destruct blocks; [simpl in Hlen; lia | discriminate]. }
    destruct (np_concatenate1_blocks Hne Hbl) as (long & Hlong & _).
    destruct (IH (fun i' j H => Hkeys i' j (or_intror H)) (acc ++ [long]) w1)
      as (grid & longs & w' & Hrest & Hgrid & Hlongs).
    exists (blocks :: grid), (long :: longs), w'. split; [| split].
    + simpl. erewrite bind_ok.
      * rewrite Hrest, <- app_assoc. reflexivity.
      * erewrite bind_ok by reflexivity. simpl.
        erewrite bind_ok by exact Hrun.
        unfold bind, lift, ret. simpl. rewrite Hlong. reflexivity.
    + constructor; [split; assumption | exact Hgrid].
    + constructor; [repeat split; assumption | exact Hlongs].
Qed.

Lemma Forall2_Forall_r (X Y : Type) (Q : X -> Y -> Prop) (P : Y -> Prop)
      (l : list X) (l' : list Y) :
  Forall2 Q l l' -> (forall x y, Q x y -> P y) -> Forall P l'.
Proof.
  intros H HQ. induction H as [| x y l l' Hxy H IH]; constructor; eauto.
Qed.

Lemma py_range_length (z : Z) : length (py_range z) = Z.to_nat z.
Proof. unfold py_range. rewrite length_map, length_seq. reflexivity. Qed.

Lemma py_range_nth (z : Z) (i : nat) (d : Z) :
  (i < Z.to_nat z)%nat -> nth i (py_range z) d = Z.of_nat i.
Proof.
  intros Hi. unfold py_range.
  rewrite (nth_map_lt _ _ O) by (rewrite length_seq; exact Hi).
  rewrite seq_nth by exact Hi. reflexivity.
Qed.

Lemma py_range_In (z j : Z) : In j (py_range z) -> 0 <= j < z.
Proof.
  unfold py_range. intros H. apply in_map_iff in H.
  destruct H as (k & <- & Hk). apply in_seq in Hk. lia.
Qed.

(** After [A] is stored, the rest of [sample] does not touch it. *)
Lemma sample_tail_keeps_A (a0 : ndarray) :
  preserves (fun m m' => A m' = A m)
    (left_embedding <- lift (get_embedding a0 Left) ;;
     update (set_left_embedding (Some left_embedding)) ;;
     right_embedding <- lift (get_embedding a0 Right) ;;
     update (set_right_embedding (Some right_embedding))).
Proof.
  repeat first
    [ frame_step (fun m : model => @eq_refl _ (A m))
                 (fun (m1 m2 m3 : model) (H12 : A m2 = A m1)
                      (H23 : A m3 = A m2) => eq_trans H23 H12)
    | apply preserves_update; intros m0; reflexivity ].
Qed.

(** C3: on an instance with an entry of [prob_dict] for every (layer,
    timestep) pair, and with a block sampler that returns an N by N array
    of zeros and ones for each pair (N the sum of [groups]), [sample]
    stores in [A] an array of [layers * N] rows and [timesteps * N]
    columns of zeros and ones: the block in block-row [i] and
    block-column [j] of [A] is a block the sampler returned for the pair
    [(i, j)]. *)
Theorem sample_sets_A (s : state) (n : nat) :
  0 < layers (fst s) -> 0 < timesteps (fst s) ->
  Z.of_nat n = py_sum_int (groups (fst s)) ->
  all_keys_present (fst s) ->
  sampler_returns_blocks (fst s) n ->
  exists (a0 : ndarray) (grid : list (list ndarray)),
    A (fst (snd (sample s))) = Some a0 /\
    Z.of_nat (nrows a0) = layers (fst s) * Z.of_nat n /\
    Z.of_nat (ncols a0) = timesteps (fst s) * Z.of_nat n /\
    Forall (Forall is_bit) (rows a0) /\
    forall i j,
      (i < Z.to_nat (layers (fst s)))%nat ->
      (j < Z.to_nat (timesteps (fst s)))%nat ->
      sampled_block (fst s) (Z.of_nat i) (Z.of_nat j)
                    (nth j (nth i grid []) a0) /\
      forall u v, (u < n)%nat -> (v < n)%nat ->
                  entry a0 (i * n + u) (j * n + v) =
                  entry (nth j (nth i grid []) a0) u v.
Proof.
  destruct s as [m w]. simpl. intros Hl Ht Hn Hkeys Hsampler.
  destruct (sample_outer_loop (py_range (layers m)) Hsampler Ht
              (fun i j Hi Hj => Hkeys i j (py_range_In _ _ Hi)
                                      (py_range_In _ _ Hj)) [] w)
    as (grid & longs & w' & Hrun & Hgrid & Hlongs).
  simpl in Hrun.
  pose proof (Forall2_length Hgrid) as Hlen1.
  pose proof (Forall2_length Hlongs) as Hlen2.
  rewrite py_range_length in Hlen1.
  set (tn := Z.to_nat (timesteps m)) in *.
  assert (Hshape : Forall (fun a => nrows a = n /\ ncols a = (tn * n)%nat)
                          longs).
  { eapply Forall2_Forall_r; [exact Hlongs |].
    intros blocks long (Hb1 & Hb2 & Hb3).
    assert (Hne : blocks <> []) by (destruct blocks; [simpl in Hb1; lia |
                                                      discriminate]).
    destruct (np_concatenate1_blocks Hne Hb2) as (long' & E & H1 & H2 & _).
    rewrite Hb3 in E. injection E as <-. rewrite <- Hb1. auto. }
  assert (Hbits : Forall (fun a => Forall (Forall is_bit) (rows a)) longs).
  { eapply Forall2_Forall_r; [exact Hlongs |].
    intros blocks long (Hb1 & Hb2 & Hb3).
    assert (Hne : blocks <> []) by (destruct blocks; [simpl in Hb1; lia |
                                                      discriminate]).
    destruct (np_concatenate1_blocks Hne Hb2) as (long' & E & _ & _ & H3 & _).
    rewrite Hb3 in E. injection E as <-. exact H3. }
  assert (Hne : longs <> []).
  { destruct longs; [simpl in Hlen2; lia | discriminate]. }
  destruct (np_concatenate0_uniform Hne Hshape)
    as (a0 & Hcat & Har & Hac & Hrows & Hentry).
  exists a0, grid. split; [| split; [| split; [| split]]].
  - unfold sample. erewrite bind_ok by reflexivity. simpl.
    erewrite bind_ok by exact Hrun. simpl.
    erewrite bind_ok by (unfold lift; rewrite Hcat; reflexivity).
    erewrite bind_ok by reflexivity.
    apply (sample_tail_keeps_A a0 (set_A (Some a0) m, w')).
  - rewrite Har. lia.
  - rewrite Hac. lia.
  - rewrite Hrows. apply Forall_concat. apply Forall_map. exact Hbits.
  - intros i j Hi Hj.
    pose proof (@Forall2_nth _ _ _ _ _ i 0 [] Hgrid) as Hrow.
    rewrite py_range_length, py_range_nth in Hrow by exact Hi.
    destruct (Hrow Hi) as (_ & Hsm).
    pose proof (@Forall2_nth _ _ _ _ _ j 0 a0 Hsm) as Hblock.
    rewrite py_range_length, py_range_nth in Hblock by exact Hj.
    split; [exact (Hblock Hj) |]. intros u v Hu Hv.
    rewrite (Hentry i u (j * n + v)%nat a0) by lia.
    pose proof (@Forall2_nth _ _ _ _ _ i [] a0 Hlongs) as Hlong.
    destruct Hlong as (Hb1 & Hb2 & Hb3); [lia |].
    assert (Hne' : nth i grid [] <> []).
    { destruct (nth i grid []); [simpl in Hb1; lia | discriminate]. }
    destruct (np_concatenate1_blocks Hne' Hb2) as (long' & E & _ & _ & _ & H4).
    rewrite Hb3 in E. injection E as <-.
    apply H4; [rewrite Hb1; exact Hj | exact Hu | exact Hv].
Qed.

(** ** Group labels and boolean masks *)

Lemma combine_app_eq (X Y : Type) (l1 l2 : list X) (r1 r2 : list Y) :
  length l1 = length r1 ->
  combine (l1 ++ l2) (r1 ++ r2) = combine l1 r1 ++ combine l2 r2.
Proof.
  revert r1. induction l1 as [| x l1 IH]; intros [| y r1] H;
    try discriminate; simpl.
  - reflexivity.
  - rewrite IH by (simpl in H; congruence). reflexivity.
Qed.

Lemma masked_app (X : Type) (m1 m2 : list bool) (r1 r2 : list X) :
  length m1 = length r1 ->
  masked (m1 ++ m2) (r1 ++ r2) = masked m1 r1 ++ masked m2 r2.
Proof.
  intros H. unfold masked. rewrite combine_app_eq by exact H.
  rewrite filter_app, map_app. reflexivity.
Qed.

Lemma masked_all_true (X : Type) (mask : list bool) (r : list X) :
  length mask = length r -> Forall (fun b => b = true) mask ->
  masked mask r = r.
Proof.
  intros Hlen Hall. revert r Hlen.
  induction Hall as [| b mask Hb Hall IH]; intros [| x r] Hlen;
    try discriminate; [reflexivity |].
  subst b. unfold masked in *. simpl. rewrite IH by (simpl in Hlen; congruence).
  reflexivity.
Qed.

Lemma masked_all_false (X : Type) (mask : list bool) (r : list X) :
  Forall (fun b => b = false) mask -> masked mask r = [].
Proof.
  intros Hall. revert r.
  induction Hall as [| b mask Hb Hall IH]; intros [| x r]; try reflexivity.
  subst b. unfold masked in *. simpl. apply IH.
Qed.

Lemma masked_subset (X : Type) (mask : list bool) (r : list X) (x : X) :
  In x (masked mask r) -> In x r.
Proof.
  unfold masked. intros H. apply in_map_iff in H.
  destruct H as ([b y] & <- & Hin). apply filter_In in Hin.
  destruct Hin as [Hin _]. eapply in_combine_r. exact Hin.
Qed.

Lemma labels_from_lower (k l : Z) (gs : list Z) :
  In l (labels_from k gs) -> k <= l.
Proof.
  revert k. induction gs as [| g gs IH]; intros k H; simpl in H; [tauto |].
  apply in_app_or in H. destruct H as [H | H].
  - apply repeat_spec in H. lia.
  - apply IH in H. lia.
Qed.

Lemma labels_from_length (k : Z) (gs : list Z) :
  length (labels_from k gs) = list_sum (map Z.to_nat gs).
Proof.
  revert k. induction gs as [| g gs IH]; intros k; simpl; [reflexivity |].
  rewrite length_app, repeat_length, IH. reflexivity.
Qed.

Lemma labels_from_In (k l : Z) (gs : list Z) :
  Forall (fun g => 0 < g) gs ->
  (In l (labels_from k gs) <-> k <= l < k + Z.of_nat (length gs)).
Proof.
  intros Hpos. revert k. induction Hpos as [| g gs Hg Hpos IH]; intros k.
  - simpl. split; [tauto | lia].
  - simpl labels_from. rewrite in_app_iff, IH. simpl length. split.
    + intros [H | H]; [apply repeat_spec in H; lia | lia].
    + intros H. destruct (Z.eq_dec l k) as [-> | Hne].
      * left. destruct (Z.to_nat g) eqn:E; [lia | simpl; auto].
      * right. lia.
Qed.

(** Selecting the rows labelled [k + j] picks the contiguous run of
    community [j]. *)
Lemma masked_labels_from (X : Type) (gs : list Z) (k : Z) (j : nat)
      (r : list X) :
  length r = list_sum (map Z.to_nat gs) -> (j < length gs)%nat ->
  masked (map (fun l => l =? k + Z.of_nat j) (labels_from k gs)) r =
  firstn (Z.to_nat (nth j gs 0))
         (skipn (list_sum (map Z.to_nat (firstn j gs))) r).
Proof.
  revert k j r. induction gs as [| g gs IH]; intros k j r Hlen Hj.
  - simpl in Hj. lia.
  - simpl in Hlen. simpl labels_from. rewrite map_app.
    rewrite <- (firstn_skipn (Z.to_nat g) r) at 1.
    assert (Hfirst : length (firstn (Z.to_nat g) r) = Z.to_nat g).
    { rewrite length_firstn. lia. }
    rewrite masked_app
      by (rewrite length_map, repeat_length; symmetry; exact Hfirst).
    destruct j as [| j].
    + rewrite Z.add_0_r. simpl.
      rewrite masked_all_true, masked_all_false.
      * apply app_nil_r.
      * apply Forall_map, Forall_forall. intros l Hl.
        apply labels_from_lower in Hl. apply Z.eqb_neq. lia.
      * rewrite length_map, repeat_length. symmetry. exact Hfirst.
      * apply Forall_map, Forall_forall. intros l Hl.
        apply repeat_spec in Hl. subst l. apply Z.eqb_refl.
    + rewrite masked_all_false.
      * rewrite app_nil_l.
        replace (k + Z.of_nat (S j)) with (k + 1 + Z.of_nat j) by lia.
        rewrite IH.
        -- simpl. rewrite skipn_skipn. f_equal. f_equal. lia.
        -- rewrite length_skipn. lia.
        -- simpl in Hj. lia.
      * apply Forall_map, Forall_forall. intros l Hl.
        apply repeat_spec in Hl. subst l. apply Z.eqb_neq. lia.
Qed.

Lemma fold_left_Zadd (l : list Z) (a : Z) :
  fold_left Z.add l a = a + py_sum_int l.
Proof.
  unfold py_sum_int. revert a. induction l as [| x l IH]; intros a; simpl.
  - lia.
  - rewrite IH, (IH x). lia.
Qed.

Lemma py_sum_int_cons (x : Z) (l : list Z) :
  py_sum_int (x :: l) = x + py_sum_int l.
Proof. unfold py_sum_int at 1. simpl. apply fold_left_Zadd. Qed.

Lemma py_sum_int_nat (gs : list Z) :
  Forall (fun g => 0 < g) gs ->
  py_sum_int gs = Z.of_nat (list_sum (map Z.to_nat gs)).
Proof.
  induction 1 as [| g gs Hg Hpos IH]; [reflexivity |].
  rewrite py_sum_int_cons, IH. simpl. lia.
Qed.

Lemma firstn_positive (k : nat) (gs : list Z) :
  Forall (fun g => 0 < g) gs -> Forall (fun g => 0 < g) (firstn k gs).
Proof.
  intros H. revert k. induction H as [| g gs Hg H IH]; intros [| k]; simpl;
    constructor; auto.
Qed.

Lemma run_inside_slice (ns : list nat) (k : nat) :
  (list_sum (firstn k ns) + nth k ns 0 <= list_sum ns)%nat.
Proof.
  revert k. induction ns as [| x ns IH]; intros [| k]; simpl; try lia.
  specialize (IH k). lia.
Qed.

Lemma firstn_skipn_firstn (X : Type) (g a n : nat) (l : list X) :
  (a + g <= n)%nat ->
  firstn g (skipn a (firstn n l)) = firstn g (skipn a l).
Proof.
  intros H. rewrite skipn_firstn_comm, firstn_firstn.
  f_equal. lia.
Qed.

Lemma py_slice_inside (X : Type) (a b : Z) (l : list X) :
  0 <= a -> a <= b -> b <= Z.of_nat (length l) ->
  py_slice a b l = firstn (Z.to_nat (b - a)) (skipn (Z.to_nat a) l).
Proof.
  intros Ha Hab Hb. unfold py_slice, slice_bound.
  destruct (Z.ltb_spec a 0); [lia |]. destruct (Z.ltb_spec b 0); [lia |].
  rewrite !Nat.min_l by lia. f_equal. lia.
Qed.

(** ** [get_centroids] *)

Lemma for_each_append (S X Y : Type) (xs : list X)
      (body : X -> list Y -> M S (list Y)) (g : X -> Y) (s : S) :
  (forall x acc, In x xs -> body x acc s = (Ok (acc ++ [g x]), s)) ->
  forall acc, for_each xs body acc s = (Ok (acc ++ map g xs), s).
Proof.
  induction xs as [| x xs IH]; intros Hbody acc; simpl.
  - rewrite app_nil_r. reflexivity.
  - erewrite bind_ok by (apply Hbody; left; reflexivity).
    rewrite IH by (intros; apply Hbody; right; assumption).
    rewrite <- app_assoc. reflexivity.
Qed.

Lemma for_each_collect (S X Y : Type) (xs : list X)
      (body : X -> list Y -> M S (list Y)) (g : X -> Y) (s : S) :
  (forall x acc, In x xs -> body x acc s = (Ok (acc ++ [g x]), s)) ->
  for_each xs body [] s = (Ok (map g xs), s).
Proof. intros H. exact (for_each_append xs body g H []). Qed.

Lemma Forall_sublist (X : Type) (P : X -> Prop) (a b : nat) (l : list X) :
  Forall P l -> Forall P (firstn a (skipn b l)).
Proof.
  intros H. rewrite <- (firstn_skipn b l) in H.
  apply Forall_app in H. destruct H as [_ H].
  rewrite <- (firstn_skipn a (skipn b l)) in H.
  apply Forall_app in H. apply H.
Qed.

Lemma row_slice_rows (arr : ndarray) (a b : Z) :
  rows (row_slice arr a b) = py_slice a b (rows arr) /\
  ncols (row_slice arr a b) = ncols arr.
Proof.
  unfold row_slice. split; [| apply mk_nd_ncols].
  apply mk_nd_rows. apply rectb_Forall. unfold py_slice.
  apply Forall_sublist. apply nd_rect.
Qed.

Lemma mask_select_rows (arr : ndarray) (mask : list bool) :
  length mask = nrows arr ->
  exists c, mask_select arr mask = inr c /\
            rows c = masked mask (rows arr) /\ ncols c = ncols arr.
Proof.
  intros H. unfold mask_select. rewrite (proj2 (Nat.eqb_eq _ _) H).
  eexists. split; [reflexivity |]. split; [| apply mk_nd_ncols].
  apply mk_nd_rows. apply rectb_Forall, Forall_forall. intros r Hr.
  apply masked_subset in Hr. pose proof (nd_rect arr) as Hrect.
  rewrite Forall_forall in Hrect. auto.
Qed.

Lemma column_defined (arr : ndarray) (j : nat) :
  (j < ncols arr)%nat ->
  column arr j = inr (map (fun r => nth j r (Q2Qc 0)) (rows arr)).
Proof.
  intros H. unfold column. rewrite (proj2 (Nat.ltb_lt _ _) H). reflexivity.
Qed.

Lemma generate_group_labels_In (gs : list Z) (l : Z) :
  Forall (fun g => 0 < g) gs ->
  (In l (generate_group_labels gs) <-> 0 <= l < Z.of_nat (length gs)).
Proof.
  intros H. unfold generate_group_labels. rewrite labels_from_In by exact H.
  lia.
Qed.

(** The centroids of one slice [current]: one mean vector per label, in
    increasing order of the labels. *)
Lemma community_centroids_run (current : ndarray) (gs : list Z) (s : state) :
  set_iterates_in_order ->
  Forall (fun g => 0 < g) gs ->
  nrows current = list_sum (map Z.to_nat gs) ->
  (4 <= ncols current)%nat ->
  community_centroids current gs s =
  (Ok (map (fun label =>
              mean_vector (masked (map (fun l => l =? label)
                                       (generate_group_labels gs))
                                  (rows current)))
           (py_range (Z.of_nat (length gs)))), s).
Proof.
  intros Hset Hpos Hrows Hcols. unfold community_centroids.
  rewrite (Hset _ (length gs))
    by (intros k; apply generate_group_labels_In; exact Hpos).
  apply for_each_collect. intros label acc _.
  destruct (mask_select_rows current
              (map (fun l => l =? label) (generate_group_labels gs)))
    as (c & Hc & Hcr & Hcc).
  { rewrite length_map. unfold generate_group_labels.
    rewrite labels_from_length. symmetry. exact Hrows. }
  erewrite bind_ok by (unfold lift; rewrite Hc; reflexivity).
  erewrite bind_ok
    by (unfold lift; rewrite column_defined by lia; reflexivity).
  erewrite bind_ok
    by (unfold lift; rewrite column_defined by lia; reflexivity).
  erewrite bind_ok
    by (unfold lift; rewrite column_defined by lia; reflexivity).
  erewrite bind_ok
    by (unfold lift; rewrite column_defined by lia; reflexivity).
  rewrite Hcr. reflexivity.
Qed.

(** Slice [i] of an embedding of the expected height. *)
Lemma slice_of_embedding (emb : ndarray) (gs : list Z) (count : Z) (i : nat) :
  Forall (fun g => 0 < g) gs ->
  Z.of_nat (nrows emb) = count * py_sum_int gs ->
  (i < Z.to_nat count)%nat ->
  let nn := list_sum (map Z.to_nat gs) in
  let current := row_slice emb (py_sum_int gs * Z.of_nat i)
                           (py_sum_int gs * (Z.of_nat i + 1)) in
  rows current = firstn nn (skipn (i * nn) (rows emb)) /\
  nrows current = nn.
Proof.
  intros Hpos Hrows Hi nn current.
  assert (HN : py_sum_int gs = Z.of_nat nn) by (apply py_sum_int_nat, Hpos).
  assert (Hlen : (S i * nn <= length (rows emb))%nat).
  { unfold nrows in Hrows. rewrite HN in Hrows. nia. }
  assert (Hcur : rows current = firstn nn (skipn (i * nn) (rows emb))).
  { unfold current. rewrite (proj1 (row_slice_rows _ _ _)).
    rewrite py_slice_inside; [| nia | nia | rewrite HN; nia].
    f_equal; [| f_equal]; rewrite HN; nia. }
  split; [exact Hcur |].
  unfold nrows. rewrite Hcur, length_firstn, length_skipn. nia.
Qed.

(** The rows of slice [i] selected by the mask of label [k] are the rows
    of community [k] of that slice. *)
Lemma masked_slice_community (emb : ndarray) (gs : list Z) (count : Z)
      (i k : nat) :
  Forall (fun g => 0 < g) gs ->
  Z.of_nat (nrows emb) = count * py_sum_int gs ->
  (i < Z.to_nat count)%nat -> (k < length gs)%nat ->
  masked (map (fun l => l =? Z.of_nat k) (generate_group_labels gs))
         (rows (row_slice emb (py_sum_int gs * Z.of_nat i)
                          (py_sum_int gs * (Z.of_nat i + 1)))) =
  community_rows emb gs (Z.of_nat i) k.
Proof.
  intros Hpos Hrows Hi Hk.
  destruct (@slice_of_embedding emb gs count i Hpos Hrows Hi) as [Hcur Hn].
  set (nn := list_sum (map Z.to_nat gs)) in *.
  assert (HN : py_sum_int gs = Z.of_nat nn) by (apply py_sum_int_nat, Hpos).
  pose proof (@masked_labels_from _ gs 0 k
                (rows (row_slice emb (py_sum_int gs * Z.of_nat i)
                                 (py_sum_int gs * (Z.of_nat i + 1))))) as Hm.
  simpl in Hm. unfold generate_group_labels. rewrite Hm; [| exact Hn | exact Hk].
  unfold community_rows, community_start. rewrite Hcur.
  rewrite firstn_skipn_firstn.
  - rewrite skipn_skipn. f_equal. f_equal.
    rewrite (py_sum_int_nat (firstn_positive k Hpos)), HN. fold nn. nia.
  - pose proof (run_inside_slice (map Z.to_nat gs) k) as Hrun.
    rewrite firstn_map in Hrun.
    rewrite (nth_indep _ _ (Z.to_nat 0)) in Hrun
      by (rewrite length_map; exact Hk).
    rewrite map_nth in Hrun. exact Hrun.
Qed.

(** The loop of [get_centroids] over the slices of one embedding. *)
Lemma centroids_loop (emb : ndarray) (count : Z) (s : state)
      (field : model -> option ndarray) :
  set_iterates_in_order ->
  Forall (fun g => 0 < g) (groups (fst s)) ->
  field (fst s) = Some emb ->
  embedding_shape emb (groups (fst s)) count ->
  exists cs,
    for_each (py_range count) (fun idx centroids =>
      m <- self ;;
      current <- lift (subscript_rows (field m)
                         (py_sum_int (groups (fst s)) * idx)
                         (py_sum_int (groups (fst s)) * (idx + 1))) ;;
      current_embeddings <- community_centroids current (groups m) ;;
      ret (centroids ++ [current_embeddings])) [] s
    = (Ok cs, s) /\
    mean_vectors_of emb (groups (fst s)) count cs.
Proof.
  intros Hset Hpos Hfield (Hrows & Hcols).
  set (gs := groups (fst s)) in *.
  set (g := fun idx : Z =>
              map (fun label =>
                     mean_vector
                       (masked (map (fun l => l =? label)
                                    (generate_group_labels gs))
                               (rows (row_slice emb (py_sum_int gs * idx)
                                                (py_sum_int gs * (idx + 1))))))
                  (py_range (Z.of_nat (length gs)))).
  exists (map g (py_range count)). split.
  - apply for_each_collect. intros idx acc Hidx.
    unfold py_range in Hidx. apply in_map_iff in Hidx.
    destruct Hidx as (i & <- & Hi). apply in_seq in Hi.
    destruct (@slice_of_embedding emb gs count i Hpos Hrows) as [_ Hn];
      [lia |].
    erewrite bind_ok by reflexivity. simpl. rewrite Hfield.
    erewrite bind_ok by reflexivity.
    erewrite bind_ok.
    + reflexivity.
    + apply community_centroids_run; try assumption.
      rewrite (proj2 (row_slice_rows _ _ _)). exact Hcols.
  - unfold mean_vectors_of. rewrite length_map, py_range_length.
    split; [reflexivity |]. intros i Hi.
    rewrite (nth_map_lt _ _ 0) by (rewrite py_range_length; exact Hi).
    rewrite py_range_nth by exact Hi. unfold g.
    rewrite length_map, py_range_length, Nat2Z.id.
    split; [reflexivity |]. intros k Hk.
    rewrite (nth_map_lt _ _ 0)
      by (rewrite py_range_length, Nat2Z.id; exact Hk).
    rewrite py_range_nth by (rewrite Nat2Z.id; exact Hk).
    split; [reflexivity |]. f_equal.
    apply (@masked_slice_community emb gs count i k Hpos Hrows Hi Hk).
Qed.

(** The run of community [k] of slice [i] lies inside the embedding. *)
Lemma community_run_inside (emb : ndarray) (gs : list Z) (count : Z)
      (i k : nat) :
  Forall (fun g => 0 < g) gs ->
  Z.of_nat (nrows emb) = count * py_sum_int gs ->
  (i < Z.to_nat count)%nat -> (k < length gs)%nat ->
  (Z.to_nat (community_start gs (Z.of_nat i) k) + Z.to_nat (nth k gs 0%Z)
   <= nrows emb)%nat.
Proof.
  intros Hpos Hrows Hi Hk. unfold community_start.
  rewrite (py_sum_int_nat Hpos) in *.
  rewrite (py_sum_int_nat (firstn_positive k Hpos)).
  pose proof (run_inside_slice (map Z.to_nat gs) k) as Hrun.
  rewrite firstn_map in Hrun.
  rewrite (nth_indep _ _ (Z.to_nat 0)) in Hrun
    by (rewrite length_map; exact Hk).
  rewrite map_nth in Hrun.
  set (nn := list_sum (map Z.to_nat gs)) in *.
  set (before := list_sum (map Z.to_nat (firstn k gs))) in *.
  nia.
Qed.

(** A mean vector, coordinate by coordinate: the entries of the run added
    up and divided by their number. *)
Lemma mean_vector_coordinate (emb : ndarray) (start n c : nat) :
  (start + n <= nrows emb)%nat -> (c < 4)%nat ->
  nth c (mean_vector (firstn n (skipn start (rows emb)))) (Q2Qc 0) =
  coordinate_mean emb start n c.
Proof.
  intros Hin Hc. unfold mean_vector, coordinate_mean, np_mean, of_nat_Qc.
  rewrite nth_map_lt with (d := 0%nat) by (rewrite length_seq; exact Hc).
  rewrite seq_nth by exact Hc. rewrite Nat.add_0_l.
  assert (Hlen : length (firstn n (skipn start (rows emb))) = n).
  { rewrite length_firstn, length_skipn. unfold nrows in Hin. lia. }
  rewrite length_map, Hlen. f_equal.
  rewrite (py_sum_map_nth _ _ []), Hlen. apply sum_upto_ext. intros r Hr.
  unfold entry. rewrite nth_firstn.
  destruct (Nat.ltb_spec r n) as [_ | Hge]; [| lia].
  rewrite nth_skipn. reflexivity.
Qed.

Lemma mean_vectors_of_centroids (emb : ndarray) (gs : list Z) (count : Z)
      (cs : list (list (list Qc))) :
  Forall (fun g => 0 < g) gs ->
  embedding_shape emb gs count ->
  mean_vectors_of emb gs count cs -> centroids_of emb gs count cs.
Proof.
  intros Hpos (Hrows & _) (Hlen & Hcs). split; [exact Hlen |].
  intros i Hi. destruct (Hcs i Hi) as (Hinner & Hk). split; [exact Hinner |].
  intros k Hklt. destruct (Hk k Hklt) as (H4 & Hmean). split; [exact H4 |].
  intros c Hc. rewrite Hmean. unfold community_rows.
  apply mean_vector_coordinate; [| exact Hc].
  apply (@community_run_inside emb gs count i k Hpos Hrows Hi Hklt).
Qed.

(** C5 (as amended): on an instance whose group sizes are all positive
    and whose embeddings have one row per node of every slice (and the
    four columns read), [get_centroids] returns, and stores as
    [left_centroids] a list of length [layers] whose elements have
    length [len(groups)]; the [k]-th element of the [i]-th list is a
    vector of length 4 whose coordinate [c] is the sum of column [c]
    over the rows of community [k] of layer [i], divided by their
    number [groups[k]], community [k] being the contiguous run of
    [groups[k]] rows that follows the runs of the communities declared
    before it.  [right_centroids] is the same over the timesteps.  The
    order of the communities relies on the set of labels being iterated
    in increasing order. *)
Theorem get_centroids_spec (s : state) (l r : ndarray) :
  set_iterates_in_order ->
  Forall (fun g => 0 < g) (groups (fst s)) ->
  left_embedding (fst s) = Some l ->
  embedding_shape l (groups (fst s)) (layers (fst s)) ->
  right_embedding (fst s) = Some r ->
  embedding_shape r (groups (fst s)) (timesteps (fst s)) ->
  exists lc rc,
    get_centroids s =
    (Ok tt, (set_right_centroids (Some rc)
               (set_left_centroids (Some lc) (fst s)), snd s)) /\
    centroids_of l (groups (fst s)) (layers (fst s)) lc /\
    centroids_of r (groups (fst s)) (timesteps (fst s)) rc.
Proof.
  intros Hset Hpos Hl Hls Hr Hrs. destruct s as [m w]. simpl in *.
  destruct (@centroids_loop l (layers m) (m, w) left_embedding
                            Hset Hpos Hl Hls) as (lc & Hrun1 & Hlc).
  destruct (@centroids_loop r (timesteps m)
                            (set_left_centroids (Some lc) m, w)
                            right_embedding Hset Hpos Hr Hrs)
    as (rc & Hrun2 & Hrc).
  simpl in Hlc, Hrc.
  apply (mean_vectors_of_centroids Hpos Hls) in Hlc.
  apply (mean_vectors_of_centroids Hpos Hrs) in Hrc.
  exists lc, rc. split; [| split; assumption].
  unfold get_centroids. erewrite bind_ok by reflexivity. simpl.
  erewrite bind_ok by exact Hrun1.
  erewrite bind_ok by reflexivity.
  erewrite bind_ok by reflexivity. simpl.
  erewrite bind_ok by exact Hrun2.
  reflexivity.
Qed.

(** * Further properties of the methods *)

(** ** Loops without effect on the state *)

Lemma lift_bind_err (S X Y : Type) (r : exn + X) (k : X -> exn + Y) (s : S) :
  bind (lift r) (fun x => lift (k x)) s = lift (bind_err r k) s.
Proof. unfold bind, lift, bind_err. destruct r; reflexivity. Qed.

Lemma bind_raise (S X Y : Type) (c : M S X) (k : X -> M S Y) (s s' : S)
      (e : exn) :
  c s = (Raise e, s') -> bind c k s = (Raise e, s').
Proof. intros H. unfold bind. rewrite H. reflexivity. Qed.

(** A loop whose body returns [acc ++ [y]] or raises, without touching
    the state, collects the results of [f] up to the first exception. *)
Lemma for_each_map_err (S X Y : Type) (f : X -> exn + Y) (xs : list X)
      (body : X -> list Y -> M S (list Y)) (s : S) :
  (forall x acc, In x xs ->
                 body x acc s =
                 lift (bind_err (f x) (fun y => inr (acc ++ [y]))) s) ->
  forall acc,
    for_each xs body acc s =
    lift (bind_err (map_err f xs) (fun ys => inr (acc ++ ys))) s.
Proof.
  induction xs as [| x xs IH]; intros Hbody acc; simpl.
  - unfold ret, lift. simpl. rewrite app_nil_r. reflexivity.
  - pose proof (Hbody x acc (or_introl eq_refl)) as Hx.
    destruct (f x) as [e | y] eqn:Ef.
    + apply bind_raise. rewrite Hx. reflexivity.
    + erewrite bind_ok by (rewrite Hx; reflexivity).
      rewrite IH by (intros; apply Hbody; right; assumption).
      destruct (map_err f xs) as [e | ys]; simpl; [reflexivity |].
      unfold lift. rewrite <- app_assoc. reflexivity.
Qed.

Lemma for_each_map_err_nil (S X Y : Type) (f : X -> exn + Y) (xs : list X)
      (body : X -> list Y -> M S (list Y)) (s : S) :
  (forall x acc, In x xs ->
                 body x acc s =
                 lift (bind_err (f x) (fun y => inr (acc ++ [y]))) s) ->
  for_each xs body [] s = lift (map_err f xs) s.
Proof.
  intros H. rewrite (for_each_map_err f xs body s H []).
  destruct (map_err f xs); reflexivity.
Qed.

Lemma map_err_ext (X Y : Type) (f g : X -> exn + Y) (l : list X) :
  (forall x, In x l -> f x = g x) -> map_err f l = map_err g l.
Proof.
  induction l as [| x l IH]; intros H; simpl; [reflexivity |].
  rewrite (H x (or_introl eq_refl)).
  rewrite IH by (intros; apply H; right; assumption). reflexivity.
Qed.

Lemma map_err_returns (X Y : Type) (f : X -> exn + Y) (l : list X)
      (ys : list Y) :
  map_err f l = inr ys ->
  length ys = length l /\
  forall i d d', (i < length l)%nat -> f (nth i l d) = inr (nth i ys d').
Proof.
  revert ys. induction l as [| x l IH]; intros ys; simpl.
  - intros H. injection H as <-. split; [reflexivity |]. intros; lia.
  - destruct (f x) as [e | y] eqn:Ex; [discriminate |].
    destruct (map_err f l) as [e | ys'] eqn:El; [discriminate |].
    intros H. injection H as <-. destruct (IH ys' eq_refl) as [Hlen Hnth].
    split; [simpl; congruence |].
    intros [| i] d d' Hi; simpl; [exact Ex |]. apply Hnth. lia.
Qed.

Lemma map_err_all (X Y : Type) (f : X -> exn + Y) (g : X -> Y) (l : list X) :
  (forall x, In x l -> f x = inr (g x)) -> map_err f l = inr (map g l).
Proof.
  induction l as [| x l IH]; intros H; simpl; [reflexivity |].
  rewrite (H x (or_introl eq_refl)).
  rewrite IH by (intros; apply H; right; assumption). reflexivity.
Qed.

(** The first exception among the [f x]. *)
Lemma map_err_first (X Y : Type) (f : X -> exn + Y) (l1 l2 : list X) (x : X)
      (e : exn) :
  (forall y, In y l1 -> exists z, f y = inr z) -> f x = inl e ->
  map_err f (l1 ++ x :: l2) = inl e.
Proof.
  intros H1 Hx. induction l1 as [| y l1 IH]; simpl.
  - rewrite Hx. reflexivity.
  - destruct (H1 y (or_introl eq_refl)) as (z & ->).
    rewrite IH by (intros; apply H1; right; assumption). reflexivity.
Qed.

(** ** [get_centroids] as a function of the embeddings *)

Lemma community_centroids_pure (current : ndarray) (gs : list Z) (s : state) :
  community_centroids current gs s =
  lift (map_err (community_centroid current gs)
                (py_set (generate_group_labels gs))) s.
Proof.
  unfold community_centroids. apply for_each_map_err_nil.
  intros label acc _. unfold community_centroid, bind, lift, bind_err, ret.
  destruct (mask_select current _) as [e | community]; [reflexivity |].
  destruct (column community 0); [reflexivity |].
  destruct (column community 1); [reflexivity |].
  destruct (column community 2); [reflexivity |].
  destruct (column community 3); reflexivity.
Qed.

Lemma centroids_loop_pure (field : model -> option ndarray) (count : Z)
      (s : state) :
  for_each (py_range count) (fun idx centroids =>
    m <- self ;;
    current <- lift (subscript_rows (field m)
                       (py_sum_int (groups (fst s)) * idx)
                       (py_sum_int (groups (fst s)) * (idx + 1))) ;;
    current_embeddings <- community_centroids current (groups m) ;;
    ret (centroids ++ [current_embeddings])) [] s
  = lift (all_centroids (field (fst s)) (groups (fst s)) count) s.
Proof.
  unfold all_centroids. apply for_each_map_err_nil.
  intros idx acc _. erewrite bind_ok by reflexivity.
  unfold slice_centroids.
  destruct (subscript_rows (field (fst s)) _ _) as [e | current]; simpl.
  - reflexivity.
  - erewrite bind_ok by reflexivity.
    unfold bind. rewrite community_centroids_pure. unfold lift, ret.
    destruct (map_err _ _); reflexivity.
Qed.

(** [get_centroids] computes the centroids of the left embedding, stores
    them, then does the same for the right embedding. *)
Lemma get_centroids_unfold (m : model) (w : world) :
  get_centroids (m, w) =
  match all_centroids (left_embedding m) (groups m) (layers m) with
  | inl e => (Raise e, (m, w))
  | inr lc =>
    match all_centroids (right_embedding m) (groups m) (timesteps m) with
    | inl e => (Raise e, (set_left_centroids (Some lc) m, w))
    | inr rc =>
      (Ok tt, (set_right_centroids (Some rc)
                 (set_left_centroids (Some lc) m), w))
    end
  end.
Proof.
  unfold get_centroids. erewrite bind_ok by reflexivity. cbv beta.
  change (fst (m, w)) with m.
  pose proof (centroids_loop_pure left_embedding (layers m) (m, w)) as H1.
  simpl fst in H1. unfold bind at 1. rewrite H1. unfold lift at 1.
  destruct (all_centroids (left_embedding m) (groups m) (layers m))
    as [e | lc]; [reflexivity |].
  erewrite bind_ok by reflexivity.
  erewrite bind_ok by reflexivity. cbv beta.
  pose proof (centroids_loop_pure right_embedding (timesteps m)
                (set_left_centroids (Some lc) m, w)) as H2.
  simpl fst in H2. simpl groups in H2. simpl right_embedding in H2.
  cbn [fst snd].
  change (timesteps (set_left_centroids (Some lc) m)) with (timesteps m).
  unfold bind at 1. rewrite H2. unfold lift at 1.
  destruct (all_centroids (right_embedding m) (groups m) (timesteps m))
    as [e | rc]; reflexivity.
Qed.

Lemma py_range_positive (z : Z) :
  0 < z -> py_range z = 0 :: map Z.of_nat (seq 1 (Z.to_nat z - 1)).
Proof.
  intros H. unfold py_range.
  destruct (Z.to_nat z) as [| n] eqn:E; [lia |].
  simpl. rewrite Nat.sub_0_r. reflexivity.
Qed.

Lemma all_centroids_none (gs : list Z) (count : Z) :
  0 < count -> all_centroids None gs count = inl TypeError.
Proof.
  intros H. unfold all_centroids. rewrite (py_range_positive H). reflexivity.
Qed.

Lemma set_centroids_twice (m : model) (lc rc : list (list (list Qc))) :
  set_right_centroids (Some rc)
    (set_left_centroids (Some lc)
       (set_right_centroids (Some rc) (set_left_centroids (Some lc) m))) =
  set_right_centroids (Some rc) (set_left_centroids (Some lc) m).
Proof. destruct m. reflexivity. Qed.

(** X11: Running [get_centroids] again after it returned changes nothing: the
    centroids depend on the embeddings and the parameters only, not on
    centroids stored before. *)
Theorem get_centroids_rerun (s s1 : state) :
  get_centroids s = (Ok tt, s1) -> get_centroids s1 = (Ok tt, s1).
Proof.
  destruct s as [m w]. rewrite get_centroids_unfold.
  destruct (all_centroids (left_embedding m) (groups m) (layers m))
    as [e | lc] eqn:El; [discriminate |].
  destruct (all_centroids (right_embedding m) (groups m) (timesteps m))
    as [e | rc] eqn:Er; [discriminate |].
  intros H. injection H as <-. rewrite get_centroids_unfold. simpl.
  rewrite El, Er. rewrite set_centroids_twice. reflexivity.
Qed.

(** X6: Whether it returns or raises, [get_centroids] changes no field of
    the instance other than the two centroid fields, prints and plots
    nothing and leaves the random generator alone. *)
Theorem get_centroids_frame (s : state) :
  let s' := snd (get_centroids s) in
  snd s' = snd s /\
  fst s' = set_right_centroids (right_centroids (fst s'))
             (set_left_centroids (left_centroids (fst s')) (fst s)).
Proof.
  destruct s as [m w]. rewrite get_centroids_unfold.
  destruct (all_centroids (left_embedding m) (groups m) (layers m))
    as [e | lc].
  - simpl. split; [reflexivity |]. destruct m. reflexivity.
  - destruct (all_centroids (right_embedding m) (groups m) (timesteps m))
      as [e | rc]; simpl; split; try reflexivity; destruct m; reflexivity.
Qed.

(** X7: Called before the embeddings exist, [get_centroids] raises
    [TypeError] on its first subscript and stores nothing. *)
Theorem get_centroids_before_sample (s : state) :
  left_embedding (fst s) = None -> 0 < layers (fst s) ->
  get_centroids s = (Raise TypeError, s).
Proof.
  destruct s as [m w]. simpl. intros Hl Hpos.
  rewrite get_centroids_unfold, Hl, all_centroids_none by exact Hpos.
  reflexivity.
Qed.

(** X8: When only the right embedding is missing, [get_centroids] raises
    [TypeError] after it has stored the left centroids. *)
Theorem get_centroids_right_missing (s : state)
        (lc : list (list (list Qc))) :
  all_centroids (left_embedding (fst s)) (groups (fst s)) (layers (fst s))
  = inr lc ->
  right_embedding (fst s) = None -> 0 < timesteps (fst s) ->
  get_centroids s =
  (Raise TypeError, (set_left_centroids (Some lc) (fst s), snd s)).
Proof.
  destruct s as [m w]. simpl. intros Hl Hr Hpos.
  rewrite get_centroids_unfold, Hl, Hr, all_centroids_none by exact Hpos.
  reflexivity.
Qed.

Lemma community_centroid_length (current : ndarray) (gs : list Z) (label : Z)
      (c : list Qc) :
  community_centroid current gs label = inr c -> length c = 4%nat.
Proof.
  unfold community_centroid, bind_err.
  destruct (mask_select current _) as [e | community]; [discriminate |].
  destruct (column community 0); [discriminate |].
  destruct (column community 1); [discriminate |].
  destruct (column community 2); [discriminate |].
  destruct (column community 3); [discriminate |].
  intros H. injection H as <-. reflexivity.
Qed.

Lemma map_err_Forall (X Y : Type) (f : X -> exn + Y) (P : Y -> Prop)
      (l : list X) (ys : list Y) :
  (forall x y, In x l -> f x = inr y -> P y) ->
  map_err f l = inr ys -> Forall P ys.
Proof.
  revert ys. induction l as [| x l IH]; intros ys HP; simpl.
  - intros H. injection H as <-. constructor.
  - destruct (f x) as [e | y] eqn:Ex; [discriminate |].
    destruct (map_err f l) as [e | ys'] eqn:El; [discriminate |].
    intros H. injection H as <-. constructor.
    + apply (HP x y); [left; reflexivity | exact Ex].
    + apply IH; [| reflexivity]. intros x' y' Hx'. apply HP. right. exact Hx'.
Qed.

Lemma all_centroids_shape (emb : option ndarray) (gs : list Z) (count : Z)
      (cs : list (list (list Qc))) :
  all_centroids emb gs count = inr cs ->
  length cs = Z.to_nat count /\
  Forall (fun inner =>
            length inner = length (py_set (generate_group_labels gs)) /\
            Forall (fun c => length c = 4%nat) inner) cs.
Proof.
  unfold all_centroids. intros H. split.
  - apply map_err_returns in H. rewrite (proj1 H). apply py_range_length.
  - eapply map_err_Forall; [| exact H]. intros idx inner _.
    unfold slice_centroids, bind_err.
    destruct (subscript_rows emb _ _) as [e | current]; [discriminate |].
    intros Hin. split.
    + apply map_err_returns in Hin. apply Hin.
    + eapply map_err_Forall; [| exact Hin]. intros label c _.
      apply community_centroid_length.
Qed.

(** X9: Whatever the embeddings and the group sizes, when [get_centroids]
    returns it has stored one list per layer (per timestep), each with
    one centroid per label the set of labels yields, each centroid of
    length 4. *)
Theorem get_centroids_shape (s s' : state) :
  get_centroids s = (Ok tt, s') ->
  let shaped (count : Z) (cs : list (list (list Qc))) :=
    length cs = Z.to_nat count /\
    Forall (fun inner =>
              length inner =
              length (py_set (generate_group_labels (groups (fst s)))) /\
              Forall (fun c => length c = 4%nat) inner) cs in
  exists lc rc,
    left_centroids (fst s') = Some lc /\ shaped (layers (fst s)) lc /\
    right_centroids (fst s') = Some rc /\ shaped (timesteps (fst s)) rc.
Proof.
  destruct s as [m w]. rewrite get_centroids_unfold.
  destruct (all_centroids (left_embedding m) (groups m) (layers m))
    as [e | lc] eqn:El; [discriminate |].
  destruct (all_centroids (right_embedding m) (groups m) (timesteps m))
    as [e | rc] eqn:Er; [discriminate |].
  intros H. injection H as <-. simpl. exists lc, rc.
  split; [reflexivity |]. split; [exact (all_centroids_shape _ _ _ El) |].
  split; [reflexivity |]. exact (all_centroids_shape _ _ _ Er).
Qed.

Lemma py_slice_length (X : Type) (a b : Z) (l : list X) :
  (length (py_slice a b l) <= length l)%nat.
Proof.
  unfold py_slice. rewrite length_firstn, length_skipn. lia.
Qed.

Lemma community_centroid_narrow (current : ndarray) (gs : list Z) (label : Z) :
  (ncols current < 4)%nat \/
  (nrows current < length (generate_group_labels gs))%nat ->
  community_centroid current gs label = inl IndexError.
Proof.
  intros H. unfold community_centroid, bind_err, mask_select.
  rewrite length_map.
  destruct (Nat.eqb_spec (length (generate_group_labels gs)) (nrows current))
    as [E | E]; [| reflexivity].
  destruct H as [H | H]; [| lia].
  unfold column. rewrite mk_nd_ncols.
  destruct (Nat.ltb_spec 0 (ncols current)); [| reflexivity].
  destruct (Nat.ltb_spec 1 (ncols current)); [| reflexivity].
  destruct (Nat.ltb_spec 2 (ncols current)); [| reflexivity].
  destruct (Nat.ltb_spec 3 (ncols current)); [lia | reflexivity].
Qed.

(** X10: An embedding with fewer than the four columns read, or with fewer
    rows than there are nodes, makes [get_centroids] raise [IndexError]
    and store nothing. *)
Theorem get_centroids_bad_shape (s : state) (l : ndarray) :
  left_embedding (fst s) = Some l -> 0 < layers (fst s) ->
  py_set (generate_group_labels (groups (fst s))) <> [] ->
  (ncols l < 4)%nat \/
  (nrows l < length (generate_group_labels (groups (fst s))))%nat ->
  get_centroids s = (Raise IndexError, s).
Proof.
  destruct s as [m w]. simpl. intros Hl Hpos Hset Hshape.
  rewrite get_centroids_unfold, Hl.
  unfold all_centroids. rewrite (py_range_positive Hpos). simpl map_err.
  unfold slice_centroids at 1. simpl bind_err.
  destruct (py_set (generate_group_labels (groups m))) as [| label rest];
    [congruence |].
  simpl map_err. rewrite community_centroid_narrow; [reflexivity |].
  match goal with
  | |- context [row_slice l ?a ?b] =>
    destruct (row_slice_rows l a b) as [Hr Hc];
      pose proof (py_slice_length a b (rows l)) as Hlen
  end.
  destruct Hshape as [H | H]; [left; rewrite Hc; exact H |].
  right. unfold nrows in *. rewrite Hr. lia.
Qed.

(** ** [calculate_variance] as a list of charts *)

Lemma for_each_fold (S X Acc : Type) (g : Acc -> X -> Acc) (xs : list X)
      (body : X -> Acc -> M S Acc) (s : S) :
  (forall x acc, body x acc s = (Ok (g acc x), s)) ->
  forall acc, for_each xs body acc s = (Ok (fold_left g xs acc), s).
Proof.
  intros Hbody. induction xs as [| x xs IH]; intros acc; simpl.
  - reflexivity.
  - erewrite bind_ok by apply Hbody. apply IH.
Qed.

Lemma community_variances_pure (current : ndarray) (gs : list Z) (s : state) :
  exists start,
    community_variances current gs s = (Ok (start, variances_of current gs), s).
Proof.
  unfold community_variances, variances_of.
  rewrite (for_each_fold
             (fun (loc : Z * list (option Qc)) size =>
                (fst loc + size,
                 snd loc ++ [sum_var_axis0
                               (row_slice current (fst loc) (fst loc + size))])))
    by (intros x [start variances]; reflexivity).
  eexists. rewrite <- surjective_pairing. reflexivity.
Qed.

Lemma world_eta (w : world) : World (rng w) (output w) = w.
Proof. destruct w. reflexivity. Qed.

(** A loop that plots one chart per element appends the charts to the
    output, up to the first exception. *)
Lemma for_each_emitted (X : Type) (f : X -> exn + event) (xs : list X)
      (body : X -> unit -> M state unit) (m : model) :
  (forall x w,
      body x tt (m, w) =
      match f x with
      | inl e => (Raise e, (m, w))
      | inr ev => (Ok tt, (m, World (rng w) (output w ++ [ev])))
      end) ->
  forall w,
    for_each xs body tt (m, w) =
    (stopped (snd (emitted f xs)),
     (m, World (rng w) (output w ++ fst (emitted f xs)))).
Proof.
  intros Hbody. induction xs as [| x xs IH]; intros w; simpl.
  - rewrite app_nil_r, world_eta. reflexivity.
  - pose proof (Hbody x w) as Hx. destruct (f x) as [e | ev]; simpl.
    + erewrite bind_raise by exact Hx.
      rewrite app_nil_r, world_eta. reflexivity.
    + erewrite bind_ok by exact Hx. rewrite IH. simpl.
      rewrite <- app_assoc. reflexivity.
Qed.

Lemma variance_loop_pure (field : model -> option ndarray) (title : string)
      (count : Z) (m : model) (w : world) :
  for_each (py_range count) (fun idx (_ : unit) =>
    m0 <- self ;;
    current <- lift (subscript_rows (field m0)
                       (py_sum_int (groups m) * idx)
                       (py_sum_int (groups m) * (idx + 1))) ;;
    loc <- community_variances current (groups m0) ;;
    emit (Bar_chart (title ++ py_str_int (idx + 1))
                    (py_range (Z.of_nat (length (groups m0))))
                    (snd loc))) tt (m, w)
  = (stopped (snd (emitted (variance_chart title (field m) (groups m))
                           (py_range count))),
     (m, World (rng w)
               (output w ++ fst (emitted (variance_chart title (field m)
                                                         (groups m))
                                         (py_range count))))).
Proof.
  apply for_each_emitted. intros idx w0.
  erewrite bind_ok by reflexivity. cbn [fst]. unfold variance_chart.
  destruct (subscript_rows (field m) _ _) as [e | current]; simpl bind_err.
  - reflexivity.
  - erewrite bind_ok by reflexivity.
    destruct (community_variances_pure current (groups m) (m, w0))
      as (start & Hv).
    erewrite bind_ok by exact Hv. reflexivity.
Qed.

(** [calculate_variance] plots the charts of the layers, then those of
    the timesteps, and stops at the first exception. *)
Lemma calculate_variance_unfold (m : model) (w : world) :
  let left := emitted (variance_chart "Community Variances Layer "
                                      (left_embedding m) (groups m))
                      (py_range (layers m)) in
  let right := emitted (variance_chart "Community Variances Time "
                                       (right_embedding m) (groups m))
                       (py_range (timesteps m)) in
  calculate_variance (m, w) =
  match snd left with
  | Some e => (Raise e, (m, World (rng w) (output w ++ fst left)))
  | None =>
    (stopped (snd right),
     (m, World (rng w) (output w ++ fst left ++ fst right)))
  end.
Proof.
  intros left right. unfold calculate_variance.
  erewrite bind_ok by reflexivity. cbv beta. change (fst (m, w)) with m.
  unfold bind at 1.
  rewrite (variance_loop_pure left_embedding "Community Variances Layer "
                              (layers m) m w).
  fold left. destruct (snd left) as [e |]; simpl stopped; [reflexivity |].
  erewrite bind_ok by reflexivity. cbv beta. cbn [fst].
  rewrite (variance_loop_pure right_embedding "Community Variances Time "
                              (timesteps m) m).
  fold right. cbn [rng output]. rewrite <- app_assoc. reflexivity.
Qed.

Lemma emitted_all (X : Type) (f : X -> exn + event) (g : X -> event)
      (xs : list X) :
  (forall x, In x xs -> f x = inr (g x)) ->
  emitted f xs = (map g xs, None).
Proof.
  induction xs as [| x xs IH]; intros H; simpl; [reflexivity |].
  rewrite (H x (or_introl eq_refl)).
  rewrite IH by (intros; apply H; right; assumption). reflexivity.
Qed.

Lemma variances_of_length (current : ndarray) (gs : list Z) :
  length (variances_of current gs) = length gs.
Proof.
  unfold variances_of.
  assert (H : forall loc,
             length (snd (fold_left
               (fun (loc : Z * list (option Qc)) size =>
                  (fst loc + size,
                   snd loc ++ [sum_var_axis0
                                 (row_slice current (fst loc)
                                            (fst loc + size))]))
               gs loc)) = (length (snd loc) + length gs)%nat).
  { induction gs as [| g gs IH]; intros loc; simpl; [lia |].
    rewrite IH. simpl. rewrite length_app. simpl. lia. }
  rewrite H. reflexivity.
Qed.

(** X12: Once both embeddings are populated, [calculate_variance] returns; it
    leaves the instance as it was and appends to the output one chart
    per layer, then one per timestep, numbered from 1, each with one bar
    per group. *)
Theorem calculate_variance_charts (s : state) (l r : ndarray) :
  left_embedding (fst s) = Some l -> right_embedding (fst s) = Some r ->
  let gs := groups (fst s) in
  let charts :=
    map (chart_of "Community Variances Layer " l gs)
        (py_range (layers (fst s))) ++
    map (chart_of "Community Variances Time " r gs)
        (py_range (timesteps (fst s))) in
  calculate_variance s =
  (Ok tt, (fst s, World (rng (snd s)) (output (snd s) ++ charts))) /\
  length charts =
  (Z.to_nat (layers (fst s)) + Z.to_nat (timesteps (fst s)))%nat /\
  Forall (fun ev => exists title height,
              ev = Bar_chart title (py_range (Z.of_nat (length gs))) height /\
              length height = length gs) charts.
Proof.
  destruct s as [m w]. simpl. intros Hl Hr. split; [| split].
  - rewrite calculate_variance_unfold, Hl, Hr.
    rewrite (emitted_all _ (chart_of "Community Variances Layer " l (groups m)))
      by reflexivity.
    rewrite (emitted_all _ (chart_of "Community Variances Time " r (groups m)))
      by reflexivity.
    reflexivity.
  - rewrite length_app, !length_map, !py_range_length. reflexivity.
  - apply Forall_app. split; apply Forall_map, Forall_forall; intros idx _;
      eexists; eexists; (split; [reflexivity | apply variances_of_length]).
Qed.

(** X13: Called before the embeddings exist, [calculate_variance] raises
    [TypeError] and plots nothing. *)
Theorem calculate_variance_before_sample (s : state) :
  left_embedding (fst s) = None -> 0 < layers (fst s) ->
  calculate_variance s = (Raise TypeError, s).
Proof.
  destruct s as [m w]. simpl. intros Hl Hpos.
  rewrite calculate_variance_unfold, Hl, (py_range_positive Hpos). simpl.
  rewrite app_nil_r, world_eta. reflexivity.
Qed.

(** ** [get_rotation], [calculate_error] and [rotate], step by step *)

Lemma get_rotation_unfold (m : model) (w : world) :
  get_rotation (m, w) =
  match rotation_of (left_embedding_theo m) (left_centroids m) with
  | inl e => (Raise e, (m, w))
  | inr rl =>
    match rotation_of (right_embedding_theo m) (right_centroids m) with
    | inl e => (Raise e, (set_rotation_left (Some rl) m, w))
    | inr rr =>
      (Ok tt, (set_rotation_right (Some rr)
                 (set_rotation_left (Some rl) m), w))
    end
  end.
Proof.
  unfold get_rotation, rotation_of, bind, self, lift, update, modify, bind_err.
  simpl.
  destruct (concatenate_centroids (left_centroids m)) as [e | ls];
    [reflexivity |].
  destruct (call_orthogonal_procrustes (left_embedding_theo m) ls)
    as [e | rl]; [reflexivity |].
  simpl.
  destruct (concatenate_centroids (right_centroids m)) as [e | rs];
    [reflexivity |].
  destruct (call_orthogonal_procrustes (right_embedding_theo m) rs)
    as [e | rr]; reflexivity.
Qed.

(** X14: Whether it returns or raises, [get_rotation] changes no field other
    than the two rotations, and prints, plots and draws nothing. *)
Theorem get_rotation_frame (s : state) :
  let s' := snd (get_rotation s) in
  snd s' = snd s /\ same_but_rotations (fst s) (fst s').
Proof.
  destruct s as [m w]. rewrite get_rotation_unfold. unfold same_but_rotations.
  destruct (rotation_of (left_embedding_theo m) (left_centroids m))
    as [e | rl].
  - simpl. split; [reflexivity | destruct m; reflexivity].
  - destruct (rotation_of (right_embedding_theo m) (right_centroids m))
      as [e | rr]; simpl; (split; [reflexivity | destruct m; reflexivity]).
Qed.

(** X15: When the left side is solved and the right side raises,
    [get_rotation] raises that exception with [rotation_left] already
    stored and [rotation_right] untouched. *)
Theorem get_rotation_left_only (s : state) (rl : ndarray) (e : exn) :
  rotation_of (left_embedding_theo (fst s)) (left_centroids (fst s)) = inr rl ->
  rotation_of (right_embedding_theo (fst s)) (right_centroids (fst s)) = inl e ->
  get_rotation s = (Raise e, (set_rotation_left (Some rl) (fst s), snd s)).
Proof.
  destruct s as [m w]. simpl. intros Hl Hr.
  rewrite get_rotation_unfold, Hl, Hr. reflexivity.
Qed.

(** X16: With a solver that rejects arguments of different shapes, a
    theoretical embedding whose shape is not that of the stacked
    centroids makes [get_rotation] raise and store nothing. *)
Theorem get_rotation_shape_mismatch (s : state) (L SL : ndarray) :
  procrustes_contract orthogonal_procrustes ->
  left_embedding_theo (fst s) = Some L ->
  concatenate_centroids (left_centroids (fst s)) = inr (Stacked2 SL) ->
  nrows L <> nrows SL \/ ncols L <> ncols SL ->
  exists e, get_rotation s = (Raise e, s).
Proof.
  destruct s as [m w]. simpl. intros Hsolver HL HSL Hshape.
  rewrite get_rotation_unfold. unfold rotation_of. rewrite HSL, HL. simpl.
  destruct (orthogonal_procrustes L SL) as [e | r] eqn:E.
  - exists e. reflexivity.
  - destruct (Hsolver _ _ _ E) as (H1 & H2 & _).
    destruct Hshape as [H | H]; [elim (H H1) | elim (H H2)].
Qed.

Lemma calculate_error_unfold (m : model) (w : world) :
  calculate_error (m, w) =
  match total_error m with
  | inl e => (Raise e, (m, w))
  | inr v => calculate_variance (set_error v m, w)
  end.
Proof.
  unfold calculate_error, total_error, bind_err.
  erewrite bind_ok by reflexivity. cbn [fst].
  destruct (concatenate_centroids (left_centroids m)) as [e | ls];
    [reflexivity |].
  erewrite bind_ok by reflexivity.
  destruct (concatenate_centroids (right_centroids m)) as [e | rs];
    [reflexivity |].
  erewrite bind_ok by reflexivity.
  destruct (squared_error (left_embedding_theo m) ls) as [e | le];
    [reflexivity |].
  erewrite bind_ok by reflexivity.
  destruct (squared_error (right_embedding_theo m) rs) as [e | re];
    [reflexivity |].
  erewrite bind_ok by reflexivity.
  erewrite bind_ok by reflexivity. reflexivity.
Qed.

(** X17: Called before the centroids exist, [calculate_error] raises
    [TypeError]; [error] keeps its value and nothing is plotted. *)
Theorem calculate_error_before_centroids (s : state) :
  left_centroids (fst s) = None ->
  calculate_error s = (Raise TypeError, s).
Proof.
  destruct s as [m w]. simpl. intros H.
  rewrite calculate_error_unfold. unfold total_error. rewrite H. reflexivity.
Qed.

(** X18: [calculate_error] stores [error] before it plots: when the sampled
    embeddings are missing it raises [TypeError] with the new [error]
    already in place. *)
Theorem calculate_error_stores_first (s : state) (v : Qc) :
  total_error (fst s) = inr v ->
  left_embedding (fst s) = None -> 0 < layers (fst s) ->
  calculate_error s = (Raise TypeError, (set_error v (fst s), snd s)).
Proof.
  destruct s as [m w]. simpl. intros Hv Hl Hpos.
  rewrite calculate_error_unfold, Hv, calculate_variance_unfold.
  simpl left_embedding. simpl layers. rewrite Hl, (py_range_positive Hpos).
  simpl. rewrite app_nil_r, world_eta. reflexivity.
Qed.

Lemma emitted_length (X : Type) (f : X -> exn + event) (xs : list X) :
  snd (emitted f xs) = None -> length (fst (emitted f xs)) = length xs.
Proof.
  induction xs as [| x xs IH]; simpl; [reflexivity |].
  destruct (f x) as [e | ev]; simpl; [discriminate |].
  intros H. rewrite IH by exact H. reflexivity.
Qed.

(** When [calculate_variance] returns it has appended one chart per
    layer and per timestep, and nothing else has changed. *)
Lemma calculate_variance_returns_inv (m : model) (w : world) (s' : state) :
  calculate_variance (m, w) = (Ok tt, s') ->
  exists charts,
    s' = (m, World (rng w) (output w ++ charts)) /\
    length charts = (Z.to_nat (layers m) + Z.to_nat (timesteps m))%nat.
Proof.
  rewrite calculate_variance_unfold.
  destruct (snd (emitted (variance_chart "Community Variances Layer "
                                         (left_embedding m) (groups m))
                         (py_range (layers m)))) as [e |] eqn:E1;
    [discriminate |].
  destruct (snd (emitted (variance_chart "Community Variances Time "
                                         (right_embedding m) (groups m))
                         (py_range (timesteps m)))) as [e |] eqn:E2;
    [discriminate |].
  simpl. intros H. injection H as <-. eexists. split; [reflexivity |].
  rewrite length_app, !emitted_length, !py_range_length by assumption.
  reflexivity.
Qed.

Lemma rotate_unfold (m : model) (w : world) :
  rotate (m, w) =
  match rotation_of (left_embedding_theo m) (left_centroids m) with
  | inl e => (Raise e, (m, w))
  | inr rl =>
    match rotation_of (right_embedding_theo m) (right_centroids m) with
    | inl e => (Raise e, (set_rotation_left (Some rl) m, w))
    | inr rr =>
      let m1 := set_rotation_right (Some rr) (set_rotation_left (Some rl) m) in
      match py_matmul (left_embedding_theo m) (Some rl) with
      | inl e => (Raise e, (m1, w))
      | inr L' =>
        let m2 := set_left_embedding_theo (Some L') m1 in
        match py_matmul (right_embedding_theo m) (Some rr) with
        | inl e => (Raise e, (m2, w))
        | inr R' =>
          let m3 := set_right_embedding_theo (Some R') m2 in
          bind calculate_error
               (fun _ => m0 <- self ;; emit (Print_total_error (error m0)))
               (m3, w)
        end
      end
    end
  end.
Proof.
  unfold rotate. unfold bind at 1. rewrite get_rotation_unfold.
  destruct (rotation_of (left_embedding_theo m) (left_centroids m))
    as [e | rl]; [reflexivity |].
  destruct (rotation_of (right_embedding_theo m) (right_centroids m))
    as [e | rr]; [reflexivity |].
  erewrite bind_ok by reflexivity. cbn [fst]. simpl left_embedding_theo.
  simpl rotation_left. unfold bind at 1. unfold lift at 1.
  destruct (py_matmul (left_embedding_theo m) (Some rl)) as [e | L'];
    [reflexivity |].
  erewrite bind_ok by reflexivity.
  erewrite bind_ok by reflexivity. cbn [fst]. simpl right_embedding_theo.
  simpl rotation_right. unfold bind at 1. unfold lift at 1.
  destruct (py_matmul (right_embedding_theo m) (Some rr)) as [e | R'];
    [reflexivity |].
  erewrite bind_ok by reflexivity. reflexivity.
Qed.

(** X19: Called before the centroids exist, [rotate] raises [TypeError];
    nothing is stored, plotted or printed. *)
Theorem rotate_before_centroids (s : state) :
  left_centroids (fst s) = None -> rotate s = (Raise TypeError, s).
Proof.
  destruct s as [m w]. simpl. intros H.
  rewrite rotate_unfold. unfold rotation_of. rewrite H. reflexivity.
Qed.

Lemma emitted_unpopulated (title : string) (gs : list Z) (count : Z) :
  0 < count ->
  snd (emitted (variance_chart title None gs) (py_range count))
  = Some TypeError.
Proof. intros H. rewrite (py_range_positive H). reflexivity. Qed.

(** When [calculate_variance] returns on an instance with at least one
    layer and one timestep, both embeddings are populated and the output
    has grown by exactly their charts. *)
Lemma calculate_variance_returns_charts (m : model) (w : world) (s' : state) :
  calculate_variance (m, w) = (Ok tt, s') ->
  0 < layers m -> 0 < timesteps m ->
  exists l r,
    left_embedding m = Some l /\ right_embedding m = Some r /\
    s' = (m, World (rng w) (output w ++ variance_charts m l r)).
Proof.
  intros H Hl Ht. rewrite calculate_variance_unfold in H. cbv zeta in H.
  destruct (left_embedding m) as [l |].
  2:{ rewrite (emitted_unpopulated _ _ Hl) in H. discriminate. }
  rewrite (emitted_all _ (chart_of "Community Variances Layer " l (groups m)))
    in H by reflexivity.
  destruct (right_embedding m) as [r |].
  2:{ cbn [fst snd] in H. rewrite (emitted_unpopulated _ _ Ht) in H.
      discriminate. }
  rewrite (emitted_all _ (chart_of "Community Variances Time " r (groups m)))
    in H by reflexivity.
  cbn [fst snd stopped] in H. injection H as <-.
  exists l, r. repeat split.
Qed.

(** X20: When [rotate] returns on an instance with at least one layer and
    one timestep, both embeddings are populated and the output has grown
    by exactly the bar charts of [calculate_variance] (one per layer,
    then one per timestep) followed by the printed total error, which is
    the value now stored in [error]; the random generator is
    untouched. *)
Theorem rotate_prints_error (s s' : state) :
  rotate s = (Ok tt, s') ->
  0 < layers (fst s) -> 0 < timesteps (fst s) ->
  exists l r,
    left_embedding (fst s) = Some l /\ right_embedding (fst s) = Some r /\
    snd s' = World (rng (snd s))
                   (output (snd s) ++ variance_charts (fst s) l r
                           ++ [Print_total_error (error (fst s'))]).
Proof.
  destruct s as [m w]. cbn [fst snd]. rewrite rotate_unfold.
  destruct (rotation_of (left_embedding_theo m) (left_centroids m))
    as [e | rl]; [discriminate |].
  destruct (rotation_of (right_embedding_theo m) (right_centroids m))
    as [e | rr]; [discriminate |].
  destruct (py_matmul (left_embedding_theo m) (Some rl)) as [e | L'];
    [discriminate |].
  destruct (py_matmul (right_embedding_theo m) (Some rr)) as [e | R'];
    [discriminate |].
  cbv zeta. unfold bind at 1. rewrite calculate_error_unfold.
  match goal with
  | |- context [total_error ?m3] => destruct (total_error m3) as [e | v]
  end; [discriminate |].
  match goal with
  | |- context [calculate_variance ?st] =>
    destruct (calculate_variance st) as [[[] | e] s4] eqn:Hv; [| discriminate]
  end.
  intros H Hl Ht.
  apply calculate_variance_returns_charts in Hv; [| exact Hl | exact Ht].
  destruct Hv as (l & r & El & Er & ->).
  unfold bind, self, emit, modify in H. simpl in H.
  injection H as <-. exists l, r. simpl.
  split; [exact El |]. split; [exact Er |].
  rewrite <- app_assoc. reflexivity.
Qed.

Lemma same_but_aligned_refl (m : model) : same_but_aligned m m.
Proof. destruct m. reflexivity. Qed.

Lemma same_but_aligned_trans (m1 m2 m3 : model) :
  same_but_aligned m1 m2 -> same_but_aligned m2 m3 -> same_but_aligned m1 m3.
Proof.
  unfold same_but_aligned. intros H12 H23. rewrite H23 at 1. rewrite H12.
  reflexivity.
Qed.

Lemma same_but_error_aligned (m m' : model) :
  same_but_error m m' -> same_but_aligned m m'.
Proof.
  unfold same_but_error, same_but_aligned. intros H. rewrite H.
  destruct m. reflexivity.
Qed.

Lemma rotate_keeps_but_aligned : preserves same_but_aligned rotate.
Proof.
  assert (Hce : preserves same_but_aligned calculate_error).
  { intros s. apply same_but_error_aligned.
    apply calculate_error_keeps_but_error. }
  unfold rotate, get_rotation.
  repeat first
    [ exact Hce
    | apply preserves_update; intros m0; destruct m0; reflexivity
    | frame_step same_but_aligned_refl same_but_aligned_trans ].
Qed.

(** X21: Whether it returns or raises, [rotate] changes no field other than
    the rotations, the theoretical embeddings and [error]: the sampled
    matrix and embeddings, the centroids and the parameters stay. *)
Theorem rotate_frame (s : state) :
  same_but_aligned (fst s) (fst (snd (rotate s))).
Proof. apply rotate_keeps_but_aligned. Qed.

(** ** [get_centroids_theo] *)

Lemma theoretical_loop_pure (s : state) :
  for_each (py_range (layers (fst s))) (fun i list_longs =>
    m <- self ;;
    curr_long <-
      for_each (py_range (timesteps m)) (fun j curr_long =>
        m <- self ;;
        curr_B <- lift (lookup_prob (prob_dict m) i j) ;;
        ret (curr_long ++ [curr_B])) [] ;;
    final_long <- lift (concatenate1_values curr_long) ;;
    ret (list_longs ++ [final_long])) [] s
  = lift (map_err (theoretical_row (fst s)) (py_range (layers (fst s)))) s.
Proof.
  apply for_each_map_err_nil. intros i acc _.
  erewrite bind_ok by reflexivity. unfold theoretical_row.
  unfold bind at 1.
  rewrite (for_each_map_err_nil (lookup_prob (prob_dict (fst s)) i)).
  - unfold lift at 1.
    destruct (map_err (lookup_prob (prob_dict (fst s)) i)
                      (py_range (timesteps (fst s)))) as [e | values];
      simpl bind_err; [reflexivity |].
    unfold bind, lift, ret.
    destruct (concatenate1_values values); reflexivity.
  - intros j acc' _. erewrite bind_ok by reflexivity.
    unfold bind, lift, ret, bind_err.
    destruct (lookup_prob (prob_dict (fst s)) i j); reflexivity.
Qed.

(** [get_centroids_theo] builds the theoretical supermatrix, embeds it on
    both sides, stores the two embeddings and calls [rotate]. *)
Lemma get_centroids_theo_unfold (m : model) (w : world) :
  get_centroids_theo (m, w) =
  match theoretical_matrix m with
  | inl e => (Raise e, (m, w))
  | inr p =>
    match get_embedding p Left with
    | inl e => (Raise e, (m, w))
    | inr l =>
      match get_embedding p Right with
      | inl e => (Raise e, (set_left_embedding_theo (Some l) m, w))
      | inr r =>
        rotate (set_right_embedding_theo (Some r)
                  (set_left_embedding_theo (Some l) m), w)
      end
    end
  end.
Proof.
  unfold get_centroids_theo, theoretical_matrix.
  erewrite bind_ok by reflexivity. cbv beta. unfold bind at 1.
  rewrite (theoretical_loop_pure (m, w)). cbn [fst]. unfold lift at 1.
  destruct (map_err (theoretical_row m) (py_range (layers m)))
    as [e | longs]; simpl bind_err; [reflexivity |].
  unfold bind at 1. unfold lift at 1.
  destruct (np_concatenate0 longs) as [e | p]; [reflexivity |].
  unfold bind at 1. unfold lift at 1.
  destruct (get_embedding p Left) as [e | l]; [reflexivity |].
  erewrite bind_ok by reflexivity.
  unfold bind at 1. unfold lift at 1.
  destruct (get_embedding p Right) as [e | r]; [reflexivity |].
  erewrite bind_ok by reflexivity. reflexivity.
Qed.

Lemma lookup_prob_missing (m : model) (i j : Z) :
  key_missing m i j -> lookup_prob (prob_dict m) i j = inl (KeyError i j).
Proof.
  intros H. unfold lookup_prob.
  destruct (find (fun kv => key_matches i j (fst kv)) (prob_dict m))
    as [kv |] eqn:E; [| reflexivity].
  apply find_some in E. destruct E as [Hin Hk].
  rewrite (H kv Hin) in Hk. discriminate.
Qed.

Lemma py_range_split (n k : Z) :
  0 <= k < n -> exists rest, py_range n = py_range k ++ k :: rest.
Proof.
  intros H. unfold py_range.
  replace (Z.to_nat n) with (Z.to_nat k + S (Z.to_nat n - Z.to_nat k - 1))%nat
    by lia.
  rewrite seq_app, map_app. simpl. rewrite Z2Nat.id by lia.
  eexists. reflexivity.
Qed.

Lemma theoretical_matrix_missing_key (m : model) (i0 j0 : Z) :
  0 <= i0 < layers m -> 0 <= j0 < timesteps m ->
  (forall i, 0 <= i < i0 -> exists a, theoretical_row m i = inr a) ->
  (forall j, 0 <= j < j0 ->
             exists v, lookup_prob (prob_dict m) i0 j = inr v) ->
  key_missing m i0 j0 ->
  theoretical_matrix m = inl (KeyError i0 j0).
Proof.
  intros Hi Hj Hrows Hkeys Hmiss. unfold theoretical_matrix.
  destruct (py_range_split Hi) as (rest & ->).
  rewrite (@map_err_first _ _ (theoretical_row m) (py_range i0) rest i0
                          (KeyError i0 j0)).
  - reflexivity.
  - intros i Hin. apply Hrows. apply py_range_In. exact Hin.
  - unfold theoretical_row. destruct (py_range_split Hj) as (rest' & ->).
    rewrite (@map_err_first _ _ (lookup_prob (prob_dict m) i0)
                            (py_range j0) rest' j0 (KeyError i0 j0)).
    + reflexivity.
    + intros j Hin. apply Hkeys. apply py_range_In. exact Hin.
    + apply lookup_prob_missing. exact Hmiss.
Qed.

(** X23: When [prob_dict] has no entry for a pair, and everything before that
    pair (row by row) is in place, [get_centroids_theo] raises the
    [KeyError] of that pair and changes nothing. *)
Theorem get_centroids_theo_missing_key (s : state) (i0 j0 : Z) :
  0 <= i0 < layers (fst s) -> 0 <= j0 < timesteps (fst s) ->
  (forall i, 0 <= i < i0 -> exists a, theoretical_row (fst s) i = inr a) ->
  (forall j, 0 <= j < j0 ->
             exists v, lookup_prob (prob_dict (fst s)) i0 j = inr v) ->
  key_missing (fst s) i0 j0 ->
  get_centroids_theo s = (Raise (KeyError i0 j0), s).
Proof.
  destruct s as [m w]. simpl. intros Hi Hj Hrows Hkeys Hmiss.
  rewrite get_centroids_theo_unfold.
  rewrite (theoretical_matrix_missing_key Hi Hj Hrows Hkeys Hmiss).
  reflexivity.
Qed.

(** X24: Called before the centroids exist, [get_centroids_theo] raises
    [TypeError] from [rotate], but only after it has replaced both
    theoretical embeddings by the fresh, unrotated ones. *)
Theorem get_centroids_theo_before_centroids (s : state) (p l r : ndarray) :
  theoretical_matrix (fst s) = inr p ->
  get_embedding p Left = inr l -> get_embedding p Right = inr r ->
  left_centroids (fst s) = None ->
  get_centroids_theo s =
  (Raise TypeError,
   (set_right_embedding_theo (Some r)
      (set_left_embedding_theo (Some l) (fst s)), snd s)).
Proof.
  destruct s as [m w]. simpl. intros Hp Hl Hr Hc.
  rewrite get_centroids_theo_unfold, Hp, Hl, Hr, rotate_unfold.
  unfold rotation_of. simpl left_centroids. rewrite Hc. reflexivity.
Qed.

Lemma total_error_set_error (m : model) (v : Qc) :
  total_error (set_error v m) = total_error m.
Proof. reflexivity. Qed.

(** The steps a returning [rotate] went through. *)
Lemma rotate_returns_inv (m : model) (w : world) (s' : state) :
  rotate (m, w) = (Ok tt, s') ->
  exists rl rr L' R' v,
    rotation_of (left_embedding_theo m) (left_centroids m) = inr rl /\
    rotation_of (right_embedding_theo m) (right_centroids m) = inr rr /\
    py_matmul (left_embedding_theo m) (Some rl) = inr L' /\
    py_matmul (right_embedding_theo m) (Some rr) = inr R' /\
    let m3 := set_right_embedding_theo (Some R')
                (set_left_embedding_theo (Some L')
                   (set_rotation_right (Some rr)
                      (set_rotation_left (Some rl) m))) in
    total_error m3 = inr v /\ fst s' = set_error v m3.
Proof.
  rewrite rotate_unfold.
  destruct (rotation_of (left_embedding_theo m) (left_centroids m))
    as [e | rl]; [discriminate |].
  destruct (rotation_of (right_embedding_theo m) (right_centroids m))
    as [e | rr]; [discriminate |].
  destruct (py_matmul (left_embedding_theo m) (Some rl)) as [e | L'] eqn:EL;
    [discriminate |].
  destruct (py_matmul (right_embedding_theo m) (Some rr)) as [e | R'] eqn:ER;
    [discriminate |].
  cbv zeta. unfold bind at 1. rewrite calculate_error_unfold.
  match goal with
  | |- context [total_error ?m3] =>
    destruct (total_error m3) as [e | v] eqn:Ev
  end; [discriminate |].
  match goal with
  | |- context [calculate_variance ?st] =>
    destruct (calculate_variance st) as [[[] | e] s4] eqn:Hv; [| discriminate]
  end.
  apply calculate_variance_returns_inv in Hv.
  destruct Hv as (charts & -> & Hlen).
  unfold bind, self, emit, modify. simpl.
  intros H. injection H as <-. simpl.
  exists rl, rr, L', R', v. repeat split; assumption.
Qed.

(** X22: When [rotate] returns, the stored [error] is the squared error of
    the stored theoretical embeddings against the stored centroids:
    computing it again from the new state gives the same value. *)
Theorem rotate_error_consistent (s s' : state) :
  rotate s = (Ok tt, s') -> total_error (fst s') = inr (error (fst s')).
Proof.
  destruct s as [m w]. intros H. apply rotate_returns_inv in H.
  destruct H as (rl & rr & L' & R' & v & _ & _ & _ & _ & Hv & ->).
  rewrite total_error_set_error. exact Hv.
Qed.

(** X25: When [get_centroids_theo] returns, each stored theoretical embedding
    is the matrix product of the embedding of the theoretical
    supermatrix and the stored rotation (entry [(i, j)] is the sum over
    [k] of [l[i, k] * rl[k, j]]), and that rotation was solved from the
    unrotated embedding and the centroids. *)
Theorem get_centroids_theo_stores_rotated (s s' : state) :
  get_centroids_theo s = (Ok tt, s') ->
  exists p l r rl rr L' R',
    theoretical_matrix (fst s) = inr p /\
    get_embedding p Left = inr l /\ get_embedding p Right = inr r /\
    rotation_of (Some l) (left_centroids (fst s)) = inr rl /\
    rotation_of (Some r) (right_centroids (fst s)) = inr rr /\
    rotation_left (fst s') = Some rl /\ rotation_right (fst s') = Some rr /\
    matmul l rl = inr L' /\ matmul r rr = inr R' /\
    matrix_product l rl L' /\ matrix_product r rr R' /\
    left_embedding_theo (fst s') = Some L' /\
    right_embedding_theo (fst s') = Some R'.
Proof.
  destruct s as [m w]. rewrite get_centroids_theo_unfold. simpl fst.
  destruct (theoretical_matrix m) as [e | p]; [discriminate |].
  destruct (get_embedding p Left) as [e | l] eqn:El; [discriminate |].
  destruct (get_embedding p Right) as [e | r] eqn:Er; [discriminate |].
  intros H. apply rotate_returns_inv in H.
  destruct H as (rl & rr & L' & R' & v & H1 & H2 & H3 & H4 & _ & ->).
  simpl in H1, H2, H3, H4.
  pose proof (matmul_product _ _ H3) as PL.
  pose proof (matmul_product _ _ H4) as PR.
  exists p, l, r, rl, rr, L', R'. simpl.
  repeat match goal with |- _ /\ _ => split end;
    first [assumption | reflexivity].
Qed.

Lemma get_centroids_theo_keeps_but_aligned :
  preserves same_but_aligned get_centroids_theo.
Proof.
  unfold get_centroids_theo.
  repeat first
    [ exact rotate_keeps_but_aligned
    | apply preserves_update; intros m0; destruct m0; reflexivity
    | frame_step same_but_aligned_refl same_but_aligned_trans ].
Qed.

(** X26: Whether it returns or raises, [get_centroids_theo] changes no field
    other than the theoretical embeddings, the rotations and [error]. *)
Theorem get_centroids_theo_frame (s : state) :
  same_but_aligned (fst s) (fst (snd (get_centroids_theo s))).
Proof. apply get_centroids_theo_keeps_but_aligned. Qed.

Lemma map_err_defined (X Y : Type) (f : X -> exn + Y) (l : list X) :
  (forall x, In x l -> exists y, f x = inr y) ->
  exists ys, map_err f l = inr ys.
Proof.
  induction l as [| x l IH]; intros H; simpl.
  - exists []. reflexivity.
  - destruct (H x (or_introl eq_refl)) as (y & ->).
    destruct (IH (fun x' Hx' => H x' (or_intror Hx'))) as (ys & ->).
    exists (y :: ys). reflexivity.
Qed.

(** [np.concatenate(blocks, axis=1)] on a non-empty list of [n] by [n]
    arrays. *)
Lemma np_concatenate1_square (n : nat) (blocks : list ndarray) :
  blocks <> [] -> Forall (fun b => nrows b = n /\ ncols b = n) blocks ->
  exists long,
    np_concatenate1 blocks = inr long /\
    nrows long = n /\ ncols long = (length blocks * n)%nat /\
    forall j u v d, (j < length blocks)%nat -> (u < n)%nat -> (v < n)%nat ->
                    entry long u (j * n + v) = entry (nth j blocks d) u v.
Proof.
  intros Hne Hall. destruct blocks as [| a rest]; [congruence |].
  inversion Hall as [| ? ? Ha Hrest]. subst.
  assert (Hrows : Forall (fun b => nrows b = n) rest).
  { eapply Forall_impl; [| exact Hrest]. intros b Hb. apply Hb. }
  unfold np_concatenate1.
  assert (E : forallb (fun b => Nat.eqb (nrows b) (nrows a)) rest = true).
  { apply forallb_forall. intros b Hb. apply Nat.eqb_eq.
    rewrite Forall_forall in Hrows. rewrite (Hrows _ Hb).
    symmetry. apply Ha. }
  rewrite E. eexists. split; [reflexivity |].
  destruct Ha as (Har & Hac).
  destruct (fold_hcat_shape a Har Hrows) as (H1 & H2 & H3).
  split; [exact H1 |]. split.
  - rewrite H2, Hac. rewrite (list_sum_uniform (n := n)).
    + rewrite length_map. simpl. lia.
    + apply Forall_map. eapply Forall_impl; [| exact Hrest].
      intros b Hb. apply Hb.
  - intros j u v d Hj Hu Hv. unfold entry. rewrite H3 by exact Hu.
    change (nth u (rows a) [] ++
            concat (map (fun b => nth u (rows b) []) rest))
      with (concat (map (fun b => nth u (rows b) []) (a :: rest))).
    rewrite (@nth_concat_uniform _ n
               (map (fun b => nth u (rows b) []) (a :: rest)) j v (Q2Qc 0)).
    + rewrite (nth_map_lt _ _ d) by exact Hj. reflexivity.
    + apply Forall_map. eapply Forall_impl; [| exact Hall].
      intros b (Hbr & Hbc). rewrite <- Hbc. apply nth_row_length.
      rewrite Hbr. exact Hu.
    + rewrite length_map. exact Hj.
    + exact Hv.
Qed.

(** Row [i] of the theoretical supermatrix, for [g] by [g] matrices. *)
Lemma theoretical_row_shape (m : model) (g : nat) (i : Z) :
  0 < timesteps m -> square_matrices m g -> 0 <= i < layers m ->
  exists long,
    theoretical_row m i = inr long /\
    nrows long = g /\ ncols long = (Z.to_nat (timesteps m) * g)%nat /\
    forall j v b u c,
      (j < Z.to_nat (timesteps m))%nat ->
      lookup_prob (prob_dict m) i (Z.of_nat j) = inr v ->
      asarray_matrix v = inr b -> (u < g)%nat -> (c < g)%nat ->
      entry long u (j * g + c) = entry b u c.
Proof.
  intros Ht Hsq Hi. unfold theoretical_row.
  destruct (@map_err_defined _ _ (lookup_prob (prob_dict m) i)
                             (py_range (timesteps m))) as (vs & Hvs).
  { intros j Hj. apply py_range_In in Hj.
    destruct (Hsq i j Hi Hj) as (v & _ & Hv & _). exists v. exact Hv. }
  rewrite Hvs. simpl bind_err. unfold concatenate1_values.
  destruct (map_err_returns _ _ Hvs) as [Hlen Hnth].
  rewrite py_range_length in Hlen, Hnth.
  assert (Hconv : forall k, (k < Z.to_nat (timesteps m))%nat ->
            exists b, asarray_matrix (nth k vs PyNone) = inr b /\
                      nrows b = g /\ ncols b = g).
  { intros k Hk. specialize (Hnth k 0 PyNone Hk).
    rewrite py_range_nth in Hnth by exact Hk.
    destruct (Hsq i (Z.of_nat k) Hi) as (v & b & Hv & Hb & Hshape); [lia |].
    rewrite Hv in Hnth. injection Hnth as <-. exists b. auto. }
  destruct (@map_err_defined _ _ asarray_matrix vs) as (blocks & Hblocks).
  { intros v Hv. apply (In_nth _ _ PyNone) in Hv.
    destruct Hv as (k & Hk & <-). rewrite Hlen in Hk.
    destruct (Hconv k Hk) as (b & Hb & _). exists b. exact Hb. }
  rewrite Hblocks. simpl bind_err.
  destruct (map_err_returns _ _ Hblocks) as [Hlen' Hnth'].
  assert (Hall : Forall (fun b => nrows b = g /\ ncols b = g) blocks).
  { apply Forall_forall. intros b Hb. apply (In_nth _ _ b) in Hb.
    destruct Hb as (k & Hk & <-).
    assert (Hk' : (k < Z.to_nat (timesteps m))%nat) by lia.
    destruct (Hconv k Hk') as (b' & Hb' & Hshape).
    rewrite (Hnth' k PyNone b) in Hb' by lia. injection Hb' as <-.
    exact Hshape. }
  assert (Hne : blocks <> []).
  { destruct blocks; [simpl in Hlen'; lia | discriminate]. }
  destruct (np_concatenate1_square Hne Hall) as (long & Hlong & H1 & H2 & H3).
  exists long. split; [exact Hlong |]. split; [exact H1 |].
  split; [rewrite H2; f_equal; lia |].
  intros j v b u c Hj Hv Hb Hu Hc.
  rewrite (H3 j u c b) by (try lia; assumption).
  pose proof (Hnth j 0 PyNone Hj) as Hnj.
  rewrite py_range_nth, Hv in Hnj by exact Hj. injection Hnj as Hnj.
  pose proof (Hnth' j PyNone b) as Hbj. rewrite <- Hnj, Hb in Hbj.
  rewrite Hlen in Hbj. specialize (Hbj Hj). injection Hbj as <-.
  reflexivity.
Qed.

(** X27: For [g] by [g] matrices of numbers under every key, the matrix that
    [get_centroids_theo] embeds has [layers * g] rows and [timesteps * g]
    columns, and its block in block-row [i] and block-column [j] is the
    matrix stored under [(i, j)]. *)
Theorem get_centroids_theo_matrix (s : state) (g : nat) :
  0 < layers (fst s) -> 0 < timesteps (fst s) ->
  square_matrices (fst s) g ->
  exists p,
    theoretical_matrix (fst s) = inr p /\
    get_centroids_theo s =
    match get_embedding p Left with
    | inl e => (Raise e, s)
    | inr l =>
      match get_embedding p Right with
      | inl e => (Raise e, (set_left_embedding_theo (Some l) (fst s), snd s))
      | inr r =>
        rotate (set_right_embedding_theo (Some r)
                  (set_left_embedding_theo (Some l) (fst s)), snd s)
      end
    end /\
    Z.of_nat (nrows p) = layers (fst s) * Z.of_nat g /\
    Z.of_nat (ncols p) = timesteps (fst s) * Z.of_nat g /\
    forall i j v b u c,
      (i < Z.to_nat (layers (fst s)))%nat ->
      (j < Z.to_nat (timesteps (fst s)))%nat ->
      lookup_prob (prob_dict (fst s)) (Z.of_nat i) (Z.of_nat j) = inr v ->
      asarray_matrix v = inr b -> (u < g)%nat -> (c < g)%nat ->
      entry p (i * g + u) (j * g + c) = entry b u c.
Proof.
  destruct s as [m w]. simpl. intros Hl Ht Hsq.
  destruct (@map_err_defined _ _ (theoretical_row m) (py_range (layers m)))
    as (longs & Hlongs).
  { intros i Hi. apply py_range_In in Hi.
    destruct (theoretical_row_shape Ht Hsq Hi) as (long & H & _).
    exists long. exact H. }
  destruct (map_err_returns _ _ Hlongs) as [Hlen Hnth].
  rewrite py_range_length in Hlen, Hnth.
  set (tn := Z.to_nat (timesteps m)) in *.
  assert (Hrow : forall k d, (k < Z.to_nat (layers m))%nat ->
            theoretical_row m (Z.of_nat k) = inr (nth k longs d)).
  { intros k d Hk. rewrite <- (Hnth k 0 d Hk).
    rewrite py_range_nth by exact Hk. reflexivity. }
  assert (Hshape : Forall (fun a => nrows a = g /\ ncols a = (tn * g)%nat)
                          longs).
  { apply Forall_forall. intros a Ha. apply (In_nth _ _ (mk_nd 0 [])) in Ha.
    destruct Ha as (k & Hk & Ea). rewrite Hlen in Hk.
    destruct (@theoretical_row_shape m g (Z.of_nat k) Ht Hsq)
      as (long & E & H1 & H2 & _); [lia |].
    rewrite (Hrow k (mk_nd 0 []) Hk), Ea in E. injection E as <-.
    split; [exact H1 | exact H2]. }
  assert (Hne : longs <> []).
  { destruct longs; [simpl in Hlen; lia | discriminate]. }
  destruct (np_concatenate0_uniform Hne Hshape)
    as (p & Hcat & Hpr & Hpc & _ & Hentry).
  assert (Hp : theoretical_matrix m = inr p).
  { unfold theoretical_matrix. rewrite Hlongs. exact Hcat. }
  exists p. split; [exact Hp |]. split.
  { rewrite get_centroids_theo_unfold, Hp. reflexivity. }
  split; [rewrite Hpr, Hlen; lia |]. split; [rewrite Hpc; unfold tn; lia |].
  intros i j v b u c Hi Hj Hv Hb Hu Hc.
  rewrite (Hentry i u (j * g + c)%nat p) by lia.
  destruct (@theoretical_row_shape m g (Z.of_nat i) Ht Hsq)
    as (long & E & _ & _ & H3); [lia |].
  rewrite (Hrow i p Hi) in E. injection E as <-.
  apply (H3 j v b u c); assumption.
Qed.

(** ** More on [sample] *)

Lemma for_each_app (S X Acc : Type) (xs ys : list X)
      (body : X -> Acc -> M S Acc) (acc : Acc) (s : S) :
  for_each (xs ++ ys) body acc s =
  bind (for_each xs body acc) (fun acc' => for_each ys body acc') s.
Proof.
  revert acc s. induction xs as [| x xs IH]; intros acc s.
  - reflexivity.
  - change (bind (body x acc) (fun a => for_each (xs ++ ys) body a) s =
            bind (bind (body x acc) (fun a => for_each xs body a))
                 (fun a => for_each ys body a) s).
    unfold bind at 1 2 3. destruct (body x acc s) as [[acc1 | e] s1].
    + apply IH.
    + reflexivity.
Qed.

Lemma sample_loop_keeps_model (m : model) :
  preserves eq
    (for_each (py_range (layers m)) (fun i list_longs =>
       m <- self ;;
       curr_long <-
         for_each (py_range (timesteps m)) (fun j curr_long =>
           m <- self ;;
           probabilities <- lift (lookup_prob (prob_dict m) i j) ;;
           curr_A <- call_generate_adjacency_matrix (groups m) probabilities ;;
           ret (curr_long ++ [curr_A])) [] ;;
       final_long <- lift (np_concatenate1 curr_long) ;;
       ret (list_longs ++ [final_long])) []).
Proof.
  repeat frame_step (@eq_refl model) (@eq_trans model).
Qed.

(** X4: When [sample] returns, the embeddings it stored are the left and
    right embeddings of the matrix it stored in [A], and no other field
    has changed. *)
Theorem sample_returns_embeddings (s s' : state) :
  sample s = (Ok tt, s') ->
  exists a l r,
    get_embedding a Left = inr l /\ get_embedding a Right = inr r /\
    fst s' = set_right_embedding (Some r)
               (set_left_embedding (Some l) (set_A (Some a) (fst s))).
Proof.
  destruct s as [m w]. unfold sample.
  erewrite bind_ok by reflexivity. cbv beta. cbn [fst].
  unfold bind at 1.
  pose proof (sample_loop_keeps_model m (m, w)) as Hkeep.
  match goal with
  | |- context [for_each ?xs ?body [] (m, w)] =>
    change (m = fst (snd (for_each xs body [] (m, w)))) in Hkeep;
      destruct (for_each xs body [] (m, w)) as [[longs | e] [m1 w1]]
  end; [| discriminate].
  simpl in Hkeep. subst m1.
  unfold bind at 1. unfold lift at 1.
  destruct (np_concatenate0 longs) as [e | a]; [discriminate |].
  erewrite bind_ok by reflexivity.
  unfold bind at 1. unfold lift at 1.
  destruct (get_embedding a Left) as [e | l] eqn:El; [discriminate |].
  erewrite bind_ok by reflexivity.
  unfold bind at 1. unfold lift at 1.
  destruct (get_embedding a Right) as [e | r] eqn:Er; [discriminate |].
  intros H. injection H as <-. exists a, l, r. auto.
Qed.

(** The run of [sample] up to a missing key. *)
Lemma sample_missing_key_run (m : model) (w : world) (n : nat) (i0 j0 : Z) :
  sampler_returns_blocks m n ->
  0 <= i0 < layers m -> 0 <= j0 < timesteps m ->
  (forall i j, 0 <= i < layers m -> 0 <= j < timesteps m ->
               i < i0 \/ (i = i0 /\ j < j0) ->
               exists p, lookup_prob (prob_dict m) i j = inr p) ->
  key_missing m i0 j0 ->
  exists w', sample (m, w) = (Raise (KeyError i0 j0), (m, w')).
Proof.
  intros Hsampler Hi Hj Hbefore Hmiss.
  destruct (py_range_split Hi) as (rest & Hsplit).
  destruct (py_range_split Hj) as (rest' & Hsplit').
  destruct (@sample_outer_loop m n (py_range i0) Hsampler) with (acc := @nil ndarray) (w := w)
    as (grid & longs & w1 & Hrun & _); [lia | |].
  { intros i j Hin Hjn. apply py_range_In in Hin. apply py_range_In in Hjn.
    apply Hbefore; lia. }
  destruct (@sample_inner_loop m n i0 (py_range j0) Hsampler) with (acc := @nil ndarray) (w := w1)
    as (blocks & w2 & Hrun2 & _).
  { intros j Hjn. apply py_range_In in Hjn. apply Hbefore; lia. }
  exists w2. unfold sample.
  erewrite bind_ok by reflexivity. cbv beta. cbn [fst].
  apply bind_raise. rewrite Hsplit, for_each_app.
  erewrite bind_ok by exact Hrun. simpl for_each.
  apply bind_raise.
  erewrite bind_ok by reflexivity. cbn [fst].
  apply bind_raise. rewrite Hsplit', for_each_app.
  erewrite bind_ok by exact Hrun2. simpl for_each.
  apply bind_raise.
  erewrite bind_ok by reflexivity. cbn [fst].
  apply bind_raise. unfold lift.
  rewrite (lookup_prob_missing Hmiss). reflexivity.
Qed.

Lemma keeps_output_bind (X Y : Type) (c : M state X) (k : X -> M state Y) :
  keeps_output c -> (forall x, keeps_output (k x)) -> keeps_output (bind c k).
Proof.
  intros Hc Hk s. unfold bind.
  specialize (Hc s). destruct (c s) as [[x | e] s1]; simpl in *.
  - rewrite Hk. exact Hc.
  - exact Hc.
Qed.

Lemma keeps_output_for_each (X Acc : Type) (xs : list X)
      (body : X -> Acc -> M state Acc) :
  (forall x acc, keeps_output (body x acc)) ->
  forall acc, keeps_output (for_each xs body acc).
Proof.
  intros Hbody. induction xs as [| x xs IH]; intros acc; simpl.
  - intros s. reflexivity.
  - apply keeps_output_bind; [apply Hbody | intros acc'; apply IH].
Qed.

Lemma keeps_output_lift (X : Type) (r : exn + X) : keeps_output (lift r).
Proof. intros s. unfold lift. destruct r; reflexivity. Qed.

Lemma keeps_output_sampler (g : list Z) (p : pyval) :
  keeps_output (call_generate_adjacency_matrix g p).
Proof.
  intros s. unfold call_generate_adjacency_matrix.
  destruct (generate_adjacency_matrix g p (rng (snd s))) as [[e | a] r];
    reflexivity.
Qed.

Ltac silent_step :=
  first
    [ apply keeps_output_bind; [| intros ]
    | apply keeps_output_for_each; intros
    | apply keeps_output_lift
    | apply keeps_output_sampler
    | intros ?; reflexivity ].

(** [sample] prints and plots nothing. *)
Lemma sample_keeps_output : keeps_output sample.
Proof. unfold sample. repeat silent_step. Qed.

(** X5: When [prob_dict] has no entry for a pair and has one for every pair
    before it (row by row), [sample] raises the [KeyError] of that pair:
    no field of the instance has changed and nothing has been printed or
    plotted, only the random generator has advanced. *)
Theorem sample_missing_key (s : state) (n : nat) (i0 j0 : Z) :
  sampler_returns_blocks (fst s) n ->
  0 <= i0 < layers (fst s) -> 0 <= j0 < timesteps (fst s) ->
  (forall i j, 0 <= i < layers (fst s) -> 0 <= j < timesteps (fst s) ->
               i < i0 \/ (i = i0 /\ j < j0) ->
               exists p, lookup_prob (prob_dict (fst s)) i j = inr p) ->
  key_missing (fst s) i0 j0 ->
  exists g,
    sample s = (Raise (KeyError i0 j0), (fst s, World g (output (snd s)))).
Proof.
  destruct s as [m w]. cbn [fst snd]. intros Hsampler Hi Hj Hbefore Hmiss.
  destruct (@sample_missing_key_run m w n i0 j0 Hsampler Hi Hj Hbefore Hmiss)
    as (w' & Hrun).
  pose proof (sample_keeps_output (m, w)) as Hout.
  rewrite Hrun in Hout. cbn [fst snd] in Hout.
  exists (rng w'). rewrite Hrun, <- Hout, world_eta. reflexivity.
Qed.

(** ** The constructor, test by test *)

Lemma positive_int_test (v : pyval) :
  negb (isinstance_int v) || (int_value v <=? 0) = false <-> positive_int v.
Proof.
  unfold positive_int. rewrite orb_false_iff, negb_false_iff, Z.leb_gt.
  reflexivity.
Qed.

Lemma list_of_ints_test (g : list pyval) :
  Nat.eqb (length g) 0 || negb (forallb isinstance_int g) = false <->
  list_of_ints (PyList g).
Proof.
  unfold list_of_ints.
  rewrite orb_false_iff, negb_false_iff, Nat.eqb_neq, forallb_forall.
  split.
  - intros [Hlen Hall]. exists g. split; [reflexivity |]. split.
    + intros ->. apply Hlen. reflexivity.
    + apply Forall_forall. exact Hall.
  - intros (g' & Eg & Hne & Hall). injection Eg as <-. split.
    + destruct g; [congruence | discriminate].
    + apply Forall_forall. exact Hall.
Qed.

Lemma dict_of_lists_test (items : list (pyval * pyval)) :
  negb (forallb prob_item_ok items) = false <-> dict_of_lists (PyDict items).
Proof.
  unfold dict_of_lists. rewrite negb_false_iff, forallb_forall. split.
  - intros Hall. exists items. split; [reflexivity |].
    apply Forall_forall. intros kv Hin. apply prob_item_ok_shape. auto.
  - intros (items' & Ei & Hall). injection Ei as <-.
    rewrite Forall_forall in Hall. intros kv Hin.
    apply prob_item_ok_shape. auto.
Qed.

(** X1: The constructor tests its arguments in the order layers, timesteps,
    groups, prob_dict and reports the first one that fails: the message
    of the [ValueError] names the first invalid argument, whatever the
    later ones are. *)
Theorem init_reports_first_invalid
        (layers0 timesteps0 groups0 prob_dict0 : pyval) :
  let r := init layers0 timesteps0 groups0 prob_dict0 in
  (~ positive_int layers0 -> r = inl (ValueError msg_layers)) /\
  (positive_int layers0 -> ~ positive_int timesteps0 ->
   r = inl (ValueError msg_timesteps)) /\
  (positive_int layers0 -> positive_int timesteps0 ->
   ~ list_of_ints groups0 -> r = inl (ValueError msg_groups)) /\
  (positive_int layers0 -> positive_int timesteps0 ->
   list_of_ints groups0 -> ~ dict_of_lists prob_dict0 ->
   r = inl (ValueError msg_prob_dict)).
Proof.
  cbv zeta. unfold init.
  destruct (negb (isinstance_int layers0) || (int_value layers0 <=? 0))
    eqn:El.
  { assert (Hl : ~ positive_int layers0).
    { intros H. apply positive_int_test in H. congruence. }
    repeat split; intros; try reflexivity; contradiction. }
  apply positive_int_test in El.
  destruct (negb (isinstance_int timesteps0) || (int_value timesteps0 <=? 0))
    eqn:Et.
  { assert (Ht : ~ positive_int timesteps0).
    { intros H. apply positive_int_test in H. congruence. }
    repeat split; intros; try reflexivity; contradiction. }
  apply positive_int_test in Et.
  destruct groups0 as [| | | | | g | |];
    try (repeat split; intros; try reflexivity; try contradiction;
         match goal with
         | H : list_of_ints _ |- _ => destruct H as (? & ? & _); discriminate
         end).
  destruct (Nat.eqb (length g) 0 || negb (forallb isinstance_int g)) eqn:Eg.
  { assert (Hg : ~ list_of_ints (PyList g)).
    { intros H. apply list_of_ints_test in H. congruence. }
    repeat split; intros; try reflexivity; contradiction. }
  apply list_of_ints_test in Eg.
  destruct prob_dict0 as [| | | | | | | items];
    try (repeat split; intros; try reflexivity; contradiction).
  destruct (negb (forallb prob_item_ok items)) eqn:Ep.
  { repeat split; intros; try reflexivity; contradiction. }
  apply dict_of_lists_test in Ep.
  repeat split; intros; contradiction.
Qed.

(** What a returned instance holds. *)
Lemma init_returns (layers0 timesteps0 groups0 prob_dict0 : pyval)
      (m : model) :
  init layers0 timesteps0 groups0 prob_dict0 = inr m ->
  0 < layers m /\ 0 < timesteps m /\ groups m <> [] /\ nothing_computed m.
Proof.
  unfold init.
  destruct (negb (isinstance_int layers0) || (int_value layers0 <=? 0))
    eqn:El; [discriminate |].
  destruct (negb (isinstance_int timesteps0) || (int_value timesteps0 <=? 0))
    eqn:Et; [discriminate |].
  apply positive_int_test in El. apply positive_int_test in Et.
  destruct groups0 as [| | | | | g | |]; try discriminate.
  destruct (Nat.eqb (length g) 0 || negb (forallb isinstance_int g)) eqn:Eg;
    [discriminate |].
  apply list_of_ints_test in Eg. destruct Eg as (g' & Eg & Hne & _).
  injection Eg as <-.
  destruct prob_dict0 as [| | | | | | | items]; try discriminate.
  destruct (negb (forallb prob_item_ok items)); [discriminate |].
  intros H. injection H as <-. unfold nothing_computed. simpl.
  repeat split; try reflexivity; try apply El; try apply Et.
  destruct g; [congruence | discriminate].
Qed.

(** X2: On a freshly constructed instance only [sample] and
    [get_centroids_theo] can get anywhere: [get_centroids],
    [get_rotation], [rotate], [calculate_error] and [calculate_variance]
    each raise [TypeError] on the first field they read, and leave the
    instance and the output as they were. *)
Theorem fresh_instance_needs_sample
        (layers0 timesteps0 groups0 prob_dict0 : pyval) (m : model)
        (w : world) :
  init layers0 timesteps0 groups0 prob_dict0 = inr m ->
  get_centroids (m, w) = (Raise TypeError, (m, w)) /\
  get_rotation (m, w) = (Raise TypeError, (m, w)) /\
  rotate (m, w) = (Raise TypeError, (m, w)) /\
  calculate_error (m, w) = (Raise TypeError, (m, w)) /\
  calculate_variance (m, w) = (Raise TypeError, (m, w)).
Proof.
  intros H. apply init_returns in H.
  destruct H as (Hl & Ht & _ & (_ & Hle & _ & Hlc & _)).
  repeat split.
  - rewrite get_centroids_unfold, Hle, all_centroids_none by exact Hl.
    reflexivity.
  - rewrite get_rotation_unfold. unfold rotation_of. rewrite Hlc. reflexivity.
  - rewrite rotate_unfold. unfold rotation_of. rewrite Hlc. reflexivity.
  - rewrite calculate_error_unfold. unfold total_error. rewrite Hlc.
    reflexivity.
  - rewrite calculate_variance_unfold, Hle, (py_range_positive Hl). simpl.
    rewrite app_nil_r, world_eta. reflexivity.
Qed.

(** X3: The constructor does not look for the keys the methods will read: an
    accepted dictionary that has no entry for the pair (0, 0) gives an
    instance on which [sample] and [get_centroids_theo] raise the
    [KeyError] of that pair at once, before anything is drawn or
    stored. *)
Theorem init_does_not_check_keys
        (layers0 timesteps0 groups0 : pyval) (items : list (pyval * pyval))
        (m : model) (w : world) :
  init layers0 timesteps0 groups0 (PyDict items) = inr m ->
  (forall kv, In kv items -> key_matches 0 0 (fst kv) = false) ->
  sample (m, w) = (Raise (KeyError 0 0), (m, w)) /\
  get_centroids_theo (m, w) = (Raise (KeyError 0 0), (m, w)).
Proof.
  intros H Hmiss.
  assert (Hd : prob_dict m = items).
  { revert H. unfold init.
    destruct (_ || _); [discriminate |].
    destruct (_ || _); [discriminate |].
    destruct groups0; try discriminate.
    destruct (_ || _); [discriminate |].
    destruct (negb _); [discriminate |].
    intros H. injection H as <-. reflexivity. }
  apply init_returns in H. destruct H as (Hl & Ht & _).
  assert (Hkey : key_missing m 0 0).
  { unfold key_missing. rewrite Hd. exact Hmiss. }
  split.
  - unfold sample. erewrite bind_ok by reflexivity. cbv beta. cbn [fst].
    apply bind_raise. rewrite (py_range_positive Hl). simpl for_each.
    apply bind_raise. erewrite bind_ok by reflexivity. cbn [fst].
    apply bind_raise. rewrite (py_range_positive Ht). simpl for_each.
    apply bind_raise. erewrite bind_ok by reflexivity. cbn [fst].
    apply bind_raise. unfold lift.
    rewrite (lookup_prob_missing Hkey). reflexivity.
  - rewrite get_centroids_theo_unfold.
    rewrite (@theoretical_matrix_missing_key m 0 0);
      try reflexivity; try lia; try exact Hkey; intros; lia.
Qed.

End Methods.

(** ** The example collaborators meet their contracts *)

Lemma identity_shape (d : nat) :
  nrows (identity d) = d /\ ncols (identity d) = d.
Proof.
  unfold identity, nrows. split; [| apply mk_nd_ncols].
  rewrite mk_nd_rows; [rewrite length_map; apply length_seq |].
  apply rectb_Forall, Forall_forall. intros r Hr.
  apply in_map_iff in Hr. destruct Hr as (i & <- & _).
  rewrite length_map. apply length_seq.
Qed.

Lemma identity_procrustes_contract : procrustes_contract identity_procrustes.
Proof.
  intros a b r. unfold identity_procrustes.
  destruct (Nat.eqb_spec (nrows a) (nrows b)) as [Hr |]; [| discriminate].
  destruct (Nat.eqb_spec (ncols a) (ncols b)) as [Hc |]; [| discriminate].
  simpl. intros H. injection H as <-.
  destruct (identity_shape (ncols a)) as [H1 H2]. auto.
Qed.

Lemma insert_sorted_In (x y : Z) (l : list Z) :
  In y (insert_sorted x l) <-> y = x \/ In y l.
Proof.
  induction l as [| z l IH]; simpl.
  - intuition.
  - destruct (Z.ltb_spec x z); [simpl; intuition |].
    destruct (Z.eqb_spec x z); simpl; [subst; intuition |].
    rewrite IH. intuition.
Qed.

Lemma sorted_set_In (y : Z) (l : list Z) : In y (sorted_set l) <-> In y l.
Proof.
  unfold sorted_set. induction l as [| x l IH]; simpl; [tauto |].
  rewrite insert_sorted_In, IH. intuition.
Qed.

Lemma insert_sorted_increasing (x : Z) (l : list Z) :
  increasing l -> increasing (insert_sorted x l).
Proof.
  induction 1 as [| z l Hz Hl IH]; simpl.
  - constructor; [simpl; tauto | constructor].
  - destruct (Z.ltb_spec x z).
    + constructor; [| constructor; assumption].
      intros y [<- | Hy]; [assumption |]. specialize (Hz y Hy). lia.
    + destruct (Z.eqb_spec x z); [constructor; assumption |].
      constructor; [| exact IH].
      intros y Hy. apply insert_sorted_In in Hy.
      destruct Hy as [-> | Hy]; [lia | auto].
Qed.

Lemma sorted_set_increasing (l : list Z) : increasing (sorted_set l).
Proof.
  unfold sorted_set. induction l as [| x l IH]; simpl.
  - constructor.
  - apply insert_sorted_increasing. exact IH.
Qed.

(** An increasing list holding exactly [a .. a + n - 1] is that range. *)
Lemma increasing_range (n : nat) (a : Z) (l : list Z) :
  increasing l ->
  (forall k, In k l <-> a <= k < a + Z.of_nat n) ->
  l = map (fun i => a + Z.of_nat i) (seq 0 n).
Proof.
  revert a l. induction n as [| n IH]; intros a l Hinc Hin.
  - destruct l as [| x l]; [reflexivity |].
    specialize (Hin x). simpl in Hin. lia.
  - destruct Hinc as [| x l Hx Hl].
    + specialize (Hin a). simpl in Hin. lia.
    + assert (Ex : x = a).
      { pose proof (proj1 (Hin x) (or_introl eq_refl)) as H1.
        pose proof (proj2 (Hin a)) as H2.
        destruct H2 as [H2 | H2]; [lia | lia |].
        specialize (Hx a H2). lia. }
      subst x. simpl. rewrite Z.add_0_r. f_equal.
      rewrite <- seq_shift, map_map.
      rewrite (IH (a + 1) l Hl).
      * apply map_ext. intros i. lia.
      * intros k. split.
        -- intros Hk. specialize (Hx k Hk).
           pose proof (proj1 (Hin k) (or_intror Hk)). lia.
        -- intros Hk. destruct (proj2 (Hin k)) as [E | E]; [lia | lia |].
           exact E.
Qed.

Lemma sorted_set_in_order : set_iterates_in_order sorted_set.
Proof.
  intros l n Hl. unfold py_range. rewrite Nat2Z.id.
  rewrite (@increasing_range n 0 (sorted_set l)).
  - reflexivity.
  - apply sorted_set_increasing.
  - intros k. rewrite sorted_set_In. apply Hl.
Qed.

(** ** Runs on the example model *)

Lemma init_rejects_invalid_witness :
  validation_error
    (init (PyInt 0) (PyInt 1) (PyList [PyInt 2; PyInt 2]) (PyDict [])) /\
  validation_error (init (PyInt 1) (PyInt 1) (PyList []) (PyDict [])) /\
  validation_error
    (init (PyInt 1) (PyInt 1) (PyList [PyInt 2; PyInt 2])
          (PyDict [(PyStr "a", PyList [])])).
Proof.
  split; [| split]; apply init_rejects_invalid; unfold invalid_construction.
  - right. left. simpl. lia.
  - do 4 right. left. reflexivity.
  - do 5 right. exists [(PyStr "a", PyList [])], (PyStr "a"), (PyList []).
    simpl. auto.
Defined.

Lemma init_accepts_iff_witness :
  exists m,
    init (PyBool true) (PyInt 3) (PyList [PyInt 2; PyInt 5])
         (PyDict [(PyTuple [PyInt 0; PyInt 0], PyList [])]) = inr m.
Proof.
  apply init_accepts_iff. unfold accepted_construction. simpl.
  repeat split; try lia.
  - exists [PyInt 2; PyInt 5]. repeat split; [discriminate |].
    repeat constructor.
  - eexists. split; [reflexivity |]. repeat constructor.
    exists (PyInt 0), (PyInt 0), []. reflexivity.
Defined.

(** C2 fails as stated: a group list with a zero and a negative size,
    and a matrix that is neither 2 by 2 nor made of probabilities, are
    accepted. *)
Lemma init_accepts_nonpositive_groups :
  let r := init (PyInt 1) (PyInt 1) (PyList [PyInt 0; PyInt (-3)])
                (PyDict [(PyTuple [PyInt 0; PyInt 0],
                          PyList [PyList [PyInt 7]])]) in
  (exists m, r = inr m /\ groups m = [0; -3]) /\ ~ validation_error r.
Proof.
  simpl. split.
  - eexists. split; reflexivity.
  - intros (msg & H & _). discriminate.
Qed.

(** C4 fails as stated: [sample] also stores both embeddings. *)
Lemma sample_sets_embeddings :
  let m' := fst (snd (sample ones_sampler pad_embedding
                             (example_model, World tt []))) in
  left_embedding example_model = None /\
  right_embedding example_model = None /\
  left_embedding m' <> None /\
  right_embedding m' <> None /\
  ~ same_but_A example_model m'.
Proof.
  split; [reflexivity |]. split; [reflexivity |].
  assert (Hl : left_embedding
                 (fst (snd (sample ones_sampler pad_embedding
                                   (example_model, World tt [])))) <> None).
  { vm_compute. discriminate. }
  split; [exact Hl |]. split; [vm_compute; discriminate |].
  intros H. apply Hl. unfold same_but_A in H. rewrite H. reflexivity.
Qed.

Lemma get_rotation_before_centroids_witness :
  left_centroids example_embedded = None /\
  right_centroids example_embedded = None /\
  get_rotation identity_procrustes (example_embedded, World tt []) =
  (Raise TypeError, (example_embedded, World tt [])).
Proof.
  split; [reflexivity |]. split; [reflexivity |].
  apply get_rotation_before_centroids; reflexivity.
Defined.

Lemma get_rotation_twice_witness :
  let s := (example_centroided, World tt []) in
  let s1 := snd (get_rotation identity_procrustes s) in
  get_rotation identity_procrustes s = (Ok tt, s1) /\
  exists s2,
    get_rotation identity_procrustes s1 = (Ok tt, s2) /\
    rotation_left (fst s2) = rotation_left (fst s1) /\
    rotation_right (fst s2) = rotation_right (fst s1).
Proof.
  intros s s1.
  assert (H : get_rotation identity_procrustes s = (Ok tt, s1))
    by (vm_compute; reflexivity).
  split; [exact H |].
  exact (proj2 (proj2 (proj2 (proj2
           (@get_rotation_twice unit identity_procrustes s s1 H))))).
Defined.

Lemma rotate_spec_witness :
  let s := (example_centroided, World tt []) in
  let s' := snd (rotate identity_procrustes s) in
  procrustes_contract identity_procrustes /\
  rotate identity_procrustes s = (Ok tt, s') /\
  (exists L RL L',
      left_embedding_theo (fst s) = Some L /\
      rotation_left (fst s') = Some RL /\
      left_embedding_theo (fst s') = Some L' /\
      matrix_product L RL L') /\
  (0 <= error (fst s'))%Qc.
Proof.
  intros s s'.
  assert (H : rotate identity_procrustes s = (Ok tt, s'))
    by (vm_compute; reflexivity).
  split; [exact identity_procrustes_contract |]. split; [exact H |].
  destruct (@rotate_spec unit identity_procrustes s s'
                        identity_procrustes_contract H)
    as (L & R & SL & SR & RL & RR & L' & R' & lc & rc & HL & _ & _ & _ & _
        & _ & _ & _ & HRL & _ & _ & _ & PL & _ & HL' & _ & _ & Hpos).
  split; [| exact Hpos].
  exists L, RL, L'. auto.
Defined.

Lemma sample_sets_A_witness :
  let s := (example_model, World tt []) in
  all_keys_present example_model /\
  sampler_returns_blocks ones_sampler example_model 4 /\
  exists a0,
    A (fst (snd (sample ones_sampler pad_embedding s))) = Some a0 /\
    Z.of_nat (nrows a0) = 1 * 4 /\ Z.of_nat (ncols a0) = 1 * 4 /\
    Forall (Forall is_bit) (rows a0).
Proof.
  intros s.
  assert (Hkeys : all_keys_present example_model).
  { intros i j Hi Hj. simpl in Hi, Hj.
    assert (i = 0) by lia. assert (j = 0) by lia. subst.
    eexists. vm_compute. reflexivity. }
  assert (Hsampler : sampler_returns_blocks ones_sampler example_model 4).
  { intros i j p g _. eexists. eexists. split; [reflexivity |].
    split; [reflexivity |]. split; [reflexivity |].
    vm_compute.
    repeat (apply Forall_cons || apply Forall_nil); right; reflexivity. }
  split; [exact Hkeys |]. split; [exact Hsampler |].
  destruct (@sample_sets_A unit ones_sampler pad_embedding s 4)
    as (a0 & grid & H1 & H2 & H3 & H4 & _);
    [reflexivity | reflexivity | reflexivity | exact Hkeys | exact Hsampler |].
  exists a0. auto.
Defined.

Lemma get_centroids_spec_witness :
  let s := (example_embedded, World tt []) in
  set_iterates_in_order sorted_set /\
  Forall (fun g => 0 < g) (groups example_embedded) /\
  embedding_shape example_embedding (groups example_embedded) 1 /\
  exists lc rc,
    get_centroids sorted_set s =
    (Ok tt, (set_right_centroids (Some rc)
               (set_left_centroids (Some lc) example_embedded), World tt [])) /\
    centroids_of example_embedding [2; 2] 1 lc /\
    centroids_of example_embedding [2; 2] 1 rc.
Proof.
  intros s.
  assert (Hpos : Forall (fun g => 0 < g) (groups example_embedded))
    by (repeat constructor).
  assert (Hshape : embedding_shape example_embedding
                                   (groups example_embedded) 1)
    by (split; [reflexivity | vm_compute; lia]).
  split; [exact sorted_set_in_order |]. split; [exact Hpos |].
  split; [exact Hshape |].
  exact (@get_centroids_spec unit sorted_set s example_embedding
           example_embedding sorted_set_in_order Hpos eq_refl Hshape
           eq_refl Hshape).
Defined.

(** C5 fails as stated: with an empty group, which the constructor
    accepts, [get_centroids] returns inner lists shorter than [groups],
    and the centroid at index 1 is that of community 2. *)
Lemma get_centroids_skips_empty_group :
  let m := {| layers := 1; timesteps := 1; groups := [2; 0; 2];
              prob_dict := prob_dict example_model;
              A := None;
              left_embedding := Some example_embedding;
              right_embedding := Some example_embedding;
              left_centroids := None; right_centroids := None;
              left_embedding_theo := None; right_embedding_theo := None;
              rotation_left := None; rotation_right := None;
              error := Q2Qc 0 |} in
  let s' := snd (get_centroids sorted_set (m, World tt [])) in
  (exists m0,
      init (PyInt 1) (PyInt 1) (PyList [PyInt 2; PyInt 0; PyInt 2])
           (PyDict (prob_dict example_model)) = inr m0 /\
      groups m0 = groups m) /\
  get_centroids sorted_set (m, World tt []) = (Ok tt, s') /\
  exists lc,
    left_centroids (fst s') = Some lc /\
    length (groups m) = 3%nat /\
    length (nth 0 lc []) = 2%nat /\
    nth 1 (nth 0 lc []) [] = map Qc_of_Z [0; 3; 0; 0] /\
    ~ centroids_of example_embedding (groups m) 1 lc.
Proof.
  intros m s'.
  split; [eexists; split; reflexivity |].
  split; [vm_compute; reflexivity |].
  exists [[map Qc_of_Z [2; 0; 0; 0]; map Qc_of_Z [0; 3; 0; 0]]].
  split.
  { vm_compute. do 2 f_equal.
    repeat (f_equal; try (apply Qc_is_canon; reflexivity)). }
  split; [reflexivity |]. split; [reflexivity |]. split; [reflexivity |].
  intros (_ & H). destruct (H 0%nat) as (Hlen & _); [simpl; lia |].
  discriminate.
Qed.

(** The run of [get_centroids] on the example: each centroid is the mean
    of the two rows of its community. *)
Example get_centroids_example :
  left_centroids
    (fst (snd (get_centroids sorted_set (example_embedded, World tt []))))
  = Some example_centroids.
Proof.
  vm_compute. do 2 f_equal.
  repeat (f_equal; try (apply Qc_is_canon; reflexivity)).
Qed.

(** ** Further runs on the example model *)

Lemma get_centroids_rerun_witness :
  let s := (example_embedded, World tt []) in
  let s1 := snd (get_centroids sorted_set s) in
  get_centroids sorted_set s = (Ok tt, s1) /\
  get_centroids sorted_set s1 = (Ok tt, s1).
Proof.
  intros s s1.
  assert (H : get_centroids sorted_set s = (Ok tt, s1))
    by (vm_compute; reflexivity).
  split; [exact H |].
  exact (@get_centroids_rerun unit sorted_set s s1 H).
Defined.

Lemma get_centroids_before_sample_witness :
  left_embedding example_model = None /\
  get_centroids sorted_set (example_model, World tt []) =
  (Raise TypeError, (example_model, World tt [])).
Proof.
  split; [reflexivity |].
  exact (@get_centroids_before_sample unit sorted_set
           (example_model, World tt []) eq_refl eq_refl).
Defined.

Lemma get_centroids_right_missing_witness :
  let m := set_left_embedding (Some example_embedding) example_model in
  right_embedding m = None /\
  exists lc,
    all_centroids sorted_set (left_embedding m) (groups m) (layers m)
    = inr lc /\
    get_centroids sorted_set (m, World tt []) =
    (Raise TypeError, (set_left_centroids (Some lc) m, World tt [])).
Proof.
  intros m. split; [reflexivity |].
  destruct (all_centroids sorted_set (left_embedding m) (groups m) (layers m))
    as [e | lc] eqn:E; [vm_compute in E; discriminate |].
  exists lc. split; [reflexivity |].
  exact (@get_centroids_right_missing unit sorted_set (m, World tt []) lc
           E eq_refl eq_refl).
Defined.

Lemma get_centroids_shape_witness :
  let s := (example_embedded, World tt []) in
  let s' := snd (get_centroids sorted_set s) in
  get_centroids sorted_set s = (Ok tt, s') /\
  exists lc rc,
    left_centroids (fst s') = Some lc /\ length lc = 1%nat /\
    right_centroids (fst s') = Some rc /\ length rc = 1%nat.
Proof.
  intros s s'.
  assert (H : get_centroids sorted_set s = (Ok tt, s'))
    by (vm_compute; reflexivity).
  split; [exact H |].
  destruct (@get_centroids_shape unit sorted_set s s' H)
    as (lc & rc & H1 & (H2 & _) & H3 & (H4 & _)).
  exists lc, rc. auto.
Defined.

Lemma get_centroids_bad_shape_witness :
  let narrow := mk_nd 2 (map (map Qc_of_Z) [[1; 0]; [3; 0]; [0; 2]; [0; 4]]) in
  let m := set_left_embedding (Some narrow) example_model in
  (ncols narrow < 4)%nat /\
  get_centroids sorted_set (m, World tt []) =
  (Raise IndexError, (m, World tt [])).
Proof.
  intros narrow m.
  assert (Hn : (ncols narrow < 4)%nat) by (vm_compute; lia).
  split; [exact Hn |].
  refine (@get_centroids_bad_shape unit sorted_set (m, World tt []) narrow
            eq_refl eq_refl _ (or_introl Hn)).
  vm_compute. discriminate.
Defined.

Lemma calculate_variance_charts_witness :
  let s := (example_embedded, World tt []) in
  exists charts,
    calculate_variance s = (Ok tt, (example_embedded, World tt charts)) /\
    length charts = 2%nat.
Proof.
  intros s.
  pose proof (@calculate_variance_charts unit s example_embedding
                example_embedding eq_refl eq_refl) as H.
  cbv zeta in H. destruct H as (H1 & H2 & _).
  eexists. split; [exact H1 | exact H2].
Defined.

Lemma calculate_variance_before_sample_witness :
  left_embedding example_model = None /\
  calculate_variance (example_model, World tt []) =
  (Raise TypeError, (example_model, World tt [])).
Proof.
  split; [reflexivity |].
  exact (@calculate_variance_before_sample unit (example_model, World tt [])
           eq_refl eq_refl).
Defined.

Lemma get_rotation_left_only_witness :
  let m := set_right_embedding_theo None example_centroided in
  exists rl e,
    rotation_of identity_procrustes (left_embedding_theo m) (left_centroids m)
    = inr rl /\
    rotation_of identity_procrustes (right_embedding_theo m)
                (right_centroids m) = inl e /\
    get_rotation identity_procrustes (m, World tt []) =
    (Raise e, (set_rotation_left (Some rl) m, World tt [])).
Proof.
  intros m.
  destruct (rotation_of identity_procrustes (left_embedding_theo m)
                        (left_centroids m)) as [e | rl] eqn:El;
    [vm_compute in El; discriminate |].
  destruct (rotation_of identity_procrustes (right_embedding_theo m)
                        (right_centroids m)) as [e | rr] eqn:Er;
    [| vm_compute in Er; discriminate].
  exists rl, e. split; [reflexivity |]. split; [reflexivity |].
  exact (@get_rotation_left_only unit identity_procrustes (m, World tt [])
           rl e El Er).
Defined.

Lemma get_rotation_shape_mismatch_witness :
  let short := mk_nd 4 (map (map Qc_of_Z) [[1; 0; 0; 0]]) in
  let m := set_left_embedding_theo (Some short) example_centroided in
  procrustes_contract identity_procrustes /\
  exists SL e,
    concatenate_centroids (left_centroids m) = inr (Stacked2 SL) /\
    nrows short <> nrows SL /\
    get_rotation identity_procrustes (m, World tt []) =
    (Raise e, (m, World tt [])).
Proof.
  intros short m. split; [exact identity_procrustes_contract |].
  destruct (concatenate_centroids (left_centroids m)) as [e | [| SL]] eqn:E;
    [vm_compute in E; discriminate | vm_compute in E; discriminate |].
  assert (Hrows : nrows short <> nrows SL).
  { vm_compute in E. injection E as <-. vm_compute. discriminate. }
  destruct (@get_rotation_shape_mismatch unit identity_procrustes
              (m, World tt []) short SL identity_procrustes_contract
              eq_refl E (or_introl Hrows)) as [e He].
  exists SL, e. split; [reflexivity |]. split; [exact Hrows | exact He].
Defined.

Lemma calculate_error_before_centroids_witness :
  left_centroids example_embedded = None /\
  calculate_error (example_embedded, World tt []) =
  (Raise TypeError, (example_embedded, World tt [])).
Proof.
  split; [reflexivity |].
  exact (@calculate_error_before_centroids unit
           (example_embedded, World tt []) eq_refl).
Defined.

Lemma calculate_error_stores_first_witness :
  let m := set_left_embedding None example_centroided in
  exists v,
    total_error m = inr v /\
    calculate_error (m, World tt []) =
    (Raise TypeError, (set_error v m, World tt [])).
Proof.
  intros m.
  destruct (total_error m) as [e | v] eqn:E;
    [vm_compute in E; discriminate |].
  exists v. split; [reflexivity |].
  exact (@calculate_error_stores_first unit (m, World tt []) v E
           eq_refl eq_refl).
Defined.

Lemma rotate_before_centroids_witness :
  left_centroids example_embedded = None /\
  rotate identity_procrustes (example_embedded, World tt []) =
  (Raise TypeError, (example_embedded, World tt [])).
Proof.
  split; [reflexivity |].
  exact (@rotate_before_centroids unit identity_procrustes
           (example_embedded, World tt []) eq_refl).
Defined.

Lemma rotate_prints_error_witness :
  let s := (example_centroided, World tt []) in
  let s' := snd (rotate identity_procrustes s) in
  rotate identity_procrustes s = (Ok tt, s') /\
  exists l r,
    left_embedding example_centroided = Some l /\
    right_embedding example_centroided = Some r /\
    output (snd s') =
    variance_charts example_centroided l r
      ++ [Print_total_error (error (fst s'))].
Proof.
  intros s s'.
  assert (H : rotate identity_procrustes s = (Ok tt, s'))
    by (vm_compute; reflexivity).
  split; [exact H |].
  destruct (@rotate_prints_error unit identity_procrustes s s' H
              eq_refl eq_refl) as (l & r & Hl & Hr & Hout).
  exists l, r. split; [exact Hl |]. split; [exact Hr |].
  rewrite Hout. reflexivity.
Defined.

Lemma rotate_error_consistent_witness :
  let s := (example_centroided, World tt []) in
  let s' := snd (rotate identity_procrustes s) in
  rotate identity_procrustes s = (Ok tt, s') /\
  total_error (fst s') = inr (error (fst s')).
Proof.
  intros s s'.
  assert (H : rotate identity_procrustes s = (Ok tt, s'))
    by (vm_compute; reflexivity).
  split; [exact H |].
  exact (@rotate_error_consistent unit identity_procrustes s s' H).
Defined.

Lemma get_centroids_theo_missing_key_witness :
  let m := {| layers := 1; timesteps := 2; groups := [2; 2];
              prob_dict := prob_dict example_model;
              A := None; left_embedding := None; right_embedding := None;
              left_centroids := None; right_centroids := None;
              left_embedding_theo := None; right_embedding_theo := None;
              rotation_left := None; rotation_right := None;
              error := Q2Qc 0 |} in
  key_missing m 0 1 /\
  get_centroids_theo pad_embedding identity_procrustes (m, World tt []) =
  (Raise (KeyError 0 1), (m, World tt [])).
Proof.
  intros m.
  assert (Hmiss : key_missing m 0 1).
  { intros kv [<- | []]. vm_compute. reflexivity. }
  split; [exact Hmiss |].
  refine (@get_centroids_theo_missing_key unit pad_embedding
            identity_procrustes (m, World tt []) 0 1 _ _ _ _ Hmiss).
  - simpl. lia.
  - simpl. lia.
  - intros i Hi. lia.
  - intros j Hj. assert (j = 0) by lia. subst j.
    eexists. vm_compute. reflexivity.
Defined.

Lemma get_centroids_theo_before_centroids_witness :
  let s := (example_model, World tt []) in
  left_centroids example_model = None /\
  exists p l r,
    theoretical_matrix example_model = inr p /\
    get_centroids_theo pad_embedding identity_procrustes s =
    (Raise TypeError,
     (set_right_embedding_theo (Some r)
        (set_left_embedding_theo (Some l) example_model), World tt [])).
Proof.
  intros s. split; [reflexivity |].
  destruct (theoretical_matrix example_model) as [e | p] eqn:E;
    [vm_compute in E; discriminate |].
  exists p, (mk_nd 4 (map pad4 (rows p))), (mk_nd 4 (map pad4 (columns p))).
  split; [reflexivity |].
  exact (@get_centroids_theo_before_centroids unit pad_embedding
           identity_procrustes s p _ _ E eq_refl eq_refl eq_refl).
Defined.

Lemma get_centroids_theo_stores_rotated_witness :
  let s := (example_centroided, World tt []) in
  let s' := snd (get_centroids_theo pad_embedding identity_procrustes s) in
  get_centroids_theo pad_embedding identity_procrustes s = (Ok tt, s') /\
  exists p l rl L',
    theoretical_matrix example_centroided = inr p /\
    pad_embedding p Left = inr l /\
    rotation_left (fst s') = Some rl /\ matrix_product l rl L' /\
    left_embedding_theo (fst s') = Some L'.
Proof.
  intros s s'.
  assert (H : get_centroids_theo pad_embedding identity_procrustes s
              = (Ok tt, s')) by (vm_compute; reflexivity).
  split; [exact H |].
  destruct (@get_centroids_theo_stores_rotated unit pad_embedding
              identity_procrustes s s' H)
    as (p & l & r & rl & rr & L' & R' & H1 & H2 & _ & _ & _ & H6 & _ & _
        & _ & PL & _ & H12 & _).
  exists p, l, rl, L'. auto.
Defined.

Lemma get_centroids_theo_matrix_witness :
  let s := (example_model, World tt []) in
  square_matrices example_model 2 /\
  exists p,
    theoretical_matrix example_model = inr p /\
    Z.of_nat (nrows p) = 1 * 2 /\ Z.of_nat (ncols p) = 1 * 2.
Proof.
  intros s.
  assert (Hsq : square_matrices example_model 2).
  { intros i j Hi Hj. simpl in Hi, Hj.
    assert (i = 0) by lia. assert (j = 0) by lia. subst.
    eexists. exists (mk_nd 2 (map (map Qc_of_Z) [[1; 1]; [1; 1]])).
    split; [vm_compute; reflexivity |].
    split; [vm_compute; reflexivity |]. split; reflexivity. }
  split; [exact Hsq |].
  destruct (@get_centroids_theo_matrix unit pad_embedding identity_procrustes
              s 2 eq_refl eq_refl Hsq) as (p & H1 & _ & H3 & H4 & _).
  exists p. auto.
Defined.

Lemma sample_returns_embeddings_witness :
  let s := (example_model, World tt []) in
  let s' := snd (sample ones_sampler pad_embedding s) in
  sample ones_sampler pad_embedding s = (Ok tt, s') /\
  exists a l r,
    pad_embedding a Left = inr l /\ pad_embedding a Right = inr r /\
    fst s' = set_right_embedding (Some r)
               (set_left_embedding (Some l) (set_A (Some a) example_model)).
Proof.
  intros s s'.
  assert (H : sample ones_sampler pad_embedding s = (Ok tt, s'))
    by (vm_compute; reflexivity).
  split; [exact H |].
  exact (@sample_returns_embeddings unit ones_sampler pad_embedding s s' H).
Defined.

Lemma sample_missing_key_witness :
  let m := {| layers := 1; timesteps := 2; groups := [2; 2];
              prob_dict := prob_dict example_model;
              A := None; left_embedding := None; right_embedding := None;
              left_centroids := None; right_centroids := None;
              left_embedding_theo := None; right_embedding_theo := None;
              rotation_left := None; rotation_right := None;
              error := Q2Qc 0 |} in
  sampler_returns_blocks ones_sampler m 4 /\ key_missing m 0 1 /\
  exists g,
    sample ones_sampler pad_embedding (m, World tt []) =
    (Raise (KeyError 0 1), (m, World g [])).
Proof.
  intros m.
  assert (Hsampler : sampler_returns_blocks ones_sampler m 4).
  { intros i j p g _. eexists. eexists. split; [reflexivity |].
    split; [reflexivity |]. split; [reflexivity |].
    vm_compute.
    repeat (apply Forall_cons || apply Forall_nil); right; reflexivity. }
  assert (Hmiss : key_missing m 0 1).
  { intros kv [<- | []]. vm_compute. reflexivity. }
  split; [exact Hsampler |]. split; [exact Hmiss |].
  refine (@sample_missing_key unit ones_sampler pad_embedding
            (m, World tt []) 4%nat 0 1 Hsampler _ _ _ Hmiss).
  - simpl. lia.
  - simpl. lia.
  - intros i j Hi Hj Hbefore. simpl in Hi, Hj.
    assert (i = 0) by lia. assert (j = 0) by lia. subst.
    eexists. vm_compute. reflexivity.
Defined.

Lemma init_reports_first_invalid_witness :
  init (PyInt 0) (PyInt 0) (PyList []) PyNone
  = inl (ValueError msg_layers) /\
  init (PyInt 1) (PyFloat (Q2Qc 2)) (PyList []) PyNone
  = inl (ValueError msg_timesteps) /\
  init (PyInt 1) (PyInt 2) (PyList [PyInt 2; PyStr "a"]) PyNone
  = inl (ValueError msg_groups) /\
  init (PyInt 1) (PyInt 2) (PyList [PyInt 2])
       (PyDict [(PyTuple [PyInt 0], PyList [])])
  = inl (ValueError msg_prob_dict).
Proof.
  assert (Hone : positive_int (PyInt 1)) by (split; reflexivity).
  assert (Htwo : positive_int (PyInt 2)) by (split; reflexivity).
  split; [| split; [| split]].
  - apply (proj1 (init_reports_first_invalid
                    (PyInt 0) (PyInt 0) (PyList []) PyNone)).
    intros [_ H]. simpl in H. lia.
  - apply (proj1 (proj2 (init_reports_first_invalid
                    (PyInt 1) (PyFloat (Q2Qc 2)) (PyList []) PyNone)));
      [exact Hone |].
    intros [H _]. discriminate.
  - apply (proj1 (proj2 (proj2 (init_reports_first_invalid
                    (PyInt 1) (PyInt 2) (PyList [PyInt 2; PyStr "a"])
                    PyNone)))); [exact Hone | exact Htwo |].
    intros (g & Eg & _ & Hall). injection Eg as <-.
    inversion Hall as [| x l _ Hrest]. inversion Hrest. discriminate.
  - apply (proj2 (proj2 (proj2 (init_reports_first_invalid
                    (PyInt 1) (PyInt 2) (PyList [PyInt 2])
                    (PyDict [(PyTuple [PyInt 0], PyList [])])))));
      [exact Hone | exact Htwo | |].
    + exists [PyInt 2]. split; [reflexivity |]. split; [discriminate |].
      repeat constructor.
    + intros (items & Ei & Hall). injection Ei as <-.
      inversion Hall as [| x l (a & b & v & Hx) _]. discriminate.
Defined.

Lemma fresh_instance_needs_sample_witness :
  let w := World tt [] in
  init (PyInt 1) (PyInt 1) (PyList [PyInt 2; PyInt 2])
       (PyDict (prob_dict example_model)) = inr example_model /\
  get_centroids sorted_set (example_model, w)
  = (Raise TypeError, (example_model, w)) /\
  get_rotation identity_procrustes (example_model, w)
  = (Raise TypeError, (example_model, w)) /\
  rotate identity_procrustes (example_model, w)
  = (Raise TypeError, (example_model, w)) /\
  calculate_error (example_model, w)
  = (Raise TypeError, (example_model, w)) /\
  calculate_variance (example_model, w)
  = (Raise TypeError, (example_model, w)).
Proof.
  intros w. split; [reflexivity |].
  exact (@fresh_instance_needs_sample unit identity_procrustes sorted_set
           (PyInt 1) (PyInt 1) (PyList [PyInt 2; PyInt 2])
           (PyDict (prob_dict example_model)) example_model w eq_refl).
Defined.

Lemma init_does_not_check_keys_witness :
  let w := World tt [] in
  exists m,
    init (PyInt 2) (PyInt 1) (PyList [PyInt 3])
         (PyDict [(PyTuple [PyInt 1; PyInt 0], PyList [])]) = inr m /\
    sample ones_sampler pad_embedding (m, w)
    = (Raise (KeyError 0 0), (m, w)) /\
    get_centroids_theo pad_embedding identity_procrustes (m, w)
    = (Raise (KeyError 0 0), (m, w)).
Proof.
  intros w. eexists. split; [reflexivity |].
  refine (@init_does_not_check_keys unit ones_sampler pad_embedding
            identity_procrustes (PyInt 2) (PyInt 1) (PyList [PyInt 3])
            [(PyTuple [PyInt 1; PyInt 0], PyList [])] _ w eq_refl _).
  intros kv [<- | []]. vm_compute. reflexivity.
Defined.
